(** * Product import pipeline: markup engine, selection filter, batch loop

    A shallow embedding of the bulk-import route of the Shopify product
    importer (the server route holding [checkCondition], [processCsvData],
    [fetchApiData], [applyMarkupRules], [limitTagsArray], the
    [bulkCreateProducts] action, the [getProgress] loader, the inputs built
    by [updateShopifyProduct] and [checkProductInDatabase]), together with
    the part of the JavaScript value semantics these functions rely on.

    - Numbers are IEEE binary64 values: Rocq's primitive floats, so [*],
      [+], [/], [<=] and [===] on numbers are the machine operations;
      [parseFloat], [Number], [toFixed] and [toString] are computed on the
      exact value of the float.
    - Strings are sequences of 8-bit characters; case folding and
      whitespace are the ASCII ones.
    - The route is typed [any]: products, API items and JSON bodies are
      values of [jsval].  A function that can throw returns a [completion].
    - The record store and the catalog API are collaborators: what each of
      their calls does during a run is given by a [World], and the
      statements about the batch loop hold for every [World]. *)

From Stdlib Require Import ZArith List String Ascii Bool Lia Sorted.
From Stdlib Require Import Permutation.
From Stdlib Require Import DecimalString.
From Stdlib Require Import PrimFloat SpecFloat FloatOps.
Import ListNotations.

Local Open Scope list_scope.
Local Open Scope string_scope.

(** ** Strings *)

Module JsString.

Definition lower_char (c : ascii) : ascii :=
  let n := nat_of_ascii c in
  if ((65 <=? n) && (n <=? 90))%nat then ascii_of_nat (n + 32) else c.

(** [String.prototype.toLowerCase] *)
Fixpoint toLowerCase (s : string) : string :=
  match s with
  | EmptyString => EmptyString
  | String c r => String (lower_char c) (toLowerCase r)
  end.

Definition is_ws (c : ascii) : bool :=
  let n := nat_of_ascii c in
  (((9 <=? n) && (n <=? 13)) || (n =? 32))%nat.

Fixpoint trimStart (s : string) : string :=
  match s with
  | EmptyString => EmptyString
  | String c r => if is_ws c then trimStart r else s
  end.

Fixpoint trimEnd (s : string) : string :=
  match s with
  | EmptyString => EmptyString
  | String c r =>
      match trimEnd r with
      | EmptyString => if is_ws c then EmptyString else String c EmptyString
      | r' => String c r'
      end
  end.

(** [String.prototype.trim] *)
Definition trim (s : string) : string := trimEnd (trimStart s).

(** [s.startsWith(p)] *)
Fixpoint startsWith (s p : string) {struct p} : bool :=
  match p with
  | EmptyString => true
  | String a p' =>
      match s with
      | EmptyString => false
      | String b s' => Ascii.eqb a b && startsWith s' p'
      end
  end.

(** [s.includes(p)] *)
Fixpoint includes (s p : string) : bool :=
  startsWith s p
  || match s with
     | EmptyString => false
     | String _ r => includes r p
     end.

Definition reverse (s : string) : string :=
  string_of_list_ascii (rev (list_ascii_of_string s)).

(** [s.endsWith(p)] *)
Definition endsWith (s p : string) : bool :=
  startsWith (reverse s) (reverse p).

Fixpoint drop (n : nat) (s : string) : string :=
  match n, s with
  | S k, String _ r => drop k r
  | _, _ => s
  end.

(** The scan of [s.split(sep)] for a non-empty separator: [cur] holds the
    characters of the piece being read, most recent first, and [skip] the
    characters of a matched separator still to be passed over. *)
Fixpoint split_go (sep : string) (skip : nat) (cur : list ascii) (s : string)
  : list string :=
  match s with
  | EmptyString => [string_of_list_ascii (rev cur)]
  | String c r =>
      match skip with
      | S k => split_go sep k cur r
      | O =>
          if startsWith s sep
          then string_of_list_ascii (rev cur)
               :: split_go sep (String.length sep - 1) [] r
          else split_go sep 0 (c :: cur) r
      end
  end.

Fixpoint chars (s : string) : list string :=
  match s with
  | EmptyString => []
  | String c r => String c EmptyString :: chars r
  end.

(** [s.split(sep)] *)
Definition split (s sep : string) : list string :=
  match sep with
  | EmptyString => chars s
  | _ => split_go sep 0 [] s
  end.

(** [arr.join(sep)] on an array of strings. *)
Definition join (sep : string) (l : list string) : string :=
  String.concat sep l.

End JsString.

Import JsString.

(** ** Numbers *)

Module JsNumber.

Definition is_digit (c : ascii) : bool :=
  let n := nat_of_ascii c in ((48 <=? n) && (n <=? 57))%nat.

Definition digit_val (c : ascii) : Z := Z.of_nat (nat_of_ascii c) - 48.

(** Reads a run of decimal digits onto the accumulator [acc]; returns the
    value, the number of digits read and the rest of the string. *)
Fixpoint scan_digits (acc : Z) (cnt : nat) (s : string) : Z * nat * string :=
  match s with
  | String c r =>
      if is_digit c then scan_digits (10 * acc + digit_val c) (S cnt) r
      else (acc, cnt, s)
  | EmptyString => (acc, cnt, s)
  end.

(** A scanned [StrDecimalLiteral]: an infinity, or [mant * 10 ^ exp10]. *)
Inductive numlit :=
  | LitInf (neg : bool)
  | LitDec (neg : bool) (mant : Z) (exp10 : Z).

Definition scan_sign (s : string) : bool * string :=
  match s with
  | String c r =>
      if Ascii.eqb c "+" then (false, r)
      else if Ascii.eqb c "-" then (true, r)
      else (false, s)
  | EmptyString => (false, s)
  end.

(** The [ExponentPart], taken only when at least one digit follows. *)
Definition scan_exponent (s : string) : Z * string :=
  match s with
  | String c r =>
      if (Ascii.eqb c "e" || Ascii.eqb c "E")%bool then
        let '(neg, r1) := scan_sign r in
        let '(v, n, r2) := scan_digits 0 0 r1 in
        match n with
        | O => (0%Z, s)
        | _ => ((if neg then - v else v)%Z, r2)
        end
      else (0%Z, s)
  | EmptyString => (0%Z, s)
  end.

(** The longest prefix of [s] that is a [StrDecimalLiteral], and what
    follows it. *)
Definition scan_decimal (s : string) : option (numlit * string) :=
  let '(neg, s1) := scan_sign s in
  if startsWith s1 "Infinity" then Some (LitInf neg, drop 8 s1)
  else
    let '(ip, ic, s2) := scan_digits 0 0 s1 in
    let '(m, fc, s3) :=
      match s2 with
      | String c r =>
          if Ascii.eqb c "." then
            let '(m, fc, r') := scan_digits ip 0 r in
            match ic, fc with
            | O, O => (ip, O, s2)
            | _, _ => (m, fc, r')
            end
          else (ip, O, s2)
      | EmptyString => (ip, O, s2)
      end in
    match (ic + fc)%nat with
    | O => None
    | _ =>
        let '(ex, s4) := scan_exponent s3 in
        Some (LitDec neg m (ex - Z.of_nat fc), s4)
    end.

(** The binary64 value nearest to [num / den] (ties to even). *)
Definition ratio_to_SF (neg : bool) (num den : positive) : spec_float :=
  SFdiv prec emax (S754_finite neg num 0) (S754_finite false den 0).

(** The binary64 value nearest to [m * 10 ^ e], for [0 <= m]. *)
Definition decimal_to_float (neg : bool) (m e : Z) : float :=
  match m with
  | Zpos p =>
      SF2Prim
        (if (0 <=? e)%Z
         then binary_normalize prec emax
                (cond_Zopp neg (Zpos p * 10 ^ e)) 0 false
         else ratio_to_SF neg p (Z.to_pos (10 ^ (- e))))
  | _ => if neg then neg_zero else zero
  end.

Definition numlit_value (l : numlit) : float :=
  match l with
  | LitInf neg => if neg then neg_infinity else infinity
  | LitDec neg m e => decimal_to_float neg m e
  end.

(** [parseFloat(s)] on a string. *)
Definition parseFloat (s : string) : float :=
  match scan_decimal (trimStart s) with
  | Some (l, _) => numlit_value l
  | None => nan
  end.

Definition radix_digit (radix : Z) (c : ascii) : option Z :=
  let n := Z.of_nat (nat_of_ascii c) in
  let v :=
    if ((48 <=? n) && (n <=? 57))%Z then Some (n - 48)%Z
    else if ((97 <=? n) && (n <=? 102))%Z then Some (n - 87)%Z
    else if ((65 <=? n) && (n <=? 70))%Z then Some (n - 55)%Z
    else None in
  match v with
  | Some d => if (d <? radix)%Z then Some d else None
  | None => None
  end.

Fixpoint scan_radix (radix acc : Z) (s : string) : option Z :=
  match s with
  | EmptyString => Some acc
  | String c r =>
      match radix_digit radix c with
      | Some d => scan_radix radix (radix * acc + d) r
      | None => None
      end
  end.

(** A [NonDecimalIntegerLiteral]: [0x], [0o] or [0b] and at least one digit. *)
Definition scan_nondecimal (s : string) : option Z :=
  match s with
  | String z (String c (String d r)) =>
      let body := String d r in
      if negb (Ascii.eqb z "0") then None
      else if (Ascii.eqb c "x" || Ascii.eqb c "X")%bool then scan_radix 16 0 body
      else if (Ascii.eqb c "o" || Ascii.eqb c "O")%bool then scan_radix 8 0 body
      else if (Ascii.eqb c "b" || Ascii.eqb c "B")%bool then scan_radix 2 0 body
      else None
  | _ => None
  end.

(** [Number(s)] on a string ([StringToNumber]). *)
Definition Number (s : string) : float :=
  match trim s with
  | EmptyString => zero
  | t =>
      match scan_nondecimal t with
      | Some v => decimal_to_float false v 0
      | None =>
          match scan_decimal t with
          | Some (l, EmptyString) => numlit_value l
          | _ => nan
          end
      end
  end.

(** *** Printing *)

Definition decimal (n : Z) : string :=
  NilZero.string_of_uint (N.to_uint (Z.to_N n)).

Fixpoint zeros (n : nat) : string :=
  match n with
  | O => EmptyString
  | S k => String "0" (zeros k)
  end.

Definition take (n : nat) (s : string) : string := String.substring 0 n s.

(** The digits of [n] with a point before the last [fd] of them, padded
    with zeros on the left to at least [fd + 1] digits. *)
Definition fixed_digits (fd : nat) (n : Z) : string :=
  let d := decimal n in
  let d := zeros (S fd - String.length d) ++ d in
  let k := (String.length d - fd)%nat in
  match fd with
  | O => d
  | _ => take k d ++ "." ++ drop k d
  end.

(** The integer nearest to [m * 2 ^ e * 10 ^ fd], the larger one on a tie. *)
Definition round_scaled (fd : nat) (m : positive) (e : Z) : Z :=
  let p := (10 ^ Z.of_nat fd)%Z in
  if (0 <=? e)%Z then (Zpos m * 2 ^ e * p)%Z
  else
    let den := (2 ^ (- e))%Z in
    ((2 * (Zpos m * p) + den) / (2 * den))%Z.

(** [x] as the fraction [num / den] of two positive integers. *)
Definition fraction (m : positive) (e : Z) : Z * Z :=
  if (0 <=? e)%Z then (Zpos m * 2 ^ e, 1)%Z else (Zpos m, 2 ^ (- e))%Z.

(** The decimal exponent [n] with [10 ^ (n - 1) <= num / den < 10 ^ n]. *)
Fixpoint small_exponent (fuel : nat) (num den n : Z) : Z :=
  match fuel with
  | O => n
  | S k =>
      if (den <=? 10 * num)%Z then n
      else small_exponent k (10 * num)%Z den (n - 1)%Z
  end.

Definition decimal_exponent (num den : Z) : Z :=
  if (den <=? num)%Z then Z.of_nat (String.length (decimal (num / den)))
  else small_exponent 400 num den 0.

Fixpoint strip_zeros (fuel : nat) (c q : Z) : Z * Z :=
  match fuel with
  | O => (c, q)
  | S k =>
      if ((0 <? c) && (c mod 10 =? 0))%Z then strip_zeros k (c / 10)%Z (q + 1)%Z
      else (c, q)
  end.

(** The candidates with [k] digits for the decimal form of the positive
    value [x = num / den]: the [k]-digit integers [c] next to
    [x / 10 ^ (n - k)] for which [c * 10 ^ (n - k)] reads back as [x];
    the one nearest to [x] is kept, the even one on a tie. *)
Definition digits_of_length (x : float) (num den n : Z) (k : Z)
  : option (Z * Z) :=
  let t := (k - n)%Z in
  let A := (if 0 <=? t then num * 10 ^ t else num)%Z in
  let B := (if 0 <=? t then den else den * 10 ^ (- t))%Z in
  let lo := (A / B)%Z in
  let r := (A - lo * B)%Z in
  let reads c := PrimFloat.eqb (decimal_to_float false c (n - k)) x in
  let pick c := Some (strip_zeros 30 c (n - k)) in
  match reads lo, reads (lo + 1)%Z with
  | true, true =>
      match (2 * r ?= B)%Z with
      | Lt => pick lo
      | Gt => pick (lo + 1)%Z
      | Eq => if Z.even lo then pick lo else pick (lo + 1)%Z
      end
  | true, false => pick lo
  | false, true => pick (lo + 1)%Z
  | false, false => None
  end.

Fixpoint shortest_from (fuel : nat) (x : float) (num den n k : Z) : Z * Z :=
  match fuel with
  | O => (num / den, 0)%Z
  | S f =>
      match digits_of_length x num den n k with
      | Some cq => cq
      | None => shortest_from f x num den n (k + 1)%Z
      end
  end.

(** The shortest digit string [c] and exponent [q] with [c * 10 ^ q]
    reading back as the positive finite [x = m * 2 ^ e]. *)
Definition shortest_digits (x : float) (m : positive) (e : Z) : Z * Z :=
  let '(num, den) := fraction m e in
  shortest_from 17 x num den (decimal_exponent num den) 1.

Definition format_digits (c q : Z) : string :=
  let ds := decimal c in
  let k := String.length ds in
  let n := (q + Z.of_nat k)%Z in
  if ((Z.of_nat k <=? n) && (n <=? 21))%Z then ds ++ zeros (Z.to_nat q)
  else if ((0 <? n) && (n <=? 21))%Z then
    take (Z.to_nat n) ds ++ "." ++ drop (Z.to_nat n) ds
  else if ((-6 <? n) && (n <=? 0))%Z then
    "0." ++ zeros (Z.to_nat (- n)) ++ ds
  else
    let e := (n - 1)%Z in
    let es := (if (e <? 0)%Z then "-" else "+") ++ decimal (Z.abs e) in
    match k with
    | 1%nat => ds ++ "e" ++ es
    | _ => take 1 ds ++ "." ++ drop 1 ds ++ "e" ++ es
    end.

(** [Number.prototype.toString] (radix 10). *)
Definition toString (x : float) : string :=
  match Prim2SF x with
  | S754_nan => "NaN"
  | S754_zero _ => "0"
  | S754_infinity s => if s then "-Infinity" else "Infinity"
  | S754_finite s m e =>
      let '(c, q) := shortest_digits (abs x) m e in
      (if s then "-" else "") ++ format_digits c q
  end.

(** [Number.prototype.toFixed] *)
Definition toFixed (fd : nat) (x : float) : string :=
  match Prim2SF x with
  | S754_nan => "NaN"
  | S754_infinity s => if s then "-Infinity" else "Infinity"
  | S754_zero _ => fixed_digits fd 0
  | S754_finite s m e =>
      if (1e21 <=? abs x)%float then toString x
      else (if s then "-" else "") ++ fixed_digits fd (round_scaled fd m e)
  end.

End JsNumber.

Import JsNumber.

(** ** Values

    Products, API items and JSON bodies are JSON-like values.  An object is
    the list of its own data properties in enumeration order; inherited
    properties (such as [toString] or [constructor]) are not part of the
    model. *)

#[local] Unset Elimination Schemes.
Inductive jsval :=
  | JUndef
  | JNull
  | JBool (b : bool)
  | JNum (x : float)
  | JStr (s : string)
  | JArr (items : list jsval)
  | JObj (fields : list (string * jsval)).
#[local] Set Elimination Schemes.

(** A computation that returns or throws an [Error] with a message. *)
Inductive completion (A : Type) :=
  | Normal (a : A)
  | Throw (message : string).
Arguments Normal {A} a.
Arguments Throw {A} message.

Definition bind {A B} (c : completion A) (k : A -> completion B)
  : completion B :=
  match c with
  | Normal a => k a
  | Throw m => Throw m
  end.

Notation "x <- c ;; k" := (bind c (fun x => k))
  (at level 61, c at next level, right associativity).

Module Js.

Definition nullish (v : jsval) : bool :=
  match v with
  | JUndef | JNull => true
  | _ => false
  end.

(** [ToBoolean] *)
Definition truthy (v : jsval) : bool :=
  match v with
  | JUndef | JNull => false
  | JBool b => b
  | JNum x => negb (PrimFloat.eqb x zero || is_nan x)
  | JStr s => negb (String.eqb s "")
  | JArr _ | JObj _ => true
  end.

(** [a || b] *)
Definition or_else (a b : jsval) : jsval := if truthy a then a else b.

(** [String(v)] *)
Fixpoint to_string (v : jsval) : string :=
  match v with
  | JUndef => "undefined"
  | JNull => "null"
  | JBool b => if b then "true" else "false"
  | JNum x => toString x
  | JStr s => s
  | JArr l =>
      join ","
        ((fix elems (l : list jsval) : list string :=
            match l with
            | [] => []
            | e :: r => (if nullish e then "" else to_string e) :: elems r
            end) l)
  | JObj _ => "[object Object]"
  end.

(** [ToNumber] *)
Definition to_number (v : jsval) : float :=
  match v with
  | JUndef => nan
  | JNull => zero
  | JBool b => if b then one else zero
  | JNum x => x
  | _ => Number (to_string v)
  end.

(** [parseFloat(v)] *)
Definition parse_float (v : jsval) : float := parseFloat (to_string v).

Fixpoint lookup (key : string) (fields : list (string * jsval))
  : option jsval :=
  match fields with
  | [] => None
  | (k, v) :: r => if String.eqb k key then Some v else lookup key r
  end.

(** The array index a property key denotes, if it is one. *)
Definition array_index (key : string) : option nat :=
  match scan_digits 0 0 key with
  | (n, S _, EmptyString) =>
      if String.eqb (decimal n) key then Some (Z.to_nat n) else None
  | _ => None
  end.

(** A length or an index as a number. *)
Definition of_nat (n : nat) : float :=
  of_uint63 (Uint63Axioms.of_Z (Z.of_nat n)).

Definition char_at (s : string) (i : nat) : jsval :=
  match String.get i s with
  | Some c => JStr (String c EmptyString)
  | None => JUndef
  end.

(** [v[key]] for a [v] that is neither [undefined] nor [null]. *)
Definition get (v : jsval) (key : string) : jsval :=
  match v with
  | JObj fs =>
      match lookup key fs with
      | Some x => x
      | None => JUndef
      end
  | JArr l =>
      if String.eqb key "length" then JNum (of_nat (List.length l))
      else match array_index key with
           | Some i => nth i l JUndef
           | None => JUndef
           end
  | JStr s =>
      if String.eqb key "length" then JNum (of_nat (String.length s))
      else match array_index key with
           | Some i => char_at s i
           | None => JUndef
           end
  | _ => JUndef
  end.

(** [v?.[key]] *)
Definition get_opt (v : jsval) (key : string) : jsval :=
  if nullish v then JUndef else get v key.

(** [v[key]], throwing on [undefined] and [null]. *)
Definition get_strict (v : jsval) (key : string) : completion jsval :=
  if nullish v
  then Throw ("Cannot read properties of " ++ to_string v)
  else Normal (get v key).

Fixpoint update (key : string) (x : jsval) (fields : list (string * jsval))
  : list (string * jsval) :=
  match fields with
  | [] => [(key, x)]
  | (k, v) :: r =>
      if String.eqb k key then (k, x) :: r else (k, v) :: update key x r
  end.

Fixpoint replace_nth (i : nat) (x : jsval) (l : list jsval) : list jsval :=
  match l, i with
  | [], _ => []
  | _ :: r, O => x :: r
  | v :: r, S k => v :: replace_nth k x r
  end.

(** [v[key] = x] in a strict-mode module: the updated [v].  Assigning to a
    primitive throws.  The route assigns to objects and to existing elements
    of arrays only; an assignment that would extend an array or give it a
    named property is outside the model and rendered as a throw. *)
Definition set (v : jsval) (key : string) (x : jsval) : completion jsval :=
  match v with
  | JObj fs => Normal (JObj (update key x fs))
  | JArr l =>
      match array_index key with
      | Some i =>
          if (i <? List.length l)%nat then Normal (JArr (replace_nth i x l))
          else Throw "assignment outside the modelled array"
      | None => Throw "assignment outside the modelled array"
      end
  | JUndef | JNull => Throw ("Cannot set properties of " ++ to_string v)
  | _ => Throw "Cannot create property on a primitive value"
  end.

Definition is_array (v : jsval) : bool :=
  match v with
  | JArr _ => true
  | _ => false
  end.

Definition str_eq (v : jsval) (s : string) : bool :=
  match v with
  | JStr t => String.eqb t s
  | _ => false
  end.

End Js.

Import Js.

(** ** Conditions and field resolution *)

(** A markup condition as the configuration step sends it.  [field] is
    empty and [attribute] is [None] when the property is absent;
    [markupValue] is a number, a string, or [JUndef] when absent. *)
Record Condition := {
  field : string;
  attribute : option string;
  operator : string;
  value : string;
  markupType : string;
  markupValue : jsval
}.

Record MarkupConfig := {
  conditions : list Condition;
  conditionsType : string
}.

(** [condition.field || condition.attribute] *)
Definition condition_field (c : Condition) : option string :=
  if String.eqb (field c) "" then attribute c else Some (field c).

(** The property key [product[field]] reads. *)
Definition field_key (f : option string) : string :=
  match f with
  | Some s => s
  | None => "undefined"
  end.

Definition field_is (f : option string) (names : list string) : bool :=
  match f with
  | Some s => existsb (String.eqb s) names
  | None => false
  end.

(** [field && field.includes('.')] *)
Definition field_has_dot (f : option string) : bool :=
  match f with
  | Some s => negb (String.eqb s "") && includes s "."
  | None => false
  end.

(** [product.variants && product.variants.length > 0 &&
    product.variants[0].key]: the property when the conjunction is truthy. *)
Definition first_variant_prop (product : jsval) (key : string)
  : completion (option jsval) :=
  let variants := get product "variants" in
  if truthy variants && PrimFloat.ltb zero (to_number (get variants "length"))
  then
    v <- get_strict (get variants "0") key ;;
    Normal (if truthy v then Some v else None)
  else Normal None.

(** The field resolution at the head of [checkCondition]. *)
Definition resolve_field (product : jsval) (f : option string)
  : completion jsval :=
  let pv := get product (field_key f) in
  let pv :=
    if field_has_dot f
    then fold_left get_opt (split (field_key f) ".") product
    else pv in
  pv <- (if field_is f ["price"; "Variant Price"] then
           vp <- first_variant_prop product "price" ;;
           Normal match vp with
                  | Some v => v
                  | None =>
                      if truthy (get product "price") then get product "price"
                      else pv
                  end
         else Normal pv) ;;
  let pv := if field_is f ["Title"; "title"] then get product "title" else pv in
  pv <- (if field_is f ["SKU"; "sku"] then
           vs <- first_variant_prop product "sku" ;;
           Normal match vs with
                  | Some v => v
                  | None =>
                      if truthy (get product "sku") then get product "sku"
                      else pv
                  end
         else Normal pv) ;;
  let pv :=
    if field_is f ["Tags"; "tags"; "tag"] then
      if is_array (get product "tags") then get product "tags"
      else if truthy (get product "tags") then get product "tags"
      else pv
    else pv in
  let pv :=
    if field_is f ["Vendor"; "vendor"] then get product "vendor" else pv in
  let pv :=
    if field_is f ["Type"; "type"] then get product "productType" else pv in
  Normal pv.

Definition op_is (op : string) (names : list string) : bool :=
  existsb (String.eqb op) names.

(** The [switch] over the operator for an array of tags. *)
Definition compare_tags (tags : list jsval) (op value : string) : bool :=
  let conditionValueStr := toLowerCase (trim value) in
  let some (p : string -> bool) :=
    existsb (fun tag => p (toLowerCase (to_string tag))) tags in
  if op_is op ["eq"; "equals"] then
    some (fun t => String.eqb t conditionValueStr)
  else if op_is op ["neq"; "not_equals"] then
    negb (some (fun t => String.eqb t conditionValueStr))
  else if op_is op ["starts"; "starts_with"] then
    some (fun t => startsWith t conditionValueStr)
  else if op_is op ["ends"; "ends_with"] then
    some (fun t => endsWith t conditionValueStr)
  else if op_is op ["contains"] then
    some (fun t => includes t conditionValueStr)
  else if op_is op ["ncontains"; "not_contains"] then
    negb (some (fun t => includes t conditionValueStr))
  else false.

(** [conditionValueStr.split('-').map(Number)] destructured into [min] and
    [max]; a missing part is [undefined], which [>=], [<=] and [=== 0]
    treat as they treat [NaN]. *)
Definition between_bounds (conditionValueStr : string) : float * float :=
  let parts := map Number (split conditionValueStr "-") in
  (nth 0 parts nan, nth 1 parts nan).

Definition between (productValueStr conditionValueStr : string) : bool :=
  let '(min, max) := between_bounds conditionValueStr in
  let numValue := parseFloat productValueStr in
  PrimFloat.leb min numValue
  && (PrimFloat.eqb max zero || PrimFloat.leb numValue max).

(** The [switch] over the operator for any other resolved value. *)
Definition compare_value (productValue : jsval) (op value : string) : bool :=
  let productValueStr := trim (to_string productValue) in
  let conditionValueStr := trim value in
  if op_is op ["eq"; "equals"] then
    String.eqb (toLowerCase productValueStr) (toLowerCase conditionValueStr)
  else if op_is op ["neq"; "not_equals"] then
    negb (String.eqb (toLowerCase productValueStr)
            (toLowerCase conditionValueStr))
  else if op_is op ["starts"; "starts_with"] then
    startsWith (toLowerCase productValueStr) (toLowerCase conditionValueStr)
  else if op_is op ["ends"; "ends_with"] then
    endsWith (toLowerCase productValueStr) (toLowerCase conditionValueStr)
  else if op_is op ["contains"] then
    includes (toLowerCase productValueStr) (toLowerCase conditionValueStr)
  else if op_is op ["ncontains"; "not_contains"] then
    negb (includes (toLowerCase productValueStr)
            (toLowerCase conditionValueStr))
  else if op_is op ["between"] then
    between productValueStr conditionValueStr
  else false.

(** The comparison of a resolved value, after field resolution. *)
Definition evaluate (f : option string) (productValue : jsval)
    (op value : string) : bool :=
  if nullish productValue then false
  else
    match productValue with
    | JArr tags =>
        if field_is f ["Tags"; "tags"; "tag"] then compare_tags tags op value
        else compare_value productValue op value
    | _ => compare_value productValue op value
    end.

Definition checkCondition (product : jsval) (condition : Condition)
  : completion bool :=
  _ <- get_strict product "title" ;;
  let f := condition_field condition in
  productValue <- resolve_field product f ;;
  Normal (evaluate f productValue (operator condition) (value condition)).

(** ** Tag cap *)

(** [limitTagsArray(tags, maxLength = 250)], on an array (for which [!tags]
    never holds). *)
Definition limitTagsArray (tags : list jsval) (maxLength : nat) : list jsval :=
  if (List.length tags <=? maxLength)%nat then tags
  else firstn maxLength tags.

(** ** Markup engine *)

(** [conditions.every(c => checkCondition(product, c))] *)
Fixpoint every (product : jsval) (cs : list Condition) : completion bool :=
  match cs with
  | [] => Normal true
  | c :: r =>
      b <- checkCondition product c ;;
      if b then every product r else Normal false
  end.

(** [conditions.some(c => checkCondition(product, c))] *)
Fixpoint some (product : jsval) (cs : list Condition) : completion bool :=
  match cs with
  | [] => Normal false
  | c :: r =>
      b <- checkCondition product c ;;
      if b then Normal true else some product r
  end.

(** [parseFloat(condition.markupValue || condition.value || '0')] *)
Definition condition_markup (c : Condition) : float :=
  parse_float (or_else (markupValue c) (or_else (JStr (value c)) (JStr "0"))).

(** [parseFloat(product.variants?.[0]?.price || '0')] *)
Definition current_price (product : jsval) : float :=
  parse_float
    (or_else (get_opt (get_opt (get product "variants") "0") "price")
       (JStr "0")).

Definition is_percent (markupType : string) : bool :=
  String.eqb markupType "percent" || String.eqb markupType "percentage".

(** The price a markup of the given type and value leads to; [None] where
    the loop takes its [continue]. *)
Definition marked_up (markupType : string) (markupValue currentPrice : float)
  : option float :=
  if is_percent markupType && PrimFloat.ltb zero markupValue then
    Some (currentPrice * (1 + markupValue / 100))%float
  else if String.eqb markupType "fixed" && PrimFloat.ltb zero markupValue then
    Some (currentPrice + markupValue)%float
  else None.

(** The assignments made when a markup is applied:
    [product.variants[0].price = newPrice.toFixed(2)] and the three markup
    properties.  The product is mutated in place; here it is rebuilt. *)
Definition write_markup (product : jsval) (markupType : string)
    (markupValue newPrice : float) : completion jsval :=
  let variants := get product "variants" in
  v0 <- get_strict variants "0" ;;
  v0 <- set v0 "price" (JStr (toFixed 2 newPrice)) ;;
  variants <- set variants "0" v0 ;;
  product <- set product "variants" variants ;;
  product <- set product "markupApplied" (JBool true) ;;
  product <- set product "markupType"
               (JStr (if is_percent markupType then "percentage" else "fixed")) ;;
  set product "markupValue" (JStr (toString markupValue)).

(** The [for ... of] loop over the conditions; [appliedMarkup] is false on
    entry to every iteration, since the only assignment to it is followed
    by [break]. *)
Fixpoint apply_first (product : jsval) (cs : list Condition)
  : completion jsval :=
  match cs with
  | [] => Normal product
  | c :: r =>
      conditionMatches <- checkCondition product c ;;
      if conditionMatches : bool then
        let markupValue := condition_markup c in
        let currentPrice := current_price product in
        match marked_up (markupType c) markupValue currentPrice with
        | None => apply_first product r
        | Some newPrice =>
            if negb (PrimFloat.eqb newPrice currentPrice)
            then write_markup product (markupType c) markupValue newPrice
            else apply_first product r
        end
      else apply_first product r
  end.

(** [conditionsMatch]: AND over the conditions for ["all"], OR otherwise. *)
Definition conditions_match (product : jsval) (markupConfig : MarkupConfig)
  : completion bool :=
  if String.eqb (conditionsType markupConfig) "all"
  then every product (conditions markupConfig)
  else some product (conditions markupConfig).

Definition applyMarkupRules (product : jsval) (markupConfig : MarkupConfig)
  : completion jsval :=
  _ <- get_strict product "title" ;;
  match conditions markupConfig with
  | [] => Normal product
  | _ :: _ =>
      conditionsMatch <- conditions_match product markupConfig ;;
      if conditionsMatch : bool
      then apply_first product (conditions markupConfig)
      else Normal product
  end.

(** ** Selection filter and source transformers *)

(** A CSV row: header name to cell text ([Record<string, string>]). *)
Definition Row := list (string * string).

Record CsvData := {
  headers : list string;
  rows : list Row
}.

(** [importFilters.selectedValues]; an absent list behaves as the empty one. *)
Record ImportFilters := {
  selectedValues : list string
}.

Fixpoint row_lookup (key : string) (row : Row) : option string :=
  match row with
  | [] => None
  | (k, v) :: r => if String.eqb k key then Some v else row_lookup key r
  end.

(** [row[key]] *)
Definition row_prop (row : Row) (key : string) : jsval :=
  match row_lookup key row with
  | Some v => JStr v
  | None => JUndef
  end.

(** [const [key, value] = token.split('::')] followed by the guard
    [if (!key || !value) continue]: the pair of a token that passes it. *)
Definition parse_token (token : string) : option (string * string) :=
  match split token "::" with
  | key :: value :: _ =>
      if String.eqb key "" || String.eqb value "" then None
      else Some (key, value)
  | _ => None
  end.

(** The three tests made on a record's value and a selector value: exact,
    partial and reverse partial match, all case-insensitive. *)
Definition value_matches (recordValue filterValue : string) : bool :=
  if String.eqb (toLowerCase recordValue) (toLowerCase filterValue) then true
  else if includes (toLowerCase recordValue) (toLowerCase filterValue) then true
  else if includes (toLowerCase filterValue) (toLowerCase recordValue) then true
  else false.

(** [Set.prototype.add] on a set kept in insertion order. *)
Definition set_add (i : nat) (s : list nat) : list nat :=
  if existsb (Nat.eqb i) s then s else (s ++ [i])%list.

(** [csvData.rows.forEach((row, index) => ...)] for one token. *)
Fixpoint scan_rows (key value : string) (rs : list Row) (index : nat)
    (selectedIndices : list nat) : list nat :=
  match rs with
  | [] => selectedIndices
  | row :: r =>
      let rowValue := trim (to_string (or_else (row_prop row key) (JStr ""))) in
      let filterValue := trim value in
      scan_rows key value r (S index)
        (if value_matches rowValue filterValue
         then set_add index selectedIndices else selectedIndices)
  end.

(** [for (const token of importFilters.selectedValues)] *)
Fixpoint select_indices (tokens : list string) (rs : list Row)
    (selectedIndices : list nat) : list nat :=
  match tokens with
  | [] => selectedIndices
  | token :: r =>
      select_indices r rs
        match parse_token token with
        | Some (key, value) => scan_rows key value rs 0 selectedIndices
        | None => selectedIndices
        end
  end.

(** The values of the tokens that pass the guard, in token order. *)
Fixpoint filter_tags (tokens : list string) : list string :=
  match tokens with
  | [] => []
  | token :: r =>
      match parse_token token with
      | Some (_, value) => value :: filter_tags r
      | None => filter_tags r
      end
  end.

Definition or3 (a b c : jsval) : jsval := or_else a (or_else b c).

(** The object built for one row by the [map] of [processCsvData]. *)
Definition csv_product (importFilters : ImportFilters) (row : Row)
    (index : nat) : jsval :=
  let number := decimal (Z.of_nat (index + 1)) in
  let tags :=
    if truthy (row_prop row "Tags")
    then map (fun tag => JStr (trim tag))
           (split (to_string (row_prop row "Tags")) ",")
    else [] in
  let tags :=
    match selectedValues importFilters with
    | [] => tags
    | tokens =>
        match filter_tags tokens with
        | [] => tags
        | filterTags => (tags ++ map JStr filterTags)%list
        end
    end in
  JObj
    [("title", or3 (row_prop row "Title") (row_prop row "title")
                 (JStr ("Product " ++ number)));
     ("descriptionHtml", or3 (row_prop row "Description")
                           (row_prop row "description") (JStr ""));
     ("vendor", or3 (row_prop row "Vendor") (row_prop row "vendor")
                  (JStr "Default Vendor"));
     ("productType", or3 (row_prop row "Type") (row_prop row "type")
                       (JStr "Default Type"));
     ("tags", JArr tags);
     ("status", JStr "DRAFT");
     ("variants",
      JArr
        [JObj
           [("price", or3 (row_prop row "Variant Price") (row_prop row "price")
                        (JStr "10.00"));
            ("compareAtPrice", or3 (row_prop row "Variant Compare At Price")
                                 (row_prop row "compareAtPrice") (JStr ""));
            ("sku", or3 (row_prop row "SKU") (row_prop row "sku")
                      (JStr ("SKU-" ++ number)));
            ("barcode", or3 (row_prop row "Variant Barcode")
                          (row_prop row "barcode") (JStr ""));
            ("inventoryQuantity", or3 (row_prop row "Variant Inventory Quantity")
                                    (row_prop row "inventoryQuantity")
                                    (JNum zero));
            ("image_url", or3 (row_prop row "Image URL")
                            (row_prop row "image_url") (JStr ""))]])].

Fixpoint map_indexed {A B} (f : A -> nat -> B) (l : list A) (index : nat)
  : list B :=
  match l with
  | [] => []
  | a :: r => f a index :: map_indexed f r (S index)
  end.

(** The rows kept by [processCsvData]: all of them without selector
    tokens, else [Array.from(selectedIndices).map(i => rows[i])]. *)
Definition filtered_rows (csvData : CsvData) (importFilters : ImportFilters)
  : list Row :=
  match selectedValues importFilters with
  | [] => rows csvData
  | tokens =>
      map (fun index => nth index (rows csvData) [])
        (select_indices tokens (rows csvData) [])
  end.

Definition processCsvData (csvData : CsvData) (importFilters : ImportFilters)
  : list jsval :=
  map_indexed (csv_product importFilters)
    (filtered_rows csvData importFilters) 0.

(** What [fetch] and [res.json()] came to: an error thrown by either (or by
    the token normalisation before them), or a status and a parsed body. *)
Inductive FetchResult :=
  | FetchThrows
  | FetchDone (ok : bool) (body : jsval).

(** The first property of the body that holds a non-empty array. *)
Fixpoint first_array (fields : list (string * jsval)) : list jsval :=
  match fields with
  | [] => []
  | (_, JArr (x :: l)) :: _ => x :: l
  | _ :: r => first_array r
  end.

Definition extract_items (body : jsval) : list jsval :=
  match body with
  | JArr l => l
  | JObj fs => first_array fs
  | _ => []
  end.

(** The predicate of [items.filter]: some token that passes the guard
    matches the item. *)
Fixpoint item_selected (tokens : list string) (item : jsval) : bool :=
  match tokens with
  | [] => false
  | token :: r =>
      match parse_token token with
      | Some (key, value) =>
          let itemValue := trim (to_string (or_else (get item key) (JStr ""))) in
          let filterValue := trim value in
          if value_matches itemValue filterValue then true
          else item_selected r item
      | None => item_selected r item
      end
  end.

(** [for (const [sourceKey, targetKey] of Object.entries(keyMappings))] *)
Fixpoint apply_mappings (keyMappings : list (string * string)) (item : jsval)
    (product : list (string * jsval)) : list (string * jsval) :=
  match keyMappings with
  | [] => product
  | (sourceKey, targetKey) :: r =>
      apply_mappings r item
        match get item sourceKey with
        | JUndef => product
        | v => update targetKey v product
        end
  end.

Definition or4 (a b c d : jsval) : jsval := or_else a (or3 b c d).

(** The tags of an API product after the default and the test tag. *)
Definition ensure_tags (tags : list jsval) : list jsval :=
  match tags with
  | [] => [JStr "default"; JStr "Sandeep"]
  | _ =>
      if existsb (fun t => str_eq t "Sandeep") tags then tags
      else (tags ++ [JStr "Sandeep"])%list
  end.

(** The object built for one item by the [map] of [fetchApiData]. *)
Definition api_product (importFilters : ImportFilters)
    (keyMappings : list (string * string)) (item : jsval) : jsval :=
  let product := JObj (apply_mappings keyMappings item []) in
  let tags := if truthy (get product "tags") then [get product "tags"] else [] in
  let tags :=
    match selectedValues importFilters with
    | [] => tags
    | tokens =>
        match filter_tags tokens with
        | [] => tags
        | filterTags => (tags ++ map JStr filterTags)%list
        end
    end in
  let tags := limitTagsArray (ensure_tags tags) 250 in
  JObj
    [("title", or4 (get product "title") (get item "name") (get item "title")
                 (JStr "Imported Product"));
     ("descriptionHtml", or4 (get product "bodyHtml")
                           (get product "descriptionHtml")
                           (get item "description") (JStr ""));
     ("vendor", or3 (get product "vendor") (get item "vendor") (JStr ""));
     ("productType", or3 (get product "productType") (get item "type")
                       (JStr ""));
     ("tags", JArr tags);
     ("status", JStr "DRAFT");
     ("variants",
      JArr
        [JObj
           [("price", or3 (get product "price") (get item "price")
                        (JStr "0.00"));
            ("compareAtPrice", or3 (get product "compareAtPrice")
                                 (get item "compareAtPrice") (JStr ""));
            ("sku", or3 (get product "sku") (get item "sku") (JStr ""));
            ("barcode", or3 (get product "barcode") (get item "barcode")
                          (JStr ""));
            ("image_url", or_else (get product "image_url")
                            (or4 (get item "image_url") (get item "image")
                               (get item "mediaSrc") (JStr "")))]])].

(** [fetchApiData], from the outcome of the request on.  Reading [item.name]
    of a [null] item throws inside the [try], which returns [[]]. *)
Definition fetchApiData (response : FetchResult)
    (importFilters : ImportFilters) (keyMappings : list (string * string))
  : list jsval :=
  match response with
  | FetchThrows => []
  | FetchDone false _ => []
  | FetchDone true body =>
      let items := extract_items body in
      if existsb nullish items then []
      else
        let filteredItems :=
          match selectedValues importFilters with
          | [] => items
          | tokens => filter (item_selected tokens) items
          end in
        map (api_product importFilters keyMappings) filteredItems
  end.

(** ** Record store *)

Record ImportSession := {
  id : string;
  status : string;
  totalProducts : nat;
  importedProducts : nat;
  failedProducts : nat;
  completedAt : option Z
}.

(** An [importedProduct] row; of its columns, those the route reads back. *)
Record ImportedProduct := {
  shop : string;
  importSessionId : string;
  shopifyProductId : string;
  title : string;
  sku : string
}.

(** Both tables, rows in creation order. *)
Record Db := {
  sessions : list ImportSession;
  importedProduct : list ImportedProduct
}.

(** The [data] of an [importSession.update]: the columns it sets. *)
Record SessionData := {
  setStatus : string;
  setImported : nat;
  setFailed : nat;
  setTotal : option nat;
  setCompletedAt : option Z
}.

Definition apply_data (d : SessionData) (s : ImportSession) : ImportSession :=
  {| id := id s;
     status := setStatus d;
     totalProducts :=
       match setTotal d with
       | Some t => t
       | None => totalProducts s
       end;
     importedProducts := setImported d;
     failedProducts := setFailed d;
     completedAt :=
       match setCompletedAt d with
       | Some t => Some t
       | None => completedAt s
       end |}.

(** [importSession.findUnique({ where: { id } })] *)
Definition findSession (sessionId : string) (db : Db) : option ImportSession :=
  find (fun s => String.eqb (id s) sessionId) (sessions db).

Definition updateSession (sessionId : string) (d : SessionData) (db : Db)
  : Db :=
  {| sessions :=
       map (fun s => if String.eqb (id s) sessionId then apply_data d s else s)
         (sessions db);
     importedProduct := importedProduct db |}.


(** ** Progress query *)




(** ** Import orchestrator *)

(** One entry of the [results] array. *)
Record ResultEntry := {
  success : bool;
  product : jsval;
  error : option string
}.

(** The variables the batch loop mutates, the store, and (for the
    statements below) the successive persisted contents of the session row,
    oldest first. *)
Record LoopState := {
  importedCount : nat;
  failedCount : nat;
  results : list ResultEntry;
  db : Db;
  history : list SessionData
}.

(** Statements of the loop body: they return or throw, and what they did to
    the state before throwing stays done. *)
Definition Loop (A : Type) : Type := LoopState -> completion A * LoopState.

Definition ret {A} (a : A) : Loop A := fun st => (Normal a, st).

Definition throw {A} (message : string) : Loop A :=
  fun st => (Throw message, st).

Definition seq {A B} (c : Loop A) (k : A -> Loop B) : Loop B :=
  fun st =>
    match c st with
    | (Normal a, st') => k a st'
    | (Throw m, st') => (Throw m, st')
    end.

Notation "x <~ c ;; k" := (seq c (fun x => k))
  (at level 61, c at next level, right associativity).
Notation "c ;;; k" := (seq c (fun _ => k))
  (at level 61, right associativity).

(** [try { body } catch (err) { handler }] *)
Definition try_catch {A} (body : Loop A) (handler : string -> Loop A)
  : Loop A :=
  fun st =>
    match body st with
    | (Normal a, st') => (Normal a, st')
    | (Throw m, st') => handler m st'
    end.

Definition lift {A} (c : completion A) : Loop A := fun st => (c, st).

Definition modify (f : LoopState -> LoopState) : Loop unit :=
  fun st => (Normal tt, f st).

Definition read {A} (f : LoopState -> A) : Loop A :=
  fun st => (Normal (f st), st).

Definition incrImported : Loop unit :=
  modify (fun st =>
    {| importedCount := S (importedCount st); failedCount := failedCount st;
       results := results st; db := db st; history := history st |}).

Definition incrFailed : Loop unit :=
  modify (fun st =>
    {| importedCount := importedCount st; failedCount := S (failedCount st);
       results := results st; db := db st; history := history st |}).

(** [results.push(entry)] *)
Definition pushResult (entry : ResultEntry) : Loop unit :=
  modify (fun st =>
    {| importedCount := importedCount st; failedCount := failedCount st;
       results := (results st ++ [entry])%list; db := db st;
       history := history st |}).

(** What the collaborators do for one product, call by call:
    - [headUpdate], [progressUpdate], [failureUpdate]: the session update at
      the loop head, after a success, and in the per-item [catch];
    - [existingProduct]: the [shopifyProductId] of the record
      [checkProductInDatabase] finds, when it finds one that has it (the
      function turns its own errors into [null]);
    - [updateProduct]: [updateShopifyProduct], the id of the updated product;
    - [createProduct]: the [productCreate] call, [Some] product when the
      answer carries one;
    - [createMedia], [createVariants]: the two follow-up calls;
    - [saveRecord]: [importedProduct.create].
    [publishProductToSalesChannels] catches its own errors and changes
    nothing here. *)
Record ItemWorld := {
  headUpdate : completion unit;
  existingProduct : option string;
  updateProduct : completion string;
  createProduct : completion (option jsval);
  createMedia : completion unit;
  createVariants : completion unit;
  progressUpdate : completion unit;
  saveRecord : completion unit;
  failureUpdate : completion unit
}.

(** [await prisma.importSession.update({ where: { id }, data })] with the
    current counters. *)
Definition sessionUpdate (outcome : completion unit) (sessionId : string)
    (newStatus : string) (total : option nat) (completed : option Z)
  : Loop unit :=
  fun st =>
    match outcome with
    | Throw m => (Throw m, st)
    | Normal _ =>
        let d := {| setStatus := newStatus;
                    setImported := importedCount st;
                    setFailed := failedCount st;
                    setTotal := total;
                    setCompletedAt := completed |} in
        (Normal tt,
         {| importedCount := importedCount st; failedCount := failedCount st;
            results := results st;
            db := updateSession sessionId d (db st);
            history := (history st ++ [d])%list |})
    end.

(** [await prisma.importedProduct.create({ data })] *)
Definition createRecord (outcome : completion unit) (r : ImportedProduct)
  : Loop unit :=
  fun st =>
    match outcome with
    | Throw m => (Throw m, st)
    | Normal _ =>
        (Normal tt,
         {| importedCount := importedCount st; failedCount := failedCount st;
            results := results st;
            db := {| sessions := sessions (db st);
                     importedProduct :=
                       (importedProduct (db st) ++ [r])%list |};
            history := history st |})
    end.

(** The image URLs gathered from the variants before the lookup. *)
Fixpoint variant_images (variants : list jsval) : completion (list string) :=
  match variants with
  | [] => Normal []
  | variant :: r =>
      imageUrl <- get_strict variant "image_url" ;;
      rest <- variant_images r ;;
      Normal match imageUrl with
             | JStr s =>
                 if String.eqb s "" || String.eqb (trim s) "" then rest
                 else trim s :: rest
             | _ => rest
             end
  end.

(** [processedProduct.variants && processedProduct.variants.length > 0] *)
Definition has_variants (product : jsval) : bool :=
  truthy (get product "variants")
  && PrimFloat.ltb zero (to_number (get (get product "variants") "length")).

Definition collect_images (product : jsval) : completion (list string) :=
  if has_variants product then
    match get product "variants" with
    | JArr variants => variant_images variants
    | JStr _ => Normal []
    | _ => Throw "processedProduct.variants is not iterable"
    end
  else Normal [].

(** [processedProduct.variants.map(variant => ...)] building the variant
    inputs: what can throw in it. *)
Fixpoint variant_inputs (variants : list jsval) : completion unit :=
  match variants with
  | [] => Normal tt
  | variant :: r =>
      _ <- get_strict variant "sku" ;;
      variant_inputs r
  end.

Definition build_variant_inputs (product : jsval) : completion unit :=
  match get product "variants" with
  | JArr variants => variant_inputs variants
  | _ => Throw "processedProduct.variants.map is not a function"
  end.

Definition record_of (shopName sessionId productId : string)
    (processedProduct : jsval) : ImportedProduct :=
  {| shop := shopName;
     importSessionId := sessionId;
     shopifyProductId := productId;
     title := to_string (or_else (get processedProduct "title") (JStr ""));
     sku := to_string
              (or_else
                 (get_opt (get_opt (get processedProduct "variants") "0") "sku")
                 (JStr "")) |}.

(** The bookkeeping shared by the create and the update path once the
    catalog call has succeeded. *)
Definition recordSuccess (w : ItemWorld) (shopName sessionId productId : string)
    (processedProduct : jsval) (entry : ResultEntry) : Loop unit :=
  incrImported ;;;
  try_catch (sessionUpdate (progressUpdate w) sessionId "processing" None None)
    (fun _ => ret tt) ;;;
  try_catch (createRecord (saveRecord w)
               (record_of shopName sessionId productId processedProduct))
    (fun _ => ret tt) ;;;
  pushResult entry.

(** The body of the per-item [try]. *)
Definition tryItem (w : ItemWorld) (markupConfig : MarkupConfig)
    (importConfig shopName sessionId : string) (productData : jsval)
  : Loop unit :=
  processedProduct <~ lift (applyMarkupRules productData markupConfig) ;;
  processedProduct <~
    lift (set processedProduct "status"
            (JStr (if String.eqb importConfig "published"
                   then "ACTIVE" else "DRAFT"))) ;;
  productImages <~ lift (collect_images processedProduct) ;;
  updated <~
    match existingProduct w with
    | Some existingId =>
        try_catch
          (productId <~ lift (updateProduct w) ;; ret (Some productId))
          (fun _ => ret None)
    | None => ret None
    end ;;
  match updated with
  | None =>
      created <~ lift (createProduct w) ;;
      match created with
      | Some createdProduct =>
          match productImages with
          | [] => ret tt
          | _ => lift (createMedia w)
          end ;;;
          (if has_variants processedProduct then
             lift (build_variant_inputs processedProduct) ;;;
             lift (createVariants w)
           else ret tt) ;;;
          recordSuccess w shopName sessionId
            (to_string (get createdProduct "id")) processedProduct
            {| success := true; product := createdProduct; error := None |}
      | None =>
          incrFailed ;;;
          pushResult {| success := false;
                        product := get processedProduct "title";
                        error := Some "Product creation failed" |}
      end
  | Some productId =>
      recordSuccess w shopName sessionId productId processedProduct
        {| success := true;
           product := JObj [("id", JStr productId);
                            ("title", get processedProduct "title")];
           error := None |}
  end.

(** The per-item [catch (err)]. *)
Definition catchItem (w : ItemWorld) (sessionId : string) (productData : jsval)
    (message : string) : Loop unit :=
  incrFailed ;;;
  sessionUpdate (failureUpdate w) sessionId "processing" None None ;;;
  productTitle <~ lift (get_strict productData "title") ;;
  pushResult {| success := false;
                product := productTitle;
                error := Some (if String.eqb message "" then "Unknown error"
                               else message) |}.

(** One iteration of the batch loop.  A throw that leaves it ends the
    whole import. *)
Definition processItem (w : ItemWorld) (markupConfig : MarkupConfig)
    (importConfig shopName sessionId : string) (total : nat)
    (productData : jsval) : Loop unit :=
  lift (get_strict productData "title") ;;;
  sessionUpdate (headUpdate w) sessionId "processing" (Some total) None ;;;
  try_catch
    (tryItem w markupConfig importConfig shopName sessionId productData)
    (catchItem w sessionId productData).

(** [for (let i = 0; i < productsToProcess.length; i++)], from index [i]. *)
Fixpoint batchLoop (world : nat -> ItemWorld) (markupConfig : MarkupConfig)
    (importConfig shopName sessionId : string) (total : nat)
    (productsToProcess : list jsval) (i : nat) : Loop unit :=
  match productsToProcess with
  | [] => ret tt
  | productData :: r =>
      processItem (world i) markupConfig importConfig shopName sessionId total
        productData ;;;
      batchLoop world markupConfig importConfig shopName sessionId total r
        (S i)
  end.

(** The parsed request payload. *)
Module Payload.
Record t := {
  dataSource : string;
  csvData : option CsvData;
  apiCredentials : bool;
  keyMappings : list (string * string);
  importFilters : ImportFilters;
  markupConfig : MarkupConfig;
  importConfig : string;
  totalProducts : nat
}.
End Payload.

(** What the collaborators do during one import: the id of the session row
    created (or the error thrown), the answer of the source API, the
    per-product behaviour, and the final session write and its time. *)
Record World := {
  createSession : completion string;
  fetched : FetchResult;
  item : nat -> ItemWorld;
  finalUpdate : completion unit;
  now : Z
}.

Definition configuredStatus (importConfig : string) : jsval :=
  JStr (if String.eqb importConfig "published" then "ACTIVE" else "DRAFT").

Definition fallbackProduct (importConfig : string) : jsval :=
  JObj [("title", JStr "Imported Product");
        ("status", configuredStatus importConfig);
        ("price", JStr "10.00")].

Definition demoProduct (importConfig : string) : jsval :=
  JObj [("title", JStr "Demo Product - Test Import");
        ("descriptionHtml",
         JStr "<p>This is a demo product created for testing the import process.</p>");
        ("vendor", JStr "Demo Vendor");
        ("productType", JStr "Test");
        ("tags", JArr [JStr "demo"; JStr "test"]);
        ("status", configuredStatus importConfig);
        ("variants",
         JArr [JObj [("price", JStr "10.00");
                     ("compareAtPrice", JStr "12.00");
                     ("sku", JStr "DEMO-001");
                     ("barcode", JStr "123456789")]])].

(** [productsToProcess] as the loop receives it. *)
Definition resolveProducts (world : World) (payload : Payload.t)
  : list jsval :=
  let found :=
    match Payload.csvData payload with
    | Some csv =>
        if String.eqb (Payload.dataSource payload) "csv"
        then processCsvData csv (Payload.importFilters payload)
        else if String.eqb (Payload.dataSource payload) "api"
                && Payload.apiCredentials payload
        then fetchApiData (fetched world) (Payload.importFilters payload)
               (Payload.keyMappings payload)
        else [fallbackProduct (Payload.importConfig payload)]
    | None =>
        if String.eqb (Payload.dataSource payload) "api"
           && Payload.apiCredentials payload
        then fetchApiData (fetched world) (Payload.importFilters payload)
               (Payload.keyMappings payload)
        else [fallbackProduct (Payload.importConfig payload)]
    end in
  match found with
  | [] => [demoProduct (Payload.importConfig payload)]
  | _ => found
  end.

Inductive ActionResponse :=
  | ImportSummary (sessionId : string) (imported failed total : nat)
      (results : list ResultEntry)
  | ImportFailure (message : string).

(** Modelled from the spec: the [ImportSession] schema is not among the
    sources; a session is created with [status = running] and both counters
    at 0. *)
Definition newSession (sessionId : string) (total : nat) : ImportSession :=
  {| id := sessionId;
     status := "running";
     totalProducts := total;
     importedProducts := 0;
     failedProducts := 0;
     completedAt := None |}.

Definition initialState (store : Db) : LoopState :=
  {| importedCount := 0; failedCount := 0; results := []; db := store;
     history := [] |}.

(** The loop followed by the final session update. *)
Definition runImport (world : World) (payload : Payload.t)
    (shopName sessionId : string) (productsToProcess : list jsval)
  : Loop unit :=
  batchLoop (item world) (Payload.markupConfig payload)
    (Payload.importConfig payload) shopName sessionId
    (List.length productsToProcess) productsToProcess 0 ;;;
  sessionUpdate (finalUpdate world) sessionId "completed" None
    (Some (now world)).

(** The [bulkCreateProducts] case of the action, for an authenticated shop
    and a payload that parsed. *)
Definition bulkCreateProducts (world : World) (shopName : string)
    (payload : Payload.t) (store : Db) : ActionResponse * LoopState :=
  match createSession world with
  | Throw m => (ImportFailure m, initialState store)
  | Normal sessionId =>
      let store :=
        {| sessions :=
             (sessions store
              ++ [newSession sessionId (Payload.totalProducts payload)])%list;
           importedProduct := importedProduct store |} in
      let productsToProcess := resolveProducts world payload in
      match runImport world payload shopName sessionId productsToProcess
              (initialState store) with
      | (Normal _, st) =>
          (ImportSummary sessionId (importedCount st) (failedCount st)
             (List.length productsToProcess) (results st), st)
      | (Throw m, st) => (ImportFailure m, st)
      end
  end.

(** ** Update of an existing product *)

(** The characters kept by [cleaned.replace(/[^0-9.\-]/g, '')]. *)
Definition money_char (c : ascii) : bool :=
  is_digit c || Ascii.eqb c "." || Ascii.eqb c "-".

Fixpoint keep (p : ascii -> bool) (s : string) : string :=
  match s with
  | EmptyString => EmptyString
  | String c r => if p c then String c (keep p r) else keep p r
  end.

(** [toMoneyString] of [updateShopifyProduct]: [None] is [undefined]. *)
Definition toMoneyString (val : jsval) : option string :=
  if nullish val then None
  else
    let cleaned := trim (to_string val) in
    if String.eqb cleaned "" then None
    else
      let num := parseFloat (keep money_char cleaned) in
      if is_nan num then None else Some (toFixed 2 num).

(** The [productInput] of the [productUpdate] mutation, for a [productData]
    that is neither [undefined] nor [null]. *)
Definition productInput (productId : string) (productData : jsval) : jsval :=
  JObj
    [("id", JStr productId);
     ("title", or_else (get productData "title")
                 (or4 (get productData "name") (get productData "product_name")
                    (get productData "productName") (JStr "Unknown Product")));
     ("descriptionHtml", or_else (get productData "descriptionHtml")
                           (or4 (get productData "description")
                              (get productData "description_html")
                              (get productData "productDescription") (JStr "")));
     ("vendor", or4 (get productData "vendor") (get productData "brand")
                  (get productData "manufacturer") (JStr ""));
     ("productType", or4 (get productData "productType")
                       (get productData "product_type")
                       (get productData "category") (JStr ""));
     ("tags", or3 (get productData "tags") (get productData "categories")
                (JArr []));
     ("status", or_else (get productData "status") (JStr "ACTIVE"))].

(** The [variantInput] of the [productVariantsBulkUpdate] mutation for the
    first existing variant. *)
Definition variantInput (existingVariantId : jsval) (productData : jsval)
  : jsval :=
  let variantInput := [("id", existingVariantId)] in
  let variantInput :=
    match toMoneyString (get productData "price") with
    | Some priceStr => update "price" (JStr priceStr) variantInput
    | None => variantInput
    end in
  let variantInput :=
    if truthy (get productData "supplier_sku_code")
    then update "inventoryItem"
           (JObj [("sku",
                   JStr (to_string (get productData "supplier_sku_code")))])
           variantInput
    else variantInput in
  let variantInput :=
    if truthy (get productData "barcode")
    then update "barcode" (JStr (to_string (get productData "barcode")))
           variantInput
    else variantInput in
  JObj variantInput.

(** ** Lookup of an imported product *)

(** [where: { shop, sku }] and [where: { shop, title }] *)
Definition by_sku (shopName skuCode : string) (r : ImportedProduct) : bool :=
  String.eqb (shop r) shopName && String.eqb (sku r) skuCode.

Definition by_title (shopName productTitle : string) (r : ImportedProduct)
  : bool :=
  String.eqb (shop r) shopName && String.eqb (title r) productTitle.

(** [checkProductInDatabase(shop, sku, title)]; [findFirst where] is what
    [prisma.importedProduct.findFirst({ where })] comes to, a row, [null] or
    an error thrown.  [None] is [null]. *)
Definition checkProductInDatabase
    (findFirst : (ImportedProduct -> bool) -> completion (option ImportedProduct))
    (shopName skuCode productTitle : string) : option ImportedProduct :=
  let attempt :=
    productBySku <-
      (if negb (String.eqb skuCode "") then findFirst (by_sku shopName skuCode)
       else Normal None) ;;
    match productBySku with
    | Some r => Normal (Some r)
    | None =>
        productByTitle <-
          (if negb (String.eqb productTitle "")
           then findFirst (by_title shopName productTitle)
           else Normal None) ;;
        Normal productByTitle
    end in
  match attempt with
  | Normal found => found
  | Throw _ => None
  end.

(** * Properties *)

(** ** Tags of the produced products *)

(** [product.tags], when it is an array. *)
Definition tags_of (product : jsval) : list jsval :=
  match get product "tags" with
  | JArr tags => tags
  | _ => []
  end.

Definition has_tag (name : string) (tags : list jsval) : bool :=
  existsb (fun t => str_eq t name) tags.

(** The tags of an API product before the default and the test tag are
    added: the mapped [tags] value and the selector values. *)
Definition api_source_tags (importFilters : ImportFilters)
    (keyMappings : list (string * string)) (item : jsval) : list jsval :=
  let product := JObj (apply_mappings keyMappings item []) in
  let tags := if truthy (get product "tags") then [get product "tags"] else [] in
  match selectedValues importFilters with
  | [] => tags
  | tokens =>
      match filter_tags tokens with
      | [] => tags
      | filterTags => (tags ++ map JStr filterTags)%list
      end
  end.

Lemma limitTagsArray_firstn tags n :
  limitTagsArray tags n = firstn n tags.
Proof.
  unfold limitTagsArray.
  destruct (Nat.leb_spec (List.length tags) n) as [H | H]; [ | reflexivity].
  symmetry. now apply firstn_all2.
Qed.

Lemma limitTagsArray_length tags n :
  (List.length (limitTagsArray tags n) <= n)%nat.
Proof.
  rewrite limitTagsArray_firstn. apply firstn_le_length.
Qed.

Lemma api_product_tags importFilters keyMappings item :
  tags_of (api_product importFilters keyMappings item)
  = limitTagsArray
      (ensure_tags (api_source_tags importFilters keyMappings item)) 250.
Proof. reflexivity. Qed.

Lemma ensure_tags_nonempty tags : ensure_tags tags <> [].
Proof.
  unfold ensure_tags. destruct tags as [ | t r]; [discriminate | ].
  destruct (existsb _ (t :: r)); [discriminate | ].
  destruct r; discriminate.
Qed.

Lemma has_tag_app name l1 l2 :
  has_tag name (l1 ++ l2)%list = has_tag name l1 || has_tag name l2.
Proof. apply existsb_app. Qed.

Lemma ensure_tags_has_Sandeep tags : has_tag "Sandeep" (ensure_tags tags) = true.
Proof.
  unfold ensure_tags. destruct tags as [ | t r]; [reflexivity | ].
  destruct (existsb _ (t :: r)) eqn:E; [exact E | ].
  rewrite has_tag_app. apply orb_true_r.
Qed.

Lemma ensure_tags_length tags :
  (List.length (ensure_tags tags) <= Nat.max 2 (S (List.length tags)))%nat.
Proof.
  unfold ensure_tags. destruct tags as [ | t r]; [simpl; lia | ].
  destruct (existsb _ (t :: r)); [lia | ].
  rewrite length_app. simpl. lia.
Qed.

(** Every product of the API source carries at most 250 tags, the first
    250 of those it was given. *)
Lemma api_tags_capped response importFilters keyMappings product :
  In product (fetchApiData response importFilters keyMappings) ->
  exists item,
    product = api_product importFilters keyMappings item
    /\ tags_of product
       = firstn 250
           (ensure_tags (api_source_tags importFilters keyMappings item))
    /\ (List.length (tags_of product) <= 250)%nat.
Proof.
  unfold fetchApiData. intros H.
  destruct response as [ | [ | ] body]; try contradiction.
  destruct (existsb nullish (extract_items body)); [contradiction | ].
  apply in_map_iff in H. destruct H as (item & <- & _).
  exists item. rewrite api_product_tags, limitTagsArray_firstn.
  repeat split. apply firstn_le_length.
Qed.

(** Selector tokens [key::v0], [key::v1], ... *)
Definition numbered_tokens (key : string) (n : nat) : list string :=
  map (fun i => key ++ "::v" ++ decimal (Z.of_nat i)) (List.seq 0 n).

Definition one_row_csv : CsvData :=
  {| headers := ["Title"; "color"];
     rows := [[("Title", "Shirt"); ("color", "v0")]] |}.

(** C6, at the failing input: a CSV row selected with 300 valid selector
    tokens becomes a product with 300 tags, since [processCsvData] never
    calls [limitTagsArray]; the claimed cap would leave 250. *)
Theorem csv_tags_not_capped :
  map (fun p => List.length (tags_of p))
    (processCsvData one_row_csv
       {| selectedValues := numbered_tokens "color" 300 |})
  = [300%nat].
Proof. vm_compute. reflexivity. Qed.

(** ** The test tag of the API source *)

Definition lamp_body : jsval :=
  JArr [JObj [("name", JStr "Lamp"); ("color", JStr "v7")]].

(** C10, counterexample: with 250 valid selector tokens the product's tags
    are the 250 selector values; ["Sandeep"] is pushed as the 251st tag and
    cut off by [limitTagsArray]. *)
Lemma api_product_without_Sandeep :
  map (fun p => (List.length (tags_of p), has_tag "Sandeep" (tags_of p)))
    (fetchApiData (FetchDone true lamp_body)
       {| selectedValues := numbered_tokens "color" 250 |} [])
  = [(250%nat, false)].
Proof. vm_compute. reflexivity. Qed.

Lemma firstn_nonempty {A} n (l : list A) :
  (0 < n)%nat -> l <> [] -> firstn n l <> [].
Proof.
  destruct n; [lia | ]. destruct l; [congruence | discriminate].
Qed.

(** What holds of the tags of an API product: they are a non-empty array of
    at most 250 entries, the first 250 of [["default", "Sandeep"]] when the
    product had no tags, else of its tags with ["Sandeep"] appended unless
    already present. *)
Definition api_tags_spec (importFilters : ImportFilters)
    (keyMappings : list (string * string)) (product : jsval) : Prop :=
  exists item,
    let source := api_source_tags importFilters keyMappings item in
    product = api_product importFilters keyMappings item
    /\ get product "tags" = JArr (tags_of product)
    /\ tags_of product <> []
    /\ (List.length (tags_of product) <= 250)%nat
    /\ (source = [] -> tags_of product = [JStr "default"; JStr "Sandeep"])
    /\ (source <> [] -> has_tag "Sandeep" source = true ->
        tags_of product = firstn 250 source)
    /\ (source <> [] -> has_tag "Sandeep" source = false ->
        tags_of product = firstn 250 (source ++ [JStr "Sandeep"]))
    /\ ((List.length source < 250)%nat ->
        has_tag "Sandeep" (tags_of product) = true).

(** C10, amended: every product returned by [fetchApiData] has a non-empty
    tags array of at most 250 entries: products with no tags receive
    ["default", "Sandeep"], products with tags have ["Sandeep"] appended
    when it is not already present, and the first 250 entries are kept; a
    product with fewer than 250 tags therefore carries ["Sandeep"]. *)
Theorem api_tags_default_and_Sandeep
    response importFilters keyMappings product :
  In product (fetchApiData response importFilters keyMappings) ->
  api_tags_spec importFilters keyMappings product.
Proof.
  intros H. destruct (api_tags_capped _ _ _ _ H) as (item & -> & Ht & Hl).
  exists item. cbv zeta.
  split; [reflexivity | ].
  split; [reflexivity | ].
  rewrite Ht.
  split; [apply firstn_nonempty; [lia | apply ensure_tags_nonempty] | ].
  split; [apply firstn_le_length | ].
  split; [intros ->; reflexivity | ].
  split.
  { intros Hne Hs. unfold ensure_tags.
    destruct (api_source_tags importFilters keyMappings item) as [ | t r];
      [congruence | ].
    unfold has_tag in Hs. now rewrite Hs. }
  split.
  { intros Hne Hs. unfold ensure_tags.
    destruct (api_source_tags importFilters keyMappings item) as [ | t r];
      [congruence | ].
    unfold has_tag in Hs. now rewrite Hs. }
  intros Hlen. rewrite firstn_all2; [apply ensure_tags_has_Sandeep | ].
  pose proof (ensure_tags_length
                (api_source_tags importFilters keyMappings item)). lia.
Qed.

Definition lamp_filters : ImportFilters :=
  {| selectedValues := ["color::v7"] |}.

Definition lamp_product : jsval :=
  api_product lamp_filters []
    (JObj [("name", JStr "Lamp"); ("color", JStr "v7")]).

Lemma api_tags_default_and_Sandeep_witness :
  In lamp_product (fetchApiData (FetchDone true lamp_body) lamp_filters [])
  /\ api_tags_spec lamp_filters [] lamp_product.
Proof.
  assert (H : In lamp_product
                (fetchApiData (FetchDone true lamp_body) lamp_filters [])).
  { vm_compute. left. reflexivity. }
  split; [exact H | ].
  exact (api_tags_default_and_Sandeep _ _ _ _ H).
Defined.

(** ** Progress query *)













(** ** Order of the rows selected from a CSV *)

Section CsvSelection.

Variable rs : list Row.

(** The test [scan_rows] makes on a row for a key and a value. *)
Definition row_matches (key value : string) (row : Row) : bool :=
  value_matches (trim (to_string (or_else (row_prop row key) (JStr ""))))
    (trim value).

(** Whether a selector token passes the guard and matches the row. *)
Definition token_selects (token : string) (row : Row) : bool :=
  match parse_token token with
  | Some (key, value) => row_matches key value row
  | None => false
  end.

(** The position of the first token that selects the row (the number of
    tokens if none does). *)
Fixpoint first_match (tokens : list string) (row : Row) : nat :=
  match tokens with
  | [] => 0
  | token :: r =>
      if token_selects token row then 0 else S (first_match r row)
  end.

Definition row_at (i : nat) : Row := nth i rs [].

(** Row [i] comes before row [j]: its first matching token is earlier, or
    it is the same token and [i < j]. *)
Definition selected_before (tokens : list string) (i j : nat) : Prop :=
  (first_match tokens (row_at i) < first_match tokens (row_at j))%nat
  \/ (first_match tokens (row_at i) = first_match tokens (row_at j)
      /\ (i < j)%nat).

Definition mem (i : nat) (s : list nat) : bool := existsb (Nat.eqb i) s.

Lemma mem_In i s : mem i s = true <-> In i s.
Proof.
  unfold mem. rewrite existsb_exists. split.
  - intros (x & Hx & E). apply Nat.eqb_eq in E. now subst.
  - intros H. exists i. split; [exact H | apply Nat.eqb_refl].
Qed.

Lemma mem_snoc i j s : i <> j -> mem i (s ++ [j])%list = mem i s.
Proof.
  intros H. unfold mem. rewrite existsb_app. simpl.
  apply Nat.eqb_neq in H. rewrite H. now rewrite !orb_false_r.
Qed.

Lemma scan_rows_filter key value l index acc :
  scan_rows key value l index acc
  = (acc ++ filter (fun i => row_matches key value (nth (i - index) l [])
                             && negb (mem i acc))
             (List.seq index (List.length l)))%list.
Proof.
  revert index acc. induction l as [ | row l IH]; intros index acc.
  - simpl. now rewrite app_nil_r.
  - cbn [scan_rows List.length List.seq filter].
    rewrite Nat.sub_diag. change (nth 0 (row :: l) []) with row.
    fold (row_matches key value row).
    rewrite IH.
    assert (Hnth : forall i, In i (List.seq (S index) (List.length l)) ->
                             nth (i - index) (row :: l) [] = nth (i - S index) l []).
    { intros i Hi. apply in_seq in Hi.
      replace (i - index)%nat with (S (i - S index)) by lia. reflexivity. }
    destruct (row_matches key value row) eqn:Hm; cbn [andb].
    + unfold set_add. fold (mem index acc).
      destruct (mem index acc) eqn:Hin; cbn [negb].
      * f_equal. apply filter_ext_in. intros i Hi. now rewrite Hnth.
      * rewrite <- app_assoc. cbn [app]. f_equal. f_equal.
        apply filter_ext_in. intros i Hi. rewrite Hnth by exact Hi.
        rewrite mem_snoc; [reflexivity | ].
        apply in_seq in Hi. lia.
    + f_equal. apply filter_ext_in. intros i Hi. now rewrite Hnth.
Qed.

(** The indices one token adds to the set. *)
Definition block (token : string) (acc : list nat) : list nat :=
  filter (fun i => token_selects token (row_at i) && negb (mem i acc))
    (List.seq 0 (List.length rs)).

Lemma select_step token tokens acc :
  select_indices (token :: tokens) rs acc
  = select_indices tokens rs (acc ++ block token acc)%list.
Proof.
  cbn [select_indices]. f_equal. unfold block, token_selects.
  destruct (parse_token token) as [[key value] | ].
  - rewrite scan_rows_filter. f_equal. apply filter_ext. intros i.
    now rewrite Nat.sub_0_r.
  - symmetry. rewrite <- (app_nil_r acc) at 2. f_equal.
    induction (List.seq 0 (List.length rs)); [reflexivity | assumption].
Qed.

Lemma first_match_le tokens row :
  (first_match tokens row <= List.length tokens)%nat.
Proof.
  induction tokens as [ | t r IH]; simpl; [lia | ].
  destruct (token_selects t row); lia.
Qed.

Lemma first_match_lt tokens row :
  (first_match tokens row < List.length tokens)%nat
  <-> exists token, In token tokens /\ token_selects token row = true.
Proof.
  induction tokens as [ | t r IH]; simpl.
  - split; [lia | intros (? & [] & _)].
  - destruct (token_selects t row) eqn:E.
    + split; [ | lia]. intros _. exists t. auto.
    + rewrite <- Nat.succ_lt_mono, IH. split.
      * intros (x & Hx & Hs). exists x. auto.
      * intros (x & [<- | Hx] & Hs); [congruence | ]. exists x. auto.
Qed.

Lemma first_match_at tokens k token row :
  nth_error tokens k = Some token ->
  first_match tokens row = k
  <-> (k <= first_match tokens row)%nat /\ token_selects token row = true.
Proof.
  revert k. induction tokens as [ | t r IH]; intros k Hk.
  - destruct k; discriminate.
  - destruct k as [ | k]; simpl in *.
    + injection Hk as ->. destruct (token_selects token row).
      * split; [intros _; split; [lia | reflexivity] | reflexivity].
      * split; [discriminate | intros [_ H]; discriminate].
    + specialize (IH k Hk). destruct (token_selects t row).
      * split; [discriminate | lia].
      * rewrite <- Nat.succ_le_mono. split.
        -- intros H. injection H as H. now apply IH.
        -- intros H. f_equal. now apply IH.
Qed.

Lemma sorted_filter_seq (f : nat -> bool) a n :
  StronglySorted lt (filter f (List.seq a n)).
Proof.
  revert a. induction n as [ | n IH]; intros a; simpl; [constructor | ].
  destruct (f a); [ | apply IH].
  constructor; [apply IH | ].
  apply Forall_forall. intros x Hx.
  apply filter_In in Hx. destruct Hx as [Hx _]. apply in_seq in Hx. lia.
Qed.

Lemma sorted_app {A} (R : A -> A -> Prop) l1 l2 :
  StronglySorted R l1 -> StronglySorted R l2 ->
  (forall x y, In x l1 -> In y l2 -> R x y) ->
  StronglySorted R (l1 ++ l2)%list.
Proof.
  intros H1 H2 H. induction H1 as [ | a l1 Hs IH Ha]; [exact H2 | ].
  simpl. constructor.
  - apply IH. intros x y Hx Hy. apply H; [now right | exact Hy].
  - apply Forall_app. split; [exact Ha | ].
    apply Forall_forall. intros y Hy. apply H; [now left | exact Hy].
Qed.

Lemma sorted_weaken {A} (R R' : A -> A -> Prop) l :
  StronglySorted R l ->
  (forall x y, In x l -> In y l -> R x y -> R' x y) ->
  StronglySorted R' l.
Proof.
  intros Hs. induction Hs as [ | a l Hs IH Ha]; intros H; [constructor | ].
  constructor.
  - apply IH. intros x y Hx Hy. apply H; now right.
  - rewrite Forall_forall in *. intros y Hy.
    apply H; [now left | now right | now apply Ha].
Qed.

(** What holds of the set once the tokens before position [k] are done. *)
Definition selection_inv (tokens : list string) (k : nat) (acc : list nat)
  : Prop :=
  NoDup acc
  /\ (forall i, In i acc <->
                (i < List.length rs)%nat
                /\ (first_match tokens (row_at i) < k)%nat)
  /\ StronglySorted (selected_before tokens) acc.

Lemma selection_step tokens k token acc :
  nth_error tokens k = Some token ->
  selection_inv tokens k acc ->
  selection_inv tokens (S k) (acc ++ block token acc)%list.
Proof.
  intros Hk (Hnd & Hin & Hs).
  assert (Hb : forall i, In i (block token acc) <->
                         (i < List.length rs)%nat
                         /\ first_match tokens (row_at i) = k).
  { intros i. unfold block. rewrite filter_In, in_seq, andb_true_iff.
    rewrite negb_true_iff, (first_match_at _ _ _ _ Hk). split.
    - intros (Hi & Hsel & Hm). split; [lia | ]. split; [ | exact Hsel].
      destruct (Nat.le_gt_cases k (first_match tokens (row_at i)))
        as [ | Hlt]; [assumption | ].
      assert (In i acc) by (apply Hin; split; [lia | exact Hlt]).
      apply mem_In in H. congruence.
    - intros (Hi & Hle & Hsel). split; [lia | ]. split; [exact Hsel | ].
      destruct (mem i acc) eqn:E; [ | reflexivity].
      apply mem_In, Hin in E. lia. }
  split; [ | split].
  - apply NoDup_app; [exact Hnd | apply NoDup_filter, seq_NoDup | ].
    intros i Hi Hi'. apply Hin in Hi. apply Hb in Hi'. lia.
  - intros i. rewrite in_app_iff, Hin, Hb. lia.
  - apply sorted_app; [exact Hs | | ].
    + apply sorted_weaken with (R := lt); [apply sorted_filter_seq | ].
      intros x y Hx Hy Hlt. apply Hb in Hx, Hy. right. split; [lia | exact Hlt].
    + intros x y Hx Hy. apply Hin in Hx. apply Hb in Hy. left. lia.
Qed.

Lemma selection_all tokens todo done acc :
  tokens = (done ++ todo)%list ->
  selection_inv tokens (List.length done) acc ->
  selection_inv tokens (List.length tokens) (select_indices todo rs acc).
Proof.
  revert done acc. induction todo as [ | t todo IH]; intros done acc Ht Hinv.
  - rewrite app_nil_r in Ht. subst. exact Hinv.
  - rewrite select_step.
    apply (IH (done ++ [t])%list).
    + rewrite <- app_assoc. exact Ht.
    + rewrite length_app, Nat.add_1_r. apply selection_step; [ | exact Hinv].
      subst tokens. rewrite nth_error_app2 by lia.
      now rewrite Nat.sub_diag.
Qed.

Lemma selection_spec tokens :
  selection_inv tokens (List.length tokens) (select_indices tokens rs []).
Proof.
  apply (selection_all tokens tokens []); [reflexivity | ].
  split; [constructor | split; [ | constructor]].
  intros i. simpl. split; [tauto | lia].
Qed.

End CsvSelection.

Definition two_rows : CsvData :=
  {| headers := ["Title"; "category"];
     rows := [[("Title", "First"); ("category", "Garden")];
              [("Title", "Second"); ("category", "Sports")]] |}.

Definition sports_then_garden : ImportFilters :=
  {| selectedValues := ["category::Sports"; "category::Garden"] |}.

(** C7, counterexample: with the token for the second row listed before the
    token for the first row, the second row comes out first. *)
Lemma csv_rows_follow_token_order :
  select_indices (selectedValues sports_then_garden) (rows two_rows) []
  = [1%nat; 0%nat]
  /\ map (fun p => get p "title") (processCsvData two_rows sports_then_garden)
     = [JStr "Second"; JStr "First"].
Proof. split; vm_compute; reflexivity. Qed.

(** The order [processCsvData] gives its output for a non-empty token
    list: the selected rows are the rows some token selects, each once;
    rows first selected by an earlier token come first, and rows first
    selected by the same token are in ascending row index. *)
Definition csv_order_spec (csvData : CsvData) (importFilters : ImportFilters)
  : Prop :=
  let tokens := selectedValues importFilters in
  let selected := select_indices tokens (rows csvData) [] in
  processCsvData csvData importFilters
  = map_indexed (csv_product importFilters)
      (map (fun i => nth i (rows csvData) []) selected) 0
  /\ NoDup selected
  /\ (forall i, In i selected <->
                (i < List.length (rows csvData))%nat
                /\ exists token,
                     In token tokens
                     /\ token_selects token (nth i (rows csvData) []) = true)
  /\ StronglySorted (selected_before (rows csvData) tokens) selected
  /\ (forall token, tokens = [token] -> StronglySorted lt selected).

(** C7, amended: for every CSV row set and every non-empty list of selector
    tokens, the rows selected by [processCsvData] appear once each, ordered
    by the position of the first token that matches them and, among rows
    first matched by the same token, in original record order; with a
    single token the output is in original record order. *)
Theorem csv_selection_order csvData importFilters :
  selectedValues importFilters <> [] ->
  csv_order_spec csvData importFilters.
Proof.
  intros Hne. unfold csv_order_spec. cbv zeta.
  destruct (selection_spec (rows csvData) (selectedValues importFilters))
    as (Hnd & Hin & Hs).
  split.
  { unfold processCsvData, filtered_rows.
    destruct (selectedValues importFilters); [congruence | reflexivity]. }
  split; [exact Hnd | ].
  split.
  { intros i. rewrite Hin. unfold row_at. now rewrite first_match_lt. }
  split; [exact Hs | ].
  intros token Ht. rewrite Ht in *.
  apply sorted_weaken with (R := selected_before (rows csvData) [token]);
    [exact Hs | ].
  intros x y Hx Hy [Hlt | [_ Hlt]]; [ | exact Hlt].
  apply Hin in Hx, Hy. simpl in *. lia.
Qed.

Lemma csv_selection_order_witness :
  selectedValues sports_then_garden <> []
  /\ csv_order_spec two_rows sports_then_garden.
Proof.
  split; [discriminate | ].
  apply (csv_selection_order two_rows sports_then_garden). discriminate.
Defined.

(** ** Facts about strings and number scanning *)

Fixpoint all_chars (p : ascii -> bool) (s : string) : bool :=
  match s with
  | EmptyString => true
  | String c r => p c && all_chars p r
  end.

(** No dash: what a bound must be made of for the split at ["-"] to leave
    it whole. *)
Definition dashless (s : string) : bool :=
  all_chars (fun c => negb (Ascii.eqb c "-")) s.

Lemma trimEnd_cons c r :
  is_ws c = false -> trimEnd (String c r) = String c (trimEnd r).
Proof.
  intros H. simpl. rewrite H. now destruct (trimEnd r).
Qed.

Lemma trimEnd_head c r :
  trimEnd (String c r) = EmptyString
  \/ trimEnd (String c r) = String c (trimEnd r).
Proof.
  simpl. destruct (trimEnd r); [ | now right].
  destruct (is_ws c); [now left | now right].
Qed.

Lemma trimStart_head s :
  trimStart s = EmptyString
  \/ exists c r, trimStart s = String c r /\ is_ws c = false.
Proof.
  induction s as [ | c s IH]; [now left | ].
  simpl. destruct (is_ws c) eqn:E; [exact IH | ].
  right. now exists c, s.
Qed.

Lemma trimStart_trim s : trimStart (trim s) = trim s.
Proof.
  unfold trim. destruct (trimStart_head s) as [-> | (c & r & -> & Hc)];
    [reflexivity | ].
  rewrite trimEnd_cons by exact Hc. simpl. now rewrite Hc.
Qed.

Lemma trimEnd_idem s : trimEnd (trimEnd s) = trimEnd s.
Proof.
  induction s as [ | c s IH]; [reflexivity | ].
  destruct (trimEnd_head c s) as [E | E]; rewrite E; [reflexivity | ].
  rewrite <- E at 2. cbn [trimEnd]. now rewrite IH.
Qed.

Lemma trimStart_idem s : trimStart (trimStart s) = trimStart s.
Proof.
  destruct (trimStart_head s) as [-> | (c & r & -> & Hc)]; [reflexivity | ].
  simpl. now rewrite Hc.
Qed.

Lemma trimStart_trimEnd s : trimStart (trimEnd s) = trimEnd (trimStart s).
Proof.
  induction s as [ | c s IH]; [reflexivity | ].
  destruct (is_ws c) eqn:Hc.
  - cbn [trimStart]. rewrite Hc.
    cbn [trimEnd]. destruct (trimEnd s) eqn:E.
    + rewrite Hc. rewrite <- IH. reflexivity.
    + cbn [trimStart]. rewrite Hc. rewrite <- IH. reflexivity.
  - rewrite trimEnd_cons by exact Hc. cbn [trimStart]. rewrite Hc.
    now rewrite trimEnd_cons by exact Hc.
Qed.

Lemma append_empty s : s ++ "" = s.
Proof. induction s as [ | c s IH]; [reflexivity | simpl; now rewrite IH]. Qed.

Lemma snoc_append l c s :
  string_of_list_ascii (l ++ [c]) ++ s
  = string_of_list_ascii l ++ String c s.
Proof.
  induction l as [ | a l IH]; [reflexivity | ].
  simpl. now rewrite IH.
Qed.

(** Splitting at a dash: the characters before the first dash form the
    first piece. *)
Lemma split_go_dashless_prefix a cur rest :
  dashless a = true ->
  split_go "-" 0 cur (a ++ String "-" rest)
  = (string_of_list_ascii (rev cur) ++ a) :: split_go "-" 0 [] rest.
Proof.
  revert cur. induction a as [ | c a IH]; intros cur Hp.
  - simpl. now rewrite append_empty.
  - unfold dashless in Hp. simpl in Hp.
    rewrite andb_true_iff, negb_true_iff in Hp. destruct Hp as [Hd Hp].
    cbn [append split_go startsWith].
    rewrite Ascii.eqb_sym, Hd. cbn [andb].
    rewrite (IH (c :: cur) Hp). cbn [rev]. now rewrite snoc_append.
Qed.

Lemma split_go_dashless a cur :
  dashless a = true ->
  split_go "-" 0 cur a = [string_of_list_ascii (rev cur) ++ a].
Proof.
  revert cur. induction a as [ | c a IH]; intros cur Hp.
  - simpl. now rewrite append_empty.
  - unfold dashless in Hp. simpl in Hp.
    rewrite andb_true_iff, negb_true_iff in Hp. destruct Hp as [Hd Hp].
    cbn [split_go startsWith].
    rewrite Ascii.eqb_sym, Hd. cbn [andb].
    rewrite (IH (c :: cur) Hp). cbn [rev]. now rewrite snoc_append.
Qed.

Lemma split_dashless lo hi :
  dashless lo = true -> dashless hi = true ->
  split (lo ++ "-" ++ hi) "-" = [lo; hi].
Proof.
  intros Hlo Hhi. unfold split.
  change (lo ++ "-" ++ hi) with (lo ++ String "-" hi).
  rewrite split_go_dashless_prefix by exact Hlo.
  rewrite split_go_dashless by exact Hhi. reflexivity.
Qed.

(** Trimming stops at the dash between the two bounds. *)
Lemma trimStart_dash lo hi :
  trimStart (lo ++ String "-" hi) = trimStart lo ++ String "-" hi.
Proof.
  induction lo as [ | c lo IH]; [reflexivity | ].
  cbn [append trimStart]. destruct (is_ws c); [exact IH | reflexivity].
Qed.

Lemma trimEnd_dash a hi :
  trimEnd (a ++ String "-" hi) = a ++ String "-" (trimEnd hi).
Proof.
  induction a as [ | c a IH].
  - cbn [append]. now apply trimEnd_cons.
  - cbn [append trimEnd]. rewrite IH.
    destruct a; reflexivity.
Qed.

Lemma trim_dash lo hi :
  trim (lo ++ "-" ++ hi) = trimStart lo ++ "-" ++ trimEnd hi.
Proof.
  unfold trim. change (lo ++ "-" ++ hi) with (lo ++ String "-" hi).
  rewrite trimStart_dash. apply trimEnd_dash.
Qed.

Lemma dashless_trimStart s : dashless s = true -> dashless (trimStart s) = true.
Proof.
  induction s as [ | c s IH]; [reflexivity | ].
  intros H. cbn [trimStart]. destruct (is_ws c); [ | exact H].
  apply IH. unfold dashless in *. simpl in H.
  now apply andb_true_iff in H.
Qed.

Lemma dashless_trimEnd s : dashless s = true -> dashless (trimEnd s) = true.
Proof.
  induction s as [ | c s IH]; [reflexivity | ].
  intros H. unfold dashless in H. simpl in H. apply andb_true_iff in H.
  destruct H as [Hc Hs].
  destruct (trimEnd_head c s) as [E | E]; rewrite E; [reflexivity | ].
  unfold dashless. simpl. rewrite Hc. now apply IH.
Qed.

(** [Number] trims what it reads. *)
Lemma Number_trimStart s : Number (trimStart s) = Number s.
Proof. unfold Number, trim. now rewrite trimStart_idem. Qed.

Lemma Number_trimEnd s : Number (trimEnd s) = Number s.
Proof.
  unfold Number, trim. now rewrite trimStart_trimEnd, trimEnd_idem.
Qed.

Lemma digit_not_ws c : is_digit c = true -> is_ws c = false.
Proof.
  destruct c as [b0 b1 b2 b3 b4 b5 b6 b7].
  destruct b0, b1, b2, b3, b4, b5, b6, b7; vm_compute; congruence.
Qed.

Ltac char_is H :=
  apply Ascii.eqb_eq in H; subst.

(** Scanning stops before trailing whitespace, so trimming the end of the
    string changes only what is left over. *)
Lemma scan_digits_trimEnd acc cnt t :
  scan_digits acc cnt (trimEnd t)
  = let '(v, n, rest) := scan_digits acc cnt t in (v, n, trimEnd rest).
Proof.
  revert acc cnt. induction t as [ | c r IH]; intros acc cnt; [reflexivity | ].
  cbn [scan_digits]. destruct (is_digit c) eqn:Hd.
  - rewrite trimEnd_cons by (now apply digit_not_ws).
    cbn [scan_digits]. rewrite Hd. apply IH.
  - destruct (trimEnd_head c r) as [E | E]; rewrite E; [reflexivity | ].
    cbn [scan_digits]. now rewrite Hd.
Qed.

Lemma scan_sign_trimEnd t :
  scan_sign (trimEnd t)
  = let '(neg, rest) := scan_sign t in (neg, trimEnd rest).
Proof.
  destruct t as [ | c r]; [reflexivity | ].
  cbn [scan_sign].
  destruct (Ascii.eqb c "+") eqn:Hp.
  { char_is Hp. rewrite trimEnd_cons by reflexivity. reflexivity. }
  destruct (Ascii.eqb c "-") eqn:Hm.
  { char_is Hm. rewrite trimEnd_cons by reflexivity. reflexivity. }
  destruct (trimEnd_head c r) as [E | E]; rewrite E; [reflexivity | ].
  cbn [scan_sign]. now rewrite Hp, Hm.
Qed.

Lemma startsWith_trimEnd t p :
  all_chars (fun c => negb (is_ws c)) p = true ->
  startsWith (trimEnd t) p = startsWith t p.
Proof.
  revert t. induction p as [ | a p IH]; intros t Hp; [reflexivity | ].
  simpl in Hp. rewrite andb_true_iff, negb_true_iff in Hp.
  destruct Hp as [Ha Hp].
  destruct t as [ | b r]; [reflexivity | ].
  destruct (is_ws b) eqn:Hb.
  - assert (Hab : Ascii.eqb a b = false).
    { apply Ascii.eqb_neq. intros ->. congruence. }
    destruct (trimEnd_head b r) as [E | E]; rewrite E; cbn [startsWith];
      now rewrite ?Hab.
  - rewrite trimEnd_cons by exact Hb. cbn [startsWith].
    now rewrite IH.
Qed.

Lemma scan_exponent_trimEnd t :
  scan_exponent (trimEnd t)
  = let '(e, rest) := scan_exponent t in (e, trimEnd rest).
Proof.
  destruct t as [ | c r]; [reflexivity | ].
  cbn [scan_exponent].
  destruct (Ascii.eqb c "e" || Ascii.eqb c "E")%bool eqn:He.
  - assert (Hc : is_ws c = false).
    { apply orb_true_iff in He. destruct He as [He | He]; char_is He;
        reflexivity. }
    rewrite trimEnd_cons by exact Hc. cbn [scan_exponent]. rewrite He.
    rewrite scan_sign_trimEnd. destruct (scan_sign r) as [neg r1].
    rewrite scan_digits_trimEnd.
    destruct (scan_digits 0 0 r1) as [[v n] r2].
    destruct n; [ | reflexivity].
    now rewrite trimEnd_cons by exact Hc.
  - destruct (trimEnd_head c r) as [E | E]; rewrite E; [reflexivity | ].
    cbn [scan_exponent]. now rewrite He.
Qed.

Lemma trimEnd_empty_head c r :
  trimEnd (String c r) = EmptyString -> is_ws c = true.
Proof.
  intros E. destruct (is_ws c) eqn:H; [reflexivity | ].
  rewrite trimEnd_cons in E by exact H. discriminate.
Qed.

Lemma ws_not_exponent c :
  is_ws c = true -> (Ascii.eqb c "e" || Ascii.eqb c "E")%bool = false.
Proof.
  intros H. apply orb_false_iff.
  split; apply Ascii.eqb_neq; intros ->; discriminate.
Qed.

Lemma scan_decimal_trimEnd t :
  option_map fst (scan_decimal (trimEnd t)) = option_map fst (scan_decimal t).
Proof.
  unfold scan_decimal. rewrite scan_sign_trimEnd.
  destruct (scan_sign t) as [neg s1].
  rewrite startsWith_trimEnd by reflexivity.
  destruct (startsWith s1 "Infinity"); [reflexivity | ].
  rewrite scan_digits_trimEnd.
  destruct (scan_digits 0 0 s1) as [[ip ic] s2].
  destruct s2 as [ | c r].
  { cbn [trimEnd]. rewrite Nat.add_0_r. destruct ic; [reflexivity | ].
    reflexivity. }
  destruct (Ascii.eqb c ".") eqn:Hdot.
  - char_is Hdot. rewrite trimEnd_cons by reflexivity.
    cbn [Ascii.eqb Bool.eqb]. rewrite scan_digits_trimEnd.
    destruct (scan_digits ip 0 r) as [[m fc] r'].
    destruct ic as [ | ic], fc as [ | fc]; cbn [Nat.add]; try reflexivity;
      rewrite scan_exponent_trimEnd;
      match goal with
      | |- context [scan_exponent ?s] => destruct (scan_exponent s)
      end; reflexivity.
  - destruct (trimEnd_head c r) as [E | E]; rewrite E.
    + apply trimEnd_empty_head in E. apply ws_not_exponent in E.
      rewrite Nat.add_0_r. destruct ic; [reflexivity | ].
      cbn [scan_exponent]. now rewrite E.
    + rewrite Hdot, Nat.add_0_r. destruct ic; [reflexivity | ].
      rewrite <- E, scan_exponent_trimEnd.
      destruct (scan_exponent (String c r)). reflexivity.
Qed.

Lemma parseFloat_trim s : parseFloat (trim s) = parseFloat s.
Proof.
  unfold parseFloat. rewrite trimStart_trim. unfold trim.
  pose proof (scan_decimal_trimEnd (trimStart s)) as H.
  destruct (scan_decimal (trimEnd (trimStart s))) as [[l ?] | ],
           (scan_decimal (trimStart s)) as [[l' ?] | ];
    simpl in H; congruence.
Qed.

(** ** The [between] operator *)

(** For two bounds without a dash, the pieces read are the two bounds,
    whatever whitespace surrounds them. *)
Lemma between_bounds_dashless lo hi :
  dashless lo = true -> dashless hi = true ->
  between_bounds (trim (lo ++ "-" ++ hi)) = (Number lo, Number hi).
Proof.
  intros Hlo Hhi. unfold between_bounds.
  rewrite trim_dash, split_dashless
    by (now apply dashless_trimStart || now apply dashless_trimEnd).
  cbn [map nth]. now rewrite Number_trimStart, Number_trimEnd.
Qed.

(** The answer of the [between] case for the number [numValue]:
    [numValue >= min && (max === 0 || numValue <= max)]. *)
Definition within (bounds : float * float) (numValue : float) : bool :=
  PrimFloat.leb (fst bounds) numValue
  && (PrimFloat.eqb (snd bounds) zero || PrimFloat.leb numValue (snd bounds)).

Lemma evaluate_between f productValue v :
  is_array productValue = false ->
  nullish productValue = false ->
  evaluate f productValue "between" v
  = within (between_bounds (trim v)) (parse_float productValue).
Proof.
  intros Harr Hnull. unfold evaluate. rewrite Hnull.
  assert (E : compare_value productValue "between" v
              = within (between_bounds (trim v)) (parse_float productValue)).
  { unfold compare_value. cbn [op_is existsb String.eqb Ascii.eqb Bool.eqb orb].
    unfold between, within, parse_float. rewrite parseFloat_trim.
    now destruct (between_bounds (trim v)). }
  destruct productValue; try exact E. discriminate.
Qed.

Definition shirt_priced (price : string) : jsval :=
  JObj [("title", JStr "Shirt");
        ("tags", JArr [JStr "summer"]);
        ("variants", JArr [JObj [("price", JStr price); ("sku", JStr "SH-1")]])].

Definition price_between (bounds : string) : Condition :=
  {| field := "price"; attribute := None; operator := "between";
     value := bounds; markupType := "percent"; markupValue := JNum 10 |}.

(** C3, counterexample: the condition value ["-5-10"] (from -5 to 10) is
    split at every dash into ["", "5", "10"], so the bounds read are 0 and
    5, and a price of 7 is answered false; the claimed formula, with min -5
    and max 10, gives true. *)
Lemma negative_bound_is_split_at_its_sign :
  between_bounds "-5-10" = (zero, 5%float)
  /\ checkCondition (shirt_priced "7") (price_between "-5-10") = Normal false
  /\ within (Number "-5", Number "10") (parseFloat "7") = true.
Proof. repeat split; vm_compute; reflexivity. Qed.

(** C3, amended: for a resolved value that is not an array, [checkCondition]
    with the [between] operator splits the trimmed condition value at every
    dash, reads the first two pieces with [Number] as [min] and [max] (a
    missing piece never compares), and answers
    [parseFloat(resolved) >= min && (max === 0 || parseFloat(resolved) <= max)]
    ([>=] being [<=] with the sides exchanged); for a condition value
    [lo-hi] whose two bounds contain no dash, [min] and [max] are
    [Number(lo)] and [Number(hi)]; with ["50-100"] a price of ["75"] gives
    true and ["10"] false, and with ["50-0"] a price of ["9999"] gives
    true. *)
Theorem between_operator product condition productValue :
  nullish product = false ->
  resolve_field product (condition_field condition) = Normal productValue ->
  is_array productValue = false ->
  nullish productValue = false ->
  operator condition = "between" ->
  checkCondition product condition
  = Normal (within (between_bounds (trim (value condition)))
              (parse_float productValue))
  /\ between_bounds (trim (value condition))
     = (nth 0 (map Number (split (trim (value condition)) "-")) nan,
        nth 1 (map Number (split (trim (value condition)) "-")) nan)
  /\ (forall lo hi,
        value condition = lo ++ "-" ++ hi ->
        dashless lo = true -> dashless hi = true ->
        checkCondition product condition
        = Normal (PrimFloat.leb (Number lo) (parse_float productValue)
                  && (PrimFloat.eqb (Number hi) zero
                      || PrimFloat.leb (parse_float productValue)
                           (Number hi))))
  /\ checkCondition (shirt_priced "75") (price_between "50-100") = Normal true
  /\ checkCondition (shirt_priced "10") (price_between "50-100") = Normal false
  /\ checkCondition (shirt_priced "9999") (price_between "50-0") = Normal true.
Proof.
  intros Hp Hres Harr Hnull Hop.
  assert (E : checkCondition product condition
              = Normal (within (between_bounds (trim (value condition)))
                          (parse_float productValue))).
  { unfold checkCondition, get_strict. rewrite Hp. cbn [bind].
    rewrite Hres. cbn [bind]. rewrite Hop.
    now rewrite evaluate_between. }
  split; [exact E | ].
  split; [reflexivity | ].
  split; [ | repeat split; vm_compute; reflexivity].
  intros lo hi Hv Hlo Hhi. rewrite E, Hv.
  now rewrite between_bounds_dashless.
Qed.

Lemma between_operator_witness :
  checkCondition (shirt_priced "82.50") (price_between " 50 - 100 ")
  = Normal true.
Proof.
  destruct (between_operator (shirt_priced "82.50")
              (price_between " 50 - 100 ") (JStr "82.50")
              eq_refl eq_refl eq_refl eq_refl eq_refl)
    as (_ & _ & H & _).
  rewrite (H " 50 " " 100 " eq_refl eq_refl eq_refl).
  vm_compute. reflexivity.
Defined.

(** ** Markup application *)

(** [product.variants?.[0]?.price] *)
Definition first_price (product : jsval) : jsval :=
  get_opt (get_opt (get product "variants") "0") "price".

(** A condition the scan passes over: it does not match, or its markup type
    or value is not valid, or the marked-up price equals the current one. *)
Definition passed_over (product : jsval) (c : Condition) : Prop :=
  exists matches,
    checkCondition product c = Normal matches
    /\ (matches = false
        \/ marked_up (markupType c) (condition_markup c) (current_price product)
           = None
        \/ exists newPrice,
             marked_up (markupType c) (condition_markup c)
               (current_price product) = Some newPrice
             /\ PrimFloat.eqb newPrice (current_price product) = true).

Lemma apply_first_passed product c r :
  passed_over product c ->
  apply_first product (c :: r) = apply_first product r.
Proof.
  intros (b & Hb & H). cbn [apply_first]. rewrite Hb. cbn [bind].
  destruct b; [ | reflexivity].
  destruct H as [H | [H | (np & H & E)]]; [discriminate | | ].
  - now rewrite H.
  - now rewrite H, E.
Qed.

Lemma apply_first_all_passed product cs :
  Forall (passed_over product) cs ->
  apply_first product cs = Normal product.
Proof.
  induction 1 as [ | c r Hc _ IH]; [reflexivity | ].
  now rewrite apply_first_passed.
Qed.

Lemma apply_first_reaches product pre c post :
  Forall (passed_over product) pre ->
  apply_first product (pre ++ c :: post)%list
  = apply_first product (c :: post).
Proof.
  induction 1 as [ | c' r Hc _ IH]; [reflexivity | ].
  cbn [app]. now rewrite apply_first_passed.
Qed.

(** The scan at a matching condition with a valid markup. *)
Lemma apply_first_at product c post newPrice :
  checkCondition product c = Normal true ->
  marked_up (markupType c) (condition_markup c) (current_price product)
  = Some newPrice ->
  apply_first product (c :: post)
  = if negb (PrimFloat.eqb newPrice (current_price product))
    then write_markup product (markupType c) (condition_markup c) newPrice
    else apply_first product post.
Proof.
  intros Hc Hm. cbn [apply_first]. rewrite Hc. cbn [bind]. now rewrite Hm.
Qed.

Lemma applyMarkupRules_matched product markupConfig :
  nullish product = false ->
  conditions markupConfig <> [] ->
  conditions_match product markupConfig = Normal true ->
  applyMarkupRules product markupConfig
  = apply_first product (conditions markupConfig).
Proof.
  intros Hp Hne Hm. unfold applyMarkupRules, get_strict. rewrite Hp.
  cbn [bind]. destruct (conditions markupConfig); [congruence | ].
  now rewrite Hm.
Qed.

Lemma lookup_update_same key x fs : lookup key (update key x fs) = Some x.
Proof.
  induction fs as [ | [k v] fs IH]; simpl.
  - now rewrite String.eqb_refl.
  - destruct (String.eqb k key) eqn:E; simpl; rewrite E; [reflexivity | exact IH].
Qed.

Lemma lookup_update_other key key' x fs :
  String.eqb key' key = false ->
  lookup key (update key' x fs) = lookup key fs.
Proof.
  intros Hk. induction fs as [ | [k v] fs IH]; simpl.
  - now rewrite Hk.
  - destruct (String.eqb k key') eqn:E; simpl.
    + apply String.eqb_eq in E. subst k. now rewrite Hk.
    + now rewrite IH.
Qed.

(** The product after the assignments of a markup application. *)
Definition marked_product (fs v : list (string * jsval)) (vs : list jsval)
    (markupType : string) (markupValue newPrice : float) : jsval :=
  JObj
    (update "markupValue" (JStr (toString markupValue))
       (update "markupType"
          (JStr (if is_percent markupType then "percentage" else "fixed"))
          (update "markupApplied" (JBool true)
             (update "variants"
                (JArr (JObj (update "price" (JStr (toFixed 2 newPrice)) v)
                       :: vs))
                fs)))).

Lemma write_markup_object fs v vs markupType markupValue newPrice :
  lookup "variants" fs = Some (JArr (JObj v :: vs)) ->
  write_markup (JObj fs) markupType markupValue newPrice
  = Normal (marked_product fs v vs markupType markupValue newPrice).
Proof.
  intros Hv. unfold write_markup, get. rewrite Hv. reflexivity.
Qed.

Lemma get_first x l : get (JArr (x :: l)) "0" = x.
Proof. reflexivity. Qed.

Lemma marked_product_fields fs v vs markupType markupValue newPrice :
  let p := marked_product fs v vs markupType markupValue newPrice in
  first_price p = JStr (toFixed 2 newPrice)
  /\ get p "markupApplied" = JBool true
  /\ get p "markupType"
     = JStr (if is_percent markupType then "percentage" else "fixed")
  /\ get p "markupValue" = JStr (toString markupValue).
Proof.
  cbv zeta. unfold first_price, marked_product, get.
  repeat (rewrite (lookup_update_other "variants") by reflexivity).
  repeat (rewrite (lookup_update_other "markupApplied") by reflexivity).
  repeat (rewrite (lookup_update_other "markupType") by reflexivity).
  rewrite ?lookup_update_same.
  repeat split. unfold get_opt at 2. cbn [nullish]. rewrite get_first.
  unfold get_opt, get. cbn [nullish]. now rewrite lookup_update_same.
Qed.

Definition free_sample : jsval := shirt_priced "0.00".

Definition ten_percent_on_shirt : Condition :=
  {| field := "title"; attribute := None; operator := "eq"; value := "Shirt";
     markupType := "percent"; markupValue := JNum 10 |}.

Definition five_on_summer : Condition :=
  {| field := "tags"; attribute := None; operator := "contains";
     value := "summer"; markupType := "fixed"; markupValue := JNum 5 |}.

Definition two_markups : MarkupConfig :=
  {| conditions := [ten_percent_on_shirt; five_on_summer];
     conditionsType := "any" |}.

(** The price and the markup properties of a returned product. *)
Definition markup_outcome (r : completion jsval)
  : option (jsval * jsval * jsval) :=
  match r with
  | Normal p => Some (first_price p, get p "markupType", get p "markupValue")
  | Throw _ => None
  end.

(** C1, counterexample: on a product priced 0.00 the first condition
    evaluates true and carries a valid markup (percent, 10 > 0), yet the
    markup applied is the second condition's: 10 percent of 0 leaves the
    price as it is, the guard [newPrice !== currentPrice] fails and the scan
    goes on. *)
Lemma later_markup_applied_at_price_zero :
  checkCondition free_sample ten_percent_on_shirt = Normal true
  /\ is_percent (markupType ten_percent_on_shirt) = true
  /\ PrimFloat.ltb zero (condition_markup ten_percent_on_shirt) = true
  /\ markup_outcome (applyMarkupRules free_sample two_markups)
     = Some (JStr "5.00", JStr "fixed", JStr "5").
Proof. repeat split; vm_compute; reflexivity. Qed.

(** C1, amended: when the conditions match, [applyMarkupRules] applies the
    markup of the first condition in declaration order that itself
    evaluates true, has a valid markup and whose marked-up price differs
    from the current price; the result is that single application to the
    original price, whatever conditions follow. *)
Theorem first_changing_markup_wins
    product markupConfig pre c post newPrice :
  nullish product = false ->
  conditions markupConfig = (pre ++ c :: post)%list ->
  conditions_match product markupConfig = Normal true ->
  Forall (passed_over product) pre ->
  checkCondition product c = Normal true ->
  marked_up (markupType c) (condition_markup c) (current_price product)
  = Some newPrice ->
  PrimFloat.eqb newPrice (current_price product) = false ->
  applyMarkupRules product markupConfig
  = write_markup product (markupType c) (condition_markup c) newPrice
  /\ forall fs v vs,
       product = JObj fs ->
       lookup "variants" fs = Some (JArr (JObj v :: vs)) ->
       markup_outcome (applyMarkupRules product markupConfig)
       = Some (JStr (toFixed 2 newPrice),
               JStr (if is_percent (markupType c) then "percentage"
                     else "fixed"),
               JStr (toString (condition_markup c))).
Proof.
  intros Hp Hcs Hm Hpre Hc Hnew Hne.
  assert (E : applyMarkupRules product markupConfig
              = write_markup product (markupType c) (condition_markup c)
                  newPrice).
  { rewrite applyMarkupRules_matched; [ | exact Hp | | exact Hm].
    - rewrite Hcs, apply_first_reaches by exact Hpre.
      rewrite (apply_first_at _ _ _ _ Hc Hnew). now rewrite Hne.
    - rewrite Hcs. now destruct pre. }
  split; [exact E | ].
  intros fs v vs -> Hv. rewrite E, (write_markup_object _ _ _ _ _ _ Hv).
  destruct (marked_product_fields fs v vs (markupType c) (condition_markup c)
              newPrice) as (H1 & _ & H3 & H4).
  unfold markup_outcome. now rewrite H1, H3, H4.
Qed.

Lemma first_changing_markup_wins_witness :
  markup_outcome (applyMarkupRules free_sample two_markups)
  = Some (JStr (toFixed 2 5), JStr "fixed", JStr (toString 5)).
Proof.
  assert (Hpre : Forall (passed_over free_sample) [ten_percent_on_shirt]).
  { constructor; [ | constructor]. exists true. split; [reflexivity | ].
    right. right. exists 0%float. split; reflexivity. }
  destruct (first_changing_markup_wins free_sample two_markups
              [ten_percent_on_shirt] five_on_summer [] 5%float
              eq_refl eq_refl eq_refl Hpre eq_refl eq_refl eq_refl)
    as [_ H].
  exact (H _ _ _ eq_refl eq_refl).
Defined.

(** ** Price update *)

(** [n] hundredths is a nearest two-decimal value to [m * 2 ^ e]:
    [|n / 100 - m * 2 ^ e| <= 1 / 200]. *)
Definition nearest_hundredth (m : positive) (e : Z) (n : Z) : Prop :=
  if (0 <=? e)%Z then n = (Zpos m * 2 ^ e * 100)%Z
  else (2 * Z.abs (n * 2 ^ (- e) - Zpos m * 100) <= 2 ^ (- e))%Z.

Lemma round_scaled_nearest m e : nearest_hundredth m e (round_scaled 2 m e).
Proof.
  unfold nearest_hundredth, round_scaled.
  change (10 ^ Z.of_nat 2)%Z with 100%Z.
  destruct (Z.leb_spec 0 e) as [He | He]; [reflexivity | ].
  assert (Hd : (0 < 2 ^ (- e))%Z) by (apply Z.pow_pos_nonneg; lia).
  set (d := (2 ^ (- e))%Z) in *. set (N := (Zpos m * 100)%Z).
  pose proof (Z.div_mod (2 * N + d) (2 * d) ltac:(lia)) as Hdm.
  pose proof (Z.mod_pos_bound (2 * N + d) (2 * d) ltac:(lia)) as Hr.
  set (q := ((2 * N + d) / (2 * d))%Z) in *.
  set (r := ((2 * N + d) mod (2 * d))%Z) in *.
  assert (Hq : (2 * (q * d - N) = d - r)%Z) by lia.
  lia.
Qed.

(** What [x.toFixed(2)] is: a nearest two-decimal value when [x] is finite
    and below [1e21] in absolute value, and [String(x)] otherwise. *)
Definition written_price (x : float) : Prop :=
  match Prim2SF x with
  | S754_finite sgn m e =>
      if PrimFloat.leb 1e21 (abs x) then toFixed 2 x = toString x
      else toFixed 2 x
           = (if sgn then "-" else "") ++ fixed_digits 2 (round_scaled 2 m e)
           /\ nearest_hundredth m e (round_scaled 2 m e)
  | S754_zero _ => toFixed 2 x = "0.00"
  | S754_infinity _ | S754_nan => toFixed 2 x = toString x
  end.

Lemma toFixed_written_price x : written_price x.
Proof.
  unfold written_price, toFixed.
  destruct (Prim2SF x) as [s | s | | s m e] eqn:E; try reflexivity.
  - unfold toString. now rewrite E.
  - unfold toString. now rewrite E.
  - destruct (PrimFloat.leb 1e21 (abs x)); [reflexivity | ].
    split; [reflexivity | apply round_scaled_nearest].
Qed.

(** The price a valid markup leads to. *)
Definition marked_price (markupType : string) (price value : float) : float :=
  if is_percent markupType then (price * (1 + value / 100))%float
  else (price + value)%float.

Lemma marked_up_valid markupType price value :
  PrimFloat.ltb zero value = true ->
  is_percent markupType = true \/ markupType = "fixed" ->
  marked_up markupType value price
  = Some (marked_price markupType price value).
Proof.
  intros Hv Ht. unfold marked_up, marked_price. rewrite Hv.
  destruct (is_percent markupType); [reflexivity | ].
  destruct Ht as [Ht | ->]; [discriminate | reflexivity].
Qed.

(** [currentPrice] when the first variant has a price. *)
Lemma current_price_first product :
  truthy (first_price product) = true ->
  current_price product = parse_float (first_price product).
Proof.
  intros H. unfold current_price, or_else. fold (first_price product).
  now rewrite H.
Qed.

Lemma get_variants_of_object product :
  nullish (get product "variants") = false -> exists fs, product = JObj fs.
Proof.
  destruct product as [ | | b | n | s | l | fs]; try discriminate.
  now exists fs.
Qed.

(** The first variant of a product is an object as soon as it has a truthy
    price. *)
Lemma get_price_of_object x :
  truthy (get_opt x "price") = true -> exists v, x = JObj v.
Proof.
  destruct x as [ | | b | n | s | l | v]; try discriminate.
  now exists v.
Qed.

Lemma priced_product_shape product :
  truthy (first_price product) = true ->
  exists firstVariant, get (get product "variants") "0" = JObj firstVariant.
Proof.
  unfold first_price. intros H.
  destruct (nullish (get product "variants")) eqn:Hn.
  { unfold get_opt in H. rewrite Hn in H. discriminate. }
  unfold get_opt at 2 in H. rewrite Hn in H.
  exact (get_price_of_object _ H).
Qed.

(** A product whose first variant is an object is itself an object. *)
Lemma first_variant_shape product firstVariant :
  get (get product "variants") "0" = JObj firstVariant ->
  (exists fs, product = JObj fs)
  /\ nullish (get product "variants") = false.
Proof.
  intros H.
  assert (Hn : nullish (get product "variants") = false).
  { destruct (get product "variants"); try reflexivity; discriminate. }
  split; [ | exact Hn]. now apply get_variants_of_object.
Qed.

Lemma write_markup_returns product markupType markupValue newPrice
    firstVariant :
  get (get product "variants") "0" = JObj firstVariant ->
  exists r,
    write_markup product markupType markupValue newPrice = Normal r
    /\ first_price r = JStr (toFixed 2 newPrice)
    /\ get r "markupApplied" = JBool true
    /\ get r "markupType"
       = JStr (if is_percent markupType then "percentage" else "fixed")
    /\ get r "markupValue" = JStr (toString markupValue).
Proof.
  intros Hv. destruct (first_variant_shape product firstVariant Hv)
    as [[fs ->] Hn].
  unfold write_markup, get_strict. rewrite Hn. cbn [bind]. rewrite Hv.
  cbn [set bind].
  set (v0 := JObj (update "price" _ firstVariant)).
  assert (Hset : exists variants',
             set (get (JObj fs) "variants") "0" v0 = Normal variants'
             /\ get variants' "0" = v0).
  { destruct (get (JObj fs) "variants") as [ | | b | x | s | l | fv] eqn:E;
      try discriminate.
    - exfalso. revert Hv. unfold get.
      destruct (String.eqb "0" "length"); [discriminate | ].
      destruct (array_index "0") as [i | ]; [ | discriminate].
      unfold char_at. destruct (String.get i s); discriminate.
    - destruct l as [ | x l]; [discriminate | ].
      eexists. split; reflexivity.
    - eexists. split; [reflexivity | ]. unfold get.
      now rewrite lookup_update_same. }
  destruct Hset as (variants' & -> & Hz). cbn [set bind].
  eexists. split; [reflexivity | ].
  unfold first_price, get.
  repeat (rewrite (lookup_update_other "variants") by reflexivity).
  repeat (rewrite (lookup_update_other "markupApplied") by reflexivity).
  repeat (rewrite (lookup_update_other "markupType") by reflexivity).
  rewrite ?lookup_update_same.
  repeat split.
  assert (Hnv : nullish variants' = false).
  { destruct variants'; try reflexivity; subst v0; discriminate. }
  unfold get_opt at 2. rewrite Hnv.
  fold (get variants' "0"). rewrite Hz. unfold v0, get_opt. cbn [nullish].
  unfold get. now rewrite lookup_update_same.
Qed.

(** [currentPrice] when the first variant has no price, or one that is
    falsy (an empty string, the number 0). *)
Lemma current_price_default product :
  truthy (first_price product) = false ->
  current_price product = zero.
Proof.
  intros H. unfold current_price, or_else. fold (first_price product).
  rewrite H. vm_compute. reflexivity.
Qed.

Definition ten_percent_only : MarkupConfig :=
  {| conditions := [ten_percent_on_shirt]; conditionsType := "any" |}.

(** C2, counterexample: a price of ["1e21"] with a percent markup of 10
    is written back as ["1.1000000000000001e+21"]: from [1e21] on,
    [toFixed(2)] gives the number's plain string form, not two decimals. *)
Lemma huge_price_is_not_rounded :
  markup_outcome (applyMarkupRules (shirt_priced "1e21") ten_percent_only)
  = Some (JStr "1.1000000000000001e+21", JStr "percentage", JStr "10").
Proof. vm_compute. reflexivity. Qed.

(** C2, amended: for a product whose first variant is an object and a
    condition the scan reaches that matches and carries a valid markup of
    value [v]: with [price = parseFloat(variants[0].price || '0')] (the
    first variant's price, a string or a number, when it is truthy, and 0
    otherwise), the new price is [price * (1 + v / 100)] for [percent] or
    [percentage] and [price + v] for [fixed], in binary64 arithmetic; it is
    written back as [newPrice.toFixed(2)] only if it differs from the
    current price (otherwise the scan goes on with the later conditions);
    [toFixed(2)] is a nearest two-decimal value when [newPrice] is finite
    and below [1e21] in absolute value, and the plain string form of the
    number otherwise; and a price of ["19.99"] with a percent markup of 10
    ends as ["21.99"]. *)
Theorem markup_price_update product markupConfig pre c post firstVariant :
  get (get product "variants") "0" = JObj firstVariant ->
  conditions markupConfig = (pre ++ c :: post)%list ->
  conditions_match product markupConfig = Normal true ->
  Forall (passed_over product) pre ->
  checkCondition product c = Normal true ->
  PrimFloat.ltb zero (condition_markup c) = true ->
  is_percent (markupType c) = true \/ markupType c = "fixed" ->
  let price := current_price product in
  let newPrice := marked_price (markupType c) price (condition_markup c) in
  (truthy (first_price product) = true ->
   price = parse_float (first_price product))
  /\ (truthy (first_price product) = false -> price = zero)
  /\ (is_percent (markupType c) = true ->
      newPrice = (price * (1 + condition_markup c / 100))%float)
  /\ (markupType c = "fixed" ->
      newPrice = (price + condition_markup c)%float)
  /\ (PrimFloat.eqb newPrice price = false ->
      exists r,
        applyMarkupRules product markupConfig = Normal r
        /\ first_price r = JStr (toFixed 2 newPrice)
        /\ get r "markupApplied" = JBool true)
  /\ (PrimFloat.eqb newPrice price = true ->
      applyMarkupRules product markupConfig = apply_first product post)
  /\ written_price newPrice
  /\ (first_price product = JStr "19.99" ->
      is_percent (markupType c) = true ->
      condition_markup c = 10%float ->
      exists r,
        applyMarkupRules product markupConfig = Normal r
        /\ first_price r = JStr "21.99").
Proof.
  intros Hfirst Hcs Hm Hpre Hc Hval Hty price newPrice.
  assert (Hp : nullish product = false).
  { destruct (first_variant_shape _ _ Hfirst) as [[fs ->] _]. reflexivity. }
  assert (Happ : applyMarkupRules product markupConfig
                 = (if negb (PrimFloat.eqb newPrice price)
                    then write_markup product (markupType c)
                           (condition_markup c) newPrice
                    else apply_first product post)).
  { rewrite applyMarkupRules_matched; [ | exact Hp | | exact Hm].
    - rewrite Hcs, apply_first_reaches by exact Hpre.
      rewrite (apply_first_at _ _ _ newPrice Hc); [reflexivity | ].
      now apply marked_up_valid.
    - rewrite Hcs. now destruct pre. }
  assert (Hwrite : PrimFloat.eqb newPrice price = false ->
                   exists r,
                     applyMarkupRules product markupConfig = Normal r
                     /\ first_price r = JStr (toFixed 2 newPrice)
                     /\ get r "markupApplied" = JBool true).
  { intros Hne. rewrite Happ, Hne. cbn [negb].
    destruct (write_markup_returns product (markupType c) (condition_markup c)
                newPrice firstVariant Hfirst) as (r & Hr & H1 & H2 & _).
    now exists r. }
  split; [apply current_price_first | ].
  split; [apply current_price_default | ].
  split.
  { intros Hpc. unfold newPrice, marked_price. now rewrite Hpc. }
  split.
  { intros Hfx. unfold newPrice, marked_price. now rewrite Hfx. }
  split; [exact Hwrite | ].
  split.
  { intros He. now rewrite Happ, He. }
  split; [apply toFixed_written_price | ].
  intros Hs Hpc Hten.
  assert (Hcur : price = parseFloat "19.99").
  { unfold price. rewrite current_price_first by (now rewrite Hs).
    now rewrite Hs. }
  assert (Hnew : newPrice = (parseFloat "19.99" * (1 + 10 / 100))%float).
  { unfold newPrice, marked_price. now rewrite Hpc, Hten, Hcur. }
  destruct Hwrite as (r & Hr & H1 & _).
  { rewrite Hnew, Hcur. reflexivity. }
  exists r. split; [exact Hr | ]. rewrite H1, Hnew. reflexivity.
Qed.

Lemma markup_price_update_witness :
  exists r,
    applyMarkupRules (shirt_priced "19.99") ten_percent_only = Normal r
    /\ first_price r = JStr "21.99".
Proof.
  destruct (markup_price_update (shirt_priced "19.99") ten_percent_only
              [] ten_percent_on_shirt [] _
              eq_refl eq_refl eq_refl (Forall_nil _) eq_refl eq_refl
              (or_introl eq_refl))
    as (_ & _ & _ & _ & _ & _ & _ & H).
  exact (H eq_refl eq_refl eq_refl).
Defined.

(** A price that is a JSON number, as the API source passes it through. *)
Definition lamp_priced : jsval :=
  JObj [("title", JStr "Shirt");
        ("variants", JArr [JObj [("price", JNum 12.5); ("sku", JStr "L-1")]])].

Example number_price_is_marked_up :
  markup_outcome (applyMarkupRules lamp_priced ten_percent_only)
  = Some (JStr "13.75", JStr "percentage", JStr "10").
Proof. vm_compute. reflexivity. Qed.

(** A price of 0 given as a number counts as no price: the markup starts
    from 0. *)
Definition unpriced_sample : jsval :=
  JObj [("title", JStr "Shirt");
        ("tags", JArr [JStr "summer"]);
        ("variants", JArr [JObj [("price", JNum 0); ("sku", JStr "F-1")]])].

Example zero_price_is_marked_up :
  markup_outcome
    (applyMarkupRules unpriced_sample
       {| conditions := [five_on_summer]; conditionsType := "any" |})
  = Some (JStr "5.00", JStr "fixed", JStr "5").
Proof. vm_compute. reflexivity. Qed.

(** ** Batch loop: the session writes *)

(** A statement keeps [I] when the state it leaves satisfies [I] whenever the
    state it started in does, whether it returns or throws. *)
Definition preserves (I : LoopState -> Prop) {A} (c : Loop A) : Prop :=
  forall st, I st -> I (snd (c st)).

Section Preservation.

Variable I : LoopState -> Prop.

Lemma preserves_ret {A} (a : A) : preserves I (ret a).
Proof. intros st H. exact H. Qed.

Lemma preserves_lift {A} (c : completion A) : preserves I (lift c).
Proof. intros st H. exact H. Qed.

Lemma preserves_seq {A B} (c : Loop A) (k : A -> Loop B) :
  preserves I c -> (forall a, preserves I (k a)) -> preserves I (seq c k).
Proof.
  intros Hc Hk st H. unfold seq. specialize (Hc st H).
  destruct (c st) as [[a | m] st']; [apply Hk | ]; exact Hc.
Qed.

Lemma preserves_try {A} (body : Loop A) (handler : string -> Loop A) :
  preserves I body -> (forall m, preserves I (handler m)) ->
  preserves I (try_catch body handler).
Proof.
  intros Hb Hh st H. unfold try_catch. specialize (Hb st H).
  destruct (body st) as [[a | m] st']; [ | apply Hh]; exact Hb.
Qed.

End Preservation.

(** The counters written by [d1] are not above those written by [d2]. *)
Definition counts_le (d1 d2 : SessionData) : Prop :=
  (setImported d1 <= setImported d2)%nat /\ (setFailed d1 <= setFailed d2)%nat.

(** A write made inside the loop: below the current counters, status
    [processing], no completion time. *)
Definition loop_write (st : LoopState) (d : SessionData) : Prop :=
  (setImported d <= importedCount st)%nat
  /\ (setFailed d <= failedCount st)%nat
  /\ setStatus d = "processing"
  /\ setCompletedAt d = None.

(** The writes so far are in non-decreasing order of both counters, and all
    of them are loop writes. *)
Definition running (st : LoopState) : Prop :=
  StronglySorted counts_le (history st) /\ Forall (loop_write st) (history st).

Lemma running_incrImported : preserves running incrImported.
Proof.
  intros st [Hs Hf]. split; [exact Hs | ].
  simpl. apply Forall_impl with (2 := Hf).
  intros d (H1 & H2 & H3 & H4). unfold loop_write. simpl. repeat split;
    auto with arith.
Qed.

Lemma running_incrFailed : preserves running incrFailed.
Proof.
  intros st [Hs Hf]. split; [exact Hs | ].
  simpl. apply Forall_impl with (2 := Hf).
  intros d (H1 & H2 & H3 & H4). unfold loop_write. simpl. repeat split;
    auto with arith.
Qed.

Lemma running_pushResult entry : preserves running (pushResult entry).
Proof. intros st H. exact H. Qed.

Lemma running_createRecord outcome r : preserves running (createRecord outcome r).
Proof.
  intros st H. unfold createRecord. destruct outcome; exact H.
Qed.

Lemma sorted_snoc (h : list SessionData) d :
  StronglySorted counts_le h ->
  Forall (fun d' => counts_le d' d) h ->
  StronglySorted counts_le (h ++ [d])%list.
Proof.
  intros Hs Hf. apply sorted_app; [exact Hs | repeat constructor | ].
  intros x y Hx [<- | []]. rewrite Forall_forall in Hf. now apply Hf.
Qed.

Lemma running_sessionUpdate outcome sessionId total :
  preserves running (sessionUpdate outcome sessionId "processing" total None).
Proof.
  intros st [Hs Hf]. unfold sessionUpdate. destruct outcome as [ [] | m];
    [ | now split].
  split; simpl.
  - apply sorted_snoc; [exact Hs | ].
    apply Forall_impl with (2 := Hf). intros d (H1 & H2 & _). now split.
  - apply Forall_app. split.
    + apply Forall_impl with (2 := Hf). intros d H. exact H.
    + repeat constructor.
Qed.

Ltac keeps_running :=
  repeat first
    [ apply preserves_ret
    | apply preserves_lift
    | apply running_incrImported
    | apply running_incrFailed
    | apply running_pushResult
    | apply running_createRecord
    | apply running_sessionUpdate
    | apply preserves_try; [ | intros ? ]
    | apply preserves_seq; [ | intros ? ]
    | match goal with
      | |- preserves _ (match ?x with _ => _ end) => destruct x
      end ].

Lemma running_recordSuccess w shopName sessionId productId p entry :
  preserves running (recordSuccess w shopName sessionId productId p entry).
Proof. unfold recordSuccess. keeps_running. Qed.

Lemma running_tryItem w markupConfig importConfig shopName sessionId pd :
  preserves running
    (tryItem w markupConfig importConfig shopName sessionId pd).
Proof.
  unfold tryItem. keeps_running; apply running_recordSuccess.
Qed.

Lemma running_catchItem w sessionId pd message :
  preserves running (catchItem w sessionId pd message).
Proof. unfold catchItem. keeps_running. Qed.

Lemma running_processItem w markupConfig importConfig shopName sessionId
    total pd :
  preserves running
    (processItem w markupConfig importConfig shopName sessionId total pd).
Proof.
  unfold processItem. keeps_running.
Qed.

Lemma running_batchLoop world markupConfig importConfig shopName sessionId
    total products i :
  preserves running
    (batchLoop world markupConfig importConfig shopName sessionId total
       products i).
Proof.
  revert i. induction products as [ | pd r IH]; intros i; cbn [batchLoop].
  - apply preserves_ret.
  - apply preserves_seq; [apply running_processItem | intros _; apply IH].
Qed.

Definition in_progress (d : SessionData) : Prop :=
  setStatus d = "processing" /\ setCompletedAt d = None.

(** The number of writes that set the status to [completed]. *)
Definition finalizations (h : list SessionData) : nat :=
  List.length (filter (fun d => String.eqb (setStatus d) "completed") h).

Lemma finalizations_in_progress h :
  Forall in_progress h -> finalizations h = 0%nat.
Proof.
  unfold finalizations. induction 1 as [ | d h [Hd _] _ IH]; [reflexivity | ].
  simpl. now rewrite Hd.
Qed.

Lemma finalizations_snoc h d :
  Forall in_progress h -> setStatus d = "completed" ->
  finalizations (h ++ [d])%list = 1%nat.
Proof.
  intros Hh Hd. unfold finalizations. rewrite filter_app, length_app.
  fold (finalizations h). rewrite (finalizations_in_progress h Hh).
  simpl. now rewrite Hd.
Qed.

Lemma running_in_progress st : running st -> Forall in_progress (history st).
Proof.
  intros [_ Hf]. apply Forall_impl with (2 := Hf).
  intros d (_ & _ & H3 & H4). now split.
Qed.

Lemma running_initial store : running (initialState store).
Proof. split; constructor. Qed.

(** The products of a run are objects, and there is always one. *)
Definition is_object (p : jsval) : Prop := exists fs, p = JObj fs.

Lemma in_map_indexed {A B} (f : A -> nat -> B) l n y :
  In y (map_indexed f l n) -> exists x i, In x l /\ y = f x i.
Proof.
  revert n. induction l as [ | a l IH]; intros n; cbn; [tauto | ].
  intros [<- | H]; [exists a, n; auto | ].
  destruct (IH _ H) as (x & i & Hx & ->). exists x, i. auto.
Qed.

Lemma processCsvData_objects csvData importFilters :
  Forall is_object (processCsvData csvData importFilters).
Proof.
  apply Forall_forall. intros p H. apply in_map_indexed in H.
  destruct H as (row & i & _ & ->). eexists. reflexivity.
Qed.

Lemma fetchApiData_objects response importFilters keyMappings :
  Forall is_object (fetchApiData response importFilters keyMappings).
Proof.
  apply Forall_forall. intros p. unfold fetchApiData.
  destruct response as [ | ok body]; [cbn; tauto | ].
  destruct ok; [ | cbn; tauto].
  destruct (existsb nullish (extract_items body)); [cbn; tauto | ].
  intros H. apply in_map_iff in H. destruct H as (item & <- & _).
  eexists. reflexivity.
Qed.

Lemma resolveProducts_objects world payload :
  Forall is_object (resolveProducts world payload).
Proof.
  assert (Hd : forall l, Forall is_object l ->
                         Forall is_object
                           match l with
                           | [] => [demoProduct (Payload.importConfig payload)]
                           | _ => l
                           end).
  { intros [ | p l] H; [ | exact H]. repeat constructor. eexists. reflexivity. }
  assert (Hf : Forall is_object
                 [fallbackProduct (Payload.importConfig payload)]).
  { repeat constructor. eexists. reflexivity. }
  unfold resolveProducts. apply Hd.
  destruct (Payload.csvData payload) as [csv | ].
  - destruct (String.eqb (Payload.dataSource payload) "csv");
      [apply processCsvData_objects | ].
    destruct (_ && _); [apply fetchApiData_objects | exact Hf].
  - destruct (_ && _); [apply fetchApiData_objects | exact Hf].
Qed.

Lemma resolveProducts_nonempty world payload :
  resolveProducts world payload <> [].
Proof.
  unfold resolveProducts.
  match goal with
  | |- match ?l with _ => _ end <> [] => destruct l; discriminate
  end.
Qed.

(** An iteration returns when its two unguarded session writes go
    through. *)
Lemma processItem_returns w markupConfig importConfig shopName sessionId
    total pd st :
  is_object pd ->
  headUpdate w = Normal tt ->
  failureUpdate w = Normal tt ->
  fst (processItem w markupConfig importConfig shopName sessionId total pd st)
  = Normal tt.
Proof.
  intros [fs ->] Hh Hf. unfold processItem.
  unfold seq at 1. unfold lift at 1. cbn [get_strict nullish].
  unfold seq at 1. unfold sessionUpdate at 1. rewrite Hh.
  unfold try_catch.
  destruct (tryItem _ _ _ _ _ _ _) as [[[] | m] st2]; [reflexivity | ].
  unfold catchItem, seq, incrFailed, modify, sessionUpdate, lift, pushResult.
  rewrite Hf. reflexivity.
Qed.

Lemma batchLoop_returns world markupConfig importConfig shopName sessionId
    total products i st :
  Forall is_object products ->
  (forall k, headUpdate (world k) = Normal tt
             /\ failureUpdate (world k) = Normal tt) ->
  fst (batchLoop world markupConfig importConfig shopName sessionId total
         products i st)
  = Normal tt.
Proof.
  intros Hp Hw. revert i st.
  induction Hp as [ | pd r Hpd _ IH]; intros i st; [reflexivity | ].
  cbn [batchLoop]. unfold seq.
  pose proof (processItem_returns (world i) markupConfig importConfig shopName
                sessionId total pd st Hpd (proj1 (Hw i)) (proj2 (Hw i))) as H.
  destruct (processItem _ _ _ _ _ _ _ st) as [[[] | m] st1];
    [apply IH | discriminate].
Qed.

(** Every session write of the run goes through. *)
Definition store_answers (world : World) : Prop :=
  (exists sessionId, createSession world = Normal sessionId)
  /\ (forall k, headUpdate (item world k) = Normal tt
                /\ failureUpdate (item world k) = Normal tt)
  /\ finalUpdate world = Normal tt.

Lemma bulkCreateProducts_returns world shopName payload store :
  store_answers world ->
  exists sessionId imported failed entries,
    fst (bulkCreateProducts world shopName payload store)
    = ImportSummary sessionId imported failed
        (List.length (resolveProducts world payload)) entries.
Proof.
  intros ([sid Hc] & Hw & Hf). unfold bulkCreateProducts. rewrite Hc.
  unfold runImport, seq.
  match goal with
  | |- context [batchLoop ?a ?b ?c ?d ?e ?f ?g ?h ?s] =>
      pose proof (batchLoop_returns a b c d e f g h s
                    (resolveProducts_objects world payload) Hw) as H;
      destruct (batchLoop a b c d e f g h s) as [[[] | m] st1];
      [ | discriminate]
  end.
  unfold sessionUpdate. rewrite Hf. cbn. eexists. eexists. eexists. eexists.
  reflexivity.
Qed.

(** An invariant of the loop state is kept by an iteration, and by the
    loop, once the four kinds of statement that change the state keep it. *)
Section LoopInvariant.

Variables (shopName sessionId : string) (total : nat).
Variable I : LoopState -> Prop.

Hypothesis I_incrFailed : preserves I incrFailed.
Hypothesis I_pushResult : forall entry, preserves I (pushResult entry).
Hypothesis I_sessionUpdate :
  forall outcome t,
    t = None \/ t = Some total ->
    preserves I (sessionUpdate outcome sessionId "processing" t None).
Hypothesis I_recordSuccess :
  forall w productId p entry,
    preserves I (recordSuccess w shopName sessionId productId p entry).

Ltac keeps_invariant :=
  repeat first
    [ apply preserves_ret
    | apply preserves_lift
    | apply I_incrFailed
    | apply I_pushResult
    | apply I_sessionUpdate; auto
    | apply I_recordSuccess
    | apply preserves_try; [ | intros ? ]
    | apply preserves_seq; [ | intros ? ]
    | match goal with
      | |- preserves _ (match ?x with _ => _ end) => destruct x
      | |- preserves _ (if ?x then _ else _) => destruct x
      end ].

Lemma invariant_tryItem w markupConfig importConfig pd :
  preserves I (tryItem w markupConfig importConfig shopName sessionId pd).
Proof. unfold tryItem. keeps_invariant. Qed.

Lemma invariant_catchItem w pd message :
  preserves I (catchItem w sessionId pd message).
Proof. unfold catchItem. keeps_invariant. Qed.

Lemma invariant_processItem w markupConfig importConfig pd :
  preserves I
    (processItem w markupConfig importConfig shopName sessionId total pd).
Proof.
  unfold processItem.
  apply preserves_seq; [apply preserves_lift | intros _].
  apply preserves_seq; [apply I_sessionUpdate; auto | intros _].
  apply preserves_try; [apply invariant_tryItem | intros m].
  apply invariant_catchItem.
Qed.

Lemma invariant_batchLoop world markupConfig importConfig products i :
  preserves I
    (batchLoop world markupConfig importConfig shopName sessionId total
       products i).
Proof.
  revert i. induction products as [ | pd r IH]; intros i; cbn [batchLoop].
  - apply preserves_ret.
  - apply preserves_seq; [apply invariant_processItem | intros _; apply IH].
Qed.

End LoopInvariant.

(** At least [n] session writes were made. *)
Definition written (n : nat) (st : LoopState) : Prop :=
  (n <= List.length (history st))%nat.

Lemma written_sessionUpdate n outcome sessionId newStatus t completed :
  preserves (written n)
    (sessionUpdate outcome sessionId newStatus t completed).
Proof.
  intros st H. unfold sessionUpdate, written in *.
  destruct outcome as [[] | m]; cbn; [ | exact H].
  rewrite length_app. lia.
Qed.

Lemma written_recordSuccess n w shopName sessionId productId p entry :
  preserves (written n)
    (recordSuccess w shopName sessionId productId p entry).
Proof.
  unfold recordSuccess.
  apply preserves_seq; [intros st H; exact H | intros _].
  apply preserves_seq.
  { apply preserves_try; [apply written_sessionUpdate | intros m st H; exact H]. }
  intros _. apply preserves_seq.
  { apply preserves_try; [ | intros m st H; exact H].
    intros st H. unfold createRecord. destruct (saveRecord w); exact H. }
  intros _ st H. exact H.
Qed.

Lemma written_tryItem n w markupConfig importConfig shopName sessionId pd :
  preserves (written n)
    (tryItem w markupConfig importConfig shopName sessionId pd).
Proof.
  apply invariant_tryItem.
  - intros st H. exact H.
  - intros entry st H. exact H.
  - intros w' productId p entry. apply written_recordSuccess.
Qed.

Lemma written_catchItem n w sessionId pd message :
  preserves (written n) (catchItem w sessionId pd message).
Proof.
  apply invariant_catchItem with (total := 0%nat).
  - intros st H. exact H.
  - intros entry st H. exact H.
  - intros outcome t _. apply written_sessionUpdate.
Qed.

(** An iteration that returns has made its head write. *)
Lemma processItem_head_write w markupConfig importConfig shopName sessionId
    total pd st st' :
  processItem w markupConfig importConfig shopName sessionId total pd st
  = (Normal tt, st') ->
  (S (List.length (history st)) <= List.length (history st'))%nat.
Proof.
  unfold processItem.
  unfold seq at 1. unfold lift at 1.
  destruct (get_strict pd "title") as [t | m]; [ | discriminate].
  unfold seq at 1. unfold sessionUpdate at 1.
  destruct (headUpdate w) as [[] | m]; [ | discriminate].
  match goal with
  | |- context [try_catch ?b ?h ?s] =>
      pose proof (preserves_try (written (S (List.length (history st)))) b h
                    (written_tryItem _ _ _ _ _ _ _)
                    (fun m => written_catchItem _ _ _ _ m) s) as H
  end.
  intros E. rewrite E in H. apply H. unfold written. cbn [history].
  rewrite length_app. simpl. lia.
Qed.

Lemma batchLoop_head_writes world markupConfig importConfig shopName sessionId
    total products i st st' :
  batchLoop world markupConfig importConfig shopName sessionId total
    products i st = (Normal tt, st') ->
  (List.length (history st) + List.length products
   <= List.length (history st'))%nat.
Proof.
  revert i st. induction products as [ | pd r IH]; intros i st E.
  - cbn in E. injection E as <-. simpl. lia.
  - cbn [batchLoop] in E. unfold seq in E.
    destruct (processItem _ _ _ _ _ _ _ st) as [[[] | m] st1] eqn:E1;
      [ | discriminate].
    apply IH in E. apply processItem_head_write in E1.
    cbn [List.length]. lia.
Qed.

(** C4, amended: in every import run the successive session updates
    carry non-decreasing values of both counters, every update made by the
    loop leaves the status at [processing], and the session is finalized at
    most once.  A run in which every session write goes through returns its
    summary; a run that returns its summary has made at least one write per
    product and then exactly one finalizing update (status [completed],
    [completedAt] stamped), as its last write, after the loop, with the
    counts it reports; a run that ends in an error (a session write at the
    loop head, in the per-item handler or after the loop threw) has not
    finalized the session. *)
Theorem session_writes_monotone world shopName payload store :
  let run := bulkCreateProducts world shopName payload store in
  StronglySorted counts_le (history (snd run))
  /\ (finalizations (history (snd run)) <= 1)%nat
  /\ match fst run with
     | ImportSummary _ imported failed total _ =>
         exists before final,
           history (snd run) = (before ++ [final])%list
           /\ Forall in_progress before
           /\ (total <= List.length before)%nat
           /\ finalizations (history (snd run)) = 1%nat
           /\ setStatus final = "completed"
           /\ setCompletedAt final = Some (now world)
           /\ setImported final = imported
           /\ setFailed final = failed
     | ImportFailure _ =>
         Forall in_progress (history (snd run))
         /\ finalizations (history (snd run)) = 0%nat
     end
  /\ (store_answers world ->
      exists sessionId imported failed entries,
        fst run
        = ImportSummary sessionId imported failed
            (List.length (resolveProducts world payload)) entries).
Proof.
  cbv zeta.
  assert (H : forall A B C D : Prop, A /\ B /\ C -> D -> A /\ B /\ C /\ D)
    by tauto.
  apply H; clear H.
  2:{ intros Hs. now apply bulkCreateProducts_returns. }
  unfold bulkCreateProducts.
  destruct (createSession world) as [sessionId | m].
  2:{ cbn. split; [constructor | ]. split; [auto | ].
      split; [constructor | reflexivity]. }
  set (store' := {| sessions := _; importedProduct := _ |}).
  unfold runImport, seq.
  pose proof (running_batchLoop (item world) (Payload.markupConfig payload)
                (Payload.importConfig payload) shopName sessionId
                (List.length (resolveProducts world payload))
                (resolveProducts world payload) 0 (initialState store')
                (running_initial store')) as Hrun.
  destruct (batchLoop _ _ _ _ _ _ _ _ (initialState store'))
    as [[[] | m] st1] eqn:Eloop; cbn [snd] in Hrun.
  - pose proof (running_in_progress _ Hrun) as Hip.
    unfold sessionUpdate. destruct (finalUpdate world) as [[] | m'];
      cbn [fst snd history].
    + assert (Hone : finalizations
                       (history st1
                        ++ [{| setStatus := "completed";
                               setImported := importedCount st1;
                               setFailed := failedCount st1;
                               setTotal := None;
                               setCompletedAt := Some (now world) |}])%list
                     = 1%nat)
        by now apply finalizations_snoc.
      split.
      { destruct Hrun as [Hs Hf]. apply sorted_snoc; [exact Hs | ].
        apply Forall_impl with (2 := Hf). intros d (H1 & H2 & _). now split. }
      split; [rewrite Hone; lia | ].
      exists (history st1). eexists. split; [reflexivity | ].
      split; [exact Hip | ].
      split.
      { pose proof (batchLoop_head_writes _ _ _ _ _ _ _ _ _ _ Eloop) as H.
        cbn in H. exact H. }
      split; [exact Hone | ].
      repeat split.
    + rewrite (finalizations_in_progress _ Hip).
      split; [apply Hrun | ]. split; [lia | ]. split; [exact Hip | reflexivity].
  - pose proof (running_in_progress _ Hrun) as Hip.
    cbn [fst snd]. rewrite (finalizations_in_progress _ Hip).
    split; [apply Hrun | ]. split; [lia | ]. split; [exact Hip | reflexivity].
Qed.

(** ** Batch loop: the counters *)

(** The state after the session update at the head of an iteration. *)
Definition after_head (sessionId : string) (total : nat) (st : LoopState)
  : LoopState :=
  snd (sessionUpdate (Normal tt) sessionId "processing" (Some total) None st).

(** Exactly one of the two counters grew, by one. *)
Definition one_counted (st st' : LoopState) : Prop :=
  (importedCount st' = S (importedCount st)
   /\ failedCount st' = failedCount st)
  \/ (importedCount st' = importedCount st
      /\ failedCount st' = S (failedCount st)).

Ltac run_loop :=
  unfold recordSuccess, seq, lift, try_catch, ret, sessionUpdate, createRecord,
    incrImported, incrFailed, pushResult, modify;
  repeat (cbn [fst snd importedCount failedCount results];
          match goal with
          | |- context [match ?x with _ => _ end] =>
              lazymatch x with
              | context [match _ with _ => _ end] => fail
              | _ => destruct x
              end
          end).

(** The per-item [try]: it returns having counted the item once and pushed
    one entry, or throws having changed nothing. *)
Lemma tryItem_outcome w markupConfig importConfig shopName sessionId pd st :
  match tryItem w markupConfig importConfig shopName sessionId pd st with
  | (Normal _, st') =>
      exists entry,
        results st' = (results st ++ [entry])%list
        /\ (success entry = true ->
            importedCount st' = S (importedCount st)
            /\ failedCount st' = failedCount st)
        /\ (success entry = false ->
            importedCount st' = importedCount st
            /\ failedCount st' = S (failedCount st))
  | (Throw _, st') => st' = st
  end.
Proof.
  unfold tryItem. run_loop; try reflexivity;
    eexists; (split; [reflexivity | ]); cbn; split; intros H;
    try discriminate; split; reflexivity.
Qed.

(** One iteration: it returns having counted the item once and pushed one
    entry (a success when [importedCount] grew, a failure when [failedCount]
    did); when a throw leaves it, no entry was pushed. *)
Lemma processItem_outcome w markupConfig importConfig shopName sessionId
    total pd st :
  match processItem w markupConfig importConfig shopName sessionId total pd st
  with
  | (Normal _, st') =>
      exists entry,
        results st' = (results st ++ [entry])%list
        /\ (success entry = true ->
            importedCount st' = S (importedCount st)
            /\ failedCount st' = failedCount st)
        /\ (success entry = false ->
            importedCount st' = importedCount st
            /\ failedCount st' = S (failedCount st))
  | (Throw _, st') =>
      results st' = results st
      /\ importedCount st' = importedCount st
      /\ (failedCount st' = failedCount st
          \/ failedCount st' = S (failedCount st))
  end.
Proof.
  unfold processItem.
  unfold seq at 1. unfold lift at 1.
  destruct (get_strict pd "title") as [t | m] eqn:Ht; [ | cbn; auto].
  unfold seq at 1. unfold sessionUpdate at 1.
  destruct (headUpdate w) as [[] | m]; [ | cbn; auto].
  match goal with
  | |- context [try_catch _ _ ?s] => set (st1 := s)
  end.
  unfold try_catch.
  pose proof (tryItem_outcome w markupConfig importConfig shopName sessionId
                pd st1) as H.
  destruct (tryItem w markupConfig importConfig shopName sessionId pd st1)
    as [[[] | m] st2].
  - exact H.
  - subst st2. unfold catchItem. rewrite Ht.
    run_loop; cbn; auto; eexists; (split; [reflexivity | ]); cbn;
      (split; intros H; [discriminate | split; reflexivity]).
Qed.

Lemma processItem_one_counted w markupConfig importConfig shopName sessionId
    total pd st st' :
  processItem w markupConfig importConfig shopName sessionId total pd st
  = (Normal tt, st') ->
  one_counted st st'
  /\ List.length (results st') = S (List.length (results st)).
Proof.
  intros E.
  pose proof (processItem_outcome w markupConfig importConfig shopName
                sessionId total pd st) as H.
  rewrite E in H. destruct H as (entry & Hr & Ht & Hf).
  split.
  - unfold one_counted. destruct (success entry); [left | right]; auto.
  - rewrite Hr, length_app. simpl. lia.
Qed.

(** The loop, when it runs to its end, has counted every product once. *)
Lemma batchLoop_counts world markupConfig importConfig shopName sessionId
    total products i st st' :
  batchLoop world markupConfig importConfig shopName sessionId total
    products i st = (Normal tt, st') ->
  (importedCount st' + failedCount st'
   = importedCount st + failedCount st + List.length products)%nat
  /\ (List.length (results st')
      = List.length (results st) + List.length products)%nat.
Proof.
  revert i st. induction products as [ | pd r IH]; intros i st E.
  - cbn in E. injection E as <-. simpl. lia.
  - cbn [batchLoop] in E. unfold seq in E.
    destruct (processItem _ _ _ _ _ _ _ st) as [[[] | m] st1] eqn:E1;
      [ | discriminate].
    apply processItem_one_counted in E1. destruct E1 as [Hone Hlen].
    apply IH in E. destruct E as [Hc Hr]. simpl.
    destruct Hone as [[H1 H2] | [H1 H2]]; lia.
Qed.

(** The session row of the run is in the store. *)
Definition has_session (sessionId : string) (st : LoopState) : Prop :=
  exists s, findSession sessionId (db st) = Some s.

Lemma findSession_updateSession sessionId d store :
  findSession sessionId (updateSession sessionId d store)
  = option_map (apply_data d) (findSession sessionId store).
Proof.
  unfold findSession, updateSession. cbn [sessions].
  induction (sessions store) as [ | s l IH]; [reflexivity | ].
  cbn [map find]. destruct (String.eqb (id s) sessionId) eqn:E.
  - cbn [apply_data id]. now rewrite E.
  - now rewrite E.
Qed.

Section SessionKept.

Variable sessionId : string.

Lemma session_kept_modify f :
  (forall st, db (f st) = db st) ->
  preserves (has_session sessionId) (modify f).
Proof.
  intros Hf st [s Hs]. exists s. cbn. now rewrite Hf.
Qed.

Lemma session_kept_createRecord outcome r :
  preserves (has_session sessionId) (createRecord outcome r).
Proof.
  intros st H. unfold createRecord. destruct outcome; exact H.
Qed.

Lemma session_kept_sessionUpdate outcome newStatus total completed :
  preserves (has_session sessionId)
    (sessionUpdate outcome sessionId newStatus total completed).
Proof.
  intros st [s Hs]. unfold sessionUpdate. destruct outcome as [[] | m];
    [ | now exists s].
  eexists. cbn [snd db]. rewrite findSession_updateSession, Hs. reflexivity.
Qed.

Ltac keeps_session :=
  repeat first
    [ apply preserves_ret
    | apply preserves_lift
    | apply session_kept_modify; reflexivity
    | apply session_kept_createRecord
    | apply session_kept_sessionUpdate
    | apply preserves_try; [ | intros ? ]
    | apply preserves_seq; [ | intros ? ]
    | match goal with
      | |- preserves _ (match ?x with _ => _ end) => destruct x
      end ].

Lemma session_kept_processItem w markupConfig importConfig shopName total pd :
  preserves (has_session sessionId)
    (processItem w markupConfig importConfig shopName sessionId total pd).
Proof.
  unfold processItem, tryItem, catchItem, recordSuccess, incrImported,
    incrFailed, pushResult.
  keeps_session.
Qed.

Lemma session_kept_batchLoop world markupConfig importConfig shopName total
    products i :
  preserves (has_session sessionId)
    (batchLoop world markupConfig importConfig shopName sessionId total
       products i).
Proof.
  revert i. induction products as [ | pd r IH]; intros i; cbn [batchLoop].
  - apply preserves_ret.
  - apply preserves_seq; [apply session_kept_processItem | intros _; apply IH].
Qed.

End SessionKept.

Lemma findSession_new store s :
  exists s', findSession (id s)
               {| sessions := (sessions store ++ [s])%list;
                  importedProduct := importedProduct store |} = Some s'.
Proof.
  unfold findSession. cbn [sessions].
  induction (sessions store) as [ | x l IH]; cbn.
  - rewrite String.eqb_refl. now exists s.
  - destruct (String.eqb (id x) (id s)); [now exists x | exact IH].
Qed.

(** The item was counted as imported, or as failed. *)
Definition counted_imported (st st' : LoopState) : Prop :=
  importedCount st' = S (importedCount st)
  /\ failedCount st' = failedCount st.

Definition counted_failed (st st' : LoopState) : Prop :=
  importedCount st' = importedCount st
  /\ failedCount st' = S (failedCount st).

(** The catalog took the product: the update of the existing product went
    through, or the create call answered with a product. *)
Definition catalog_accepted (w : ItemWorld) : Prop :=
  (exists existingId productId,
     existingProduct w = Some existingId
     /\ updateProduct w = Normal productId)
  \/ (exists createdProduct, createProduct w = Normal (Some createdProduct)).

(** What a returned [try] did, by the entry it pushed. *)
Definition counted_by_entry (w : ItemWorld) (st st' : LoopState)
    (entry : ResultEntry) : Prop :=
  (success entry = true /\ error entry = None
   /\ counted_imported st st' /\ catalog_accepted w)
  \/ (success entry = false
      /\ error entry = Some "Product creation failed"
      /\ counted_failed st st'
      /\ createProduct w = Normal None).

Lemma tryItem_classified w markupConfig importConfig shopName sessionId pd st :
  match tryItem w markupConfig importConfig shopName sessionId pd st with
  | (Normal _, st') =>
      exists entry,
        results st' = (results st ++ [entry])%list
        /\ counted_by_entry w st st' entry
  | (Throw _, st') => st' = st
  end.
Proof.
  unfold tryItem, counted_by_entry, counted_imported, counted_failed,
    catalog_accepted.
  run_loop; try reflexivity;
    eexists; (split; [reflexivity | ]); cbn;
    first [ left; split; [reflexivity | ]; split; [reflexivity | ];
            split; [split; reflexivity | ];
            first [ left; eexists; eexists; split; reflexivity
                  | right; eexists; reflexivity ]
          | right; repeat split; reflexivity ].
Qed.

(** The product as the [try] has it before the catalog is called: after
    the markup, with its status set, and the image addresses found in it. *)
Definition prepared (markupConfig : MarkupConfig) (importConfig : string)
    (pd processedProduct : jsval) (productImages : list string) : Prop :=
  exists marked,
    applyMarkupRules pd markupConfig = Normal marked
    /\ set marked "status"
         (JStr (if String.eqb importConfig "published" then "ACTIVE"
                else "DRAFT"))
       = Normal processedProduct
    /\ collect_images processedProduct = Normal productImages.

(** No update was made: no existing product was found, or its update
    threw. *)
Definition not_updated (w : ItemWorld) : Prop :=
  existingProduct w = None \/ exists message, updateProduct w = Throw message.

(** The calls that follow a create went through. *)
Definition follow_up_succeeds (w : ItemWorld) (processedProduct : jsval)
    (productImages : list string) : Prop :=
  (productImages = [] \/ createMedia w = Normal tt)
  /\ (has_variants processedProduct = false
      \/ (build_variant_inputs processedProduct = Normal tt
          /\ createVariants w = Normal tt)).

Lemma tryItem_updated w markupConfig importConfig shopName sessionId pd st
    processedProduct productImages existingId productId :
  prepared markupConfig importConfig pd processedProduct productImages ->
  existingProduct w = Some existingId ->
  updateProduct w = Normal productId ->
  fst (tryItem w markupConfig importConfig shopName sessionId pd st)
  = Normal tt
  /\ counted_imported st
       (snd (tryItem w markupConfig importConfig shopName sessionId pd st)).
Proof.
  intros (marked & H1 & H2 & H3) He Hu.
  unfold tryItem, seq, lift, try_catch, ret. rewrite H1, H2, H3, He, Hu.
  unfold counted_imported. run_loop; split; try reflexivity; split; reflexivity.
Qed.

Lemma tryItem_created w markupConfig importConfig shopName sessionId pd st
    processedProduct productImages createdProduct :
  prepared markupConfig importConfig pd processedProduct productImages ->
  not_updated w ->
  createProduct w = Normal (Some createdProduct) ->
  follow_up_succeeds w processedProduct productImages ->
  fst (tryItem w markupConfig importConfig shopName sessionId pd st)
  = Normal tt
  /\ counted_imported st
       (snd (tryItem w markupConfig importConfig shopName sessionId pd st)).
Proof.
  intros (marked & H1 & H2 & H3) Hn Hc [Hm Hv].
  unfold tryItem, seq, lift, try_catch, ret. rewrite H1, H2, H3, Hc.
  unfold counted_imported.
  destruct Hn as [Hn | [m Hn]]; rewrite Hn;
    destruct Hm as [Hm | Hm]; rewrite Hm;
    destruct Hv as [Hv | [Hv Hv']]; rewrite Hv, ?Hv';
    run_loop; split; try reflexivity; split; reflexivity.
Qed.

Lemma tryItem_refused w markupConfig importConfig shopName sessionId pd st
    processedProduct productImages :
  prepared markupConfig importConfig pd processedProduct productImages ->
  not_updated w ->
  createProduct w = Normal None ->
  tryItem w markupConfig importConfig shopName sessionId pd st
  = (Normal tt,
     snd ((incrFailed ;;;
           pushResult {| success := false;
                         product := get processedProduct "title";
                         error := Some "Product creation failed" |}) st)).
Proof.
  intros (marked & H1 & H2 & H3) Hn Hc.
  unfold tryItem, seq, lift, try_catch, ret. rewrite H1, H2, H3, Hc.
  destruct Hn as [Hn | [m Hn]]; rewrite Hn; run_loop; reflexivity.
Qed.

(** Collaborators and data of the examples. *)
Definition all_calls_succeed (productId : string) : ItemWorld :=
  {| headUpdate := Normal tt;
     existingProduct := None;
     updateProduct := Normal productId;
     createProduct := Normal (Some (JObj [("id", JStr productId)]));
     createMedia := Normal tt;
     createVariants := Normal tt;
     progressUpdate := Normal tt;
     saveRecord := Normal tt;
     failureUpdate := Normal tt |}.

(** The update of an existing product throws; the create that follows
    succeeds. *)
Definition update_throws : ItemWorld :=
  {| headUpdate := Normal tt;
     existingProduct := Some "gid://shopify/Product/7";
     updateProduct := Throw "Product does not exist";
     createProduct :=
       Normal (Some (JObj [("id", JStr "gid://shopify/Product/8")]));
     createMedia := Normal tt;
     createVariants := Normal tt;
     progressUpdate := Normal tt;
     saveRecord := Normal tt;
     failureUpdate := Normal tt |}.

(** The create call throws. *)
Definition create_throws : ItemWorld :=
  {| headUpdate := Normal tt;
     existingProduct := None;
     updateProduct := Normal "";
     createProduct := Throw "Network request failed";
     createMedia := Normal tt;
     createVariants := Normal tt;
     progressUpdate := Normal tt;
     saveRecord := Normal tt;
     failureUpdate := Normal tt |}.


(** The session update at the head of the iteration throws. *)
Definition head_write_throws : ItemWorld :=
  {| headUpdate := Throw "Database is locked";
     existingProduct := None;
     updateProduct := Normal "";
     createProduct :=
       Normal (Some (JObj [("id", JStr "gid://shopify/Product/1")]));
     createMedia := Normal tt;
     createVariants := Normal tt;
     progressUpdate := Normal tt;
     saveRecord := Normal tt;
     failureUpdate := Normal tt |}.

Definition no_markup : MarkupConfig :=
  {| conditions := []; conditionsType := "any" |}.

Definition one_session_store : Db :=
  {| sessions := [newSession "s1" 1]; importedProduct := [] |}.

(** C9, counterexample: the session update at the head of an iteration
    throws; the iteration ends there, and the run with it, with neither
    counter incremented. *)
Lemma head_write_error_counts_nothing :
  processItem head_write_throws no_markup "draft" "demo.myshopify.com" "s1" 1
    (shirt_priced "19.99") (initialState one_session_store)
  = (Throw "Database is locked", initialState one_session_store)
  /\ importedCount (initialState one_session_store) = 0%nat
  /\ failedCount (initialState one_session_store) = 0%nat.
Proof. repeat split; vm_compute; reflexivity. Qed.

(** C9, amended: an iteration of the batch loop whose head session write
    goes through increments exactly one of [importedCount] and
    [failedCount], by one: a success path (the update of an existing
    product went through, or the create call answered with a product and
    the calls that follow it went through) increments [importedCount]; a
    create response without a product, or a thrown error that reaches the
    per-item handler, increments [failedCount]; an iteration whose head
    session write throws increments neither.  So, when the loop has ended
    and the session is finalized, the response, the final session write and
    the session row all satisfy
    [importedProducts + failedProducts = productsToProcess.length], with one
    result entry per product. *)
Theorem counters_partition_products :
  (forall w markupConfig importConfig shopName sessionId total pd st,
     nullish pd = false ->
     let r := processItem w markupConfig importConfig shopName sessionId
                total pd st in
     let t := tryItem w markupConfig importConfig shopName sessionId pd
                (after_head sessionId total st) in
     (forall message, headUpdate w = Throw message -> r = (Throw message, st))
     /\ (headUpdate w = Normal tt ->
         (fst t = Normal tt ->
          r = t
          /\ exists entry,
               results (snd r) = (results st ++ [entry])%list
               /\ counted_by_entry w st (snd r) entry)
         /\ (forall message,
               fst t = Throw message -> counted_failed st (snd r))
         /\ (forall processedProduct productImages,
               prepared markupConfig importConfig pd processedProduct
                 productImages ->
               (forall existingId productId,
                  existingProduct w = Some existingId ->
                  updateProduct w = Normal productId ->
                  fst r = Normal tt /\ counted_imported st (snd r))
               /\ (forall createdProduct,
                     not_updated w ->
                     createProduct w = Normal (Some createdProduct) ->
                     follow_up_succeeds w processedProduct productImages ->
                     fst r = Normal tt /\ counted_imported st (snd r))
               /\ (not_updated w ->
                   createProduct w = Normal None ->
                   fst r = Normal tt /\ counted_failed st (snd r)))))
  /\ (forall world shopName payload store sessionId imported failed total
             entries st,
        bulkCreateProducts world shopName payload store
        = (ImportSummary sessionId imported failed total entries, st) ->
        (imported + failed = total)%nat
        /\ total = List.length (resolveProducts world payload)
        /\ List.length entries = total
        /\ (exists before final,
              history st = (before ++ [final])%list
              /\ setStatus final = "completed"
              /\ (setImported final + setFailed final = total)%nat)
        /\ (exists s,
              findSession sessionId (db st) = Some s
              /\ status s = "completed"
              /\ completedAt s = Some (now world)
              /\ importedProducts s = imported
              /\ failedProducts s = failed
              /\ (importedProducts s + failedProducts s = total)%nat)).
Proof.
  split.
  { intros w markupConfig importConfig shopName sessionId total pd st Hpd r t.
    assert (Er : r = match headUpdate w with
                     | Normal _ =>
                         try_catch
                           (tryItem w markupConfig importConfig shopName
                              sessionId pd)
                           (catchItem w sessionId pd)
                           (after_head sessionId total st)
                     | Throw m => (Throw m, st)
                     end).
    { unfold r, processItem. unfold seq at 1. unfold lift at 1, get_strict at 1.
      rewrite Hpd. unfold seq at 1.
      destruct (headUpdate w) as [[] | m]; reflexivity. }
    split.
    { intros message Hh. now rewrite Er, Hh. }
    intros Hh. rewrite Hh in Er. unfold try_catch in Er. fold t in Er.
    pose proof (tryItem_classified w markupConfig importConfig shopName
                  sessionId pd (after_head sessionId total st)) as Hcl.
    fold t in Hcl.
    assert (Hok : fst t = Normal tt ->
                  r = t
                  /\ exists entry,
                       results (snd r) = (results st ++ [entry])%list
                       /\ counted_by_entry w st (snd r) entry).
    { intros Ht. destruct t as [[[] | m] st'] eqn:Et; [ | discriminate].
      split; [exact Er | ]. rewrite Er. exact Hcl. }
    assert (Hthrow : forall message,
               fst t = Throw message -> counted_failed st (snd r)).
    { intros message Ht. destruct t as [[[] | m] st'] eqn:Et; [discriminate | ].
      subst st'. rewrite Er. unfold catchItem, counted_failed.
      unfold get_strict. rewrite Hpd.
      destruct (failureUpdate w) as [[] | m']; split; reflexivity. }
    split; [exact Hok | ]. split; [exact Hthrow | ].
    intros processedProduct productImages Hprep.
    assert (Hin : fst t = Normal tt ->
                  counted_imported (after_head sessionId total st) (snd t) ->
                  fst r = Normal tt /\ counted_imported st (snd r)).
    { intros Ht Hc. destruct (Hok Ht) as [-> _]. split; [exact Ht | exact Hc]. }
    split; [ | split].
    - intros existingId productId He Hu.
      destruct (tryItem_updated w markupConfig importConfig shopName sessionId
                  pd (after_head sessionId total st) _ _ _ _ Hprep He Hu)
        as [H1 H2].
      fold t in H1, H2. now apply Hin.
    - intros createdProduct Hn Hc Hf.
      destruct (tryItem_created w markupConfig importConfig shopName sessionId
                  pd (after_head sessionId total st) _ _ _ Hprep Hn Hc Hf)
        as [H1 H2].
      fold t in H1, H2. now apply Hin.
    - intros Hn Hc.
      pose proof (tryItem_refused w markupConfig importConfig shopName
                    sessionId pd (after_head sessionId total st) _ _ Hprep Hn Hc)
        as H.
      fold t in H. destruct (Hok ltac:(now rewrite H)) as [-> _].
      rewrite H. split; [reflexivity | split; reflexivity]. }
  intros world shopName payload store sessionId imported failed total entries
    st E.
  unfold bulkCreateProducts in E.
  destruct (createSession world) as [sid | m]; [ | discriminate].
  set (store' := {| sessions := _; importedProduct := _ |}) in E.
  unfold runImport, seq in E.
  destruct (batchLoop _ _ _ _ _ _ _ _ (initialState store'))
    as [[[] | m] st1] eqn:Eloop; [ | discriminate].
  pose proof (batchLoop_counts _ _ _ _ _ _ _ _ _ _ Eloop) as [Hc Hr].
  assert (Hsess : has_session sid st1).
  { change st1 with (snd (Normal tt, st1)). rewrite <- Eloop.
    apply session_kept_batchLoop.
    apply (findSession_new store
             (newSession sid (Payload.totalProducts payload))). }
  unfold sessionUpdate in E.
  destruct (finalUpdate world) as [[] | m]; [ | discriminate].
  injection E as <- <- <- <- <- <-.
  cbn [initialState importedCount failedCount results List.length Nat.add]
    in Hc, Hr.
  cbn [db history importedCount failedCount results].
  split; [lia | ]. split; [reflexivity | ]. split; [lia | ].
  split.
  - eexists. eexists. split; [reflexivity | ]. cbn. split; [reflexivity | lia].
  - destruct Hsess as [s0 Hs0]. eexists.
    rewrite findSession_updateSession, Hs0. cbn.
    split; [reflexivity | ]. repeat split. exact Hc.
Qed.

(** ** Batch loop: a failing item *)









(** ** A complete run *)

Definition two_products : CsvData :=
  {| headers := ["Title"; "Variant Price"];
     rows := [[("Title", "A"); ("Variant Price", "10.00")];
              [("Title", "B"); ("Variant Price", "20.00")]] |}.

Definition five_on_A : MarkupConfig :=
  {| conditions :=
       [{| field := "title"; attribute := None; operator := "eq"; value := "A";
           markupType := "fixed"; markupValue := JNum 5 |}];
     conditionsType := "any" |}.

Definition two_products_payload : Payload.t :=
  {| Payload.dataSource := "csv";
     Payload.csvData := Some two_products;
     Payload.apiCredentials := false;
     Payload.keyMappings := [];
     Payload.importFilters := {| selectedValues := [] |};
     Payload.markupConfig := five_on_A;
     Payload.importConfig := "draft";
     Payload.totalProducts := 2 |}.

Definition quiet_world : World :=
  {| createSession := Normal "session-1";
     fetched := FetchThrows;
     item := fun i =>
       all_calls_succeed ("gid://shopify/Product/" ++ decimal (Z.of_nat i));
     finalUpdate := Normal tt;
     now := 1700000000%Z |}.

Definition empty_store : Db := {| sessions := []; importedProduct := [] |}.

Definition two_products_run : ActionResponse * LoopState :=
  bulkCreateProducts quiet_world "demo.myshopify.com" two_products_payload
    empty_store.

(** The end-to-end example: product A ends at 15.00, product B stays at
    20.00, and the session ends with 2 imported and 0 failed. *)
Example two_products_imported :
  map (fun p => option_map (fun q => first_price q)
                  (match applyMarkupRules p five_on_A with
                   | Normal q => Some q
                   | Throw _ => None
                   end))
    (resolveProducts quiet_world two_products_payload)
  = [Some (JStr "15.00"); Some (JStr "20.00")]
  /\ (exists entries,
        fst two_products_run = ImportSummary "session-1" 2 0 2 entries)
  /\ findSession "session-1" (db (snd two_products_run))
     = Some {| id := "session-1"; status := "completed"; totalProducts := 2;
               importedProducts := 2; failedProducts := 0;
               completedAt := Some 1700000000%Z |}
  /\ map title (importedProduct (db (snd two_products_run))) = ["A"; "B"].
Proof.
  split; [vm_compute; reflexivity | ].
  split; [eexists; vm_compute; reflexivity | ].
  split; vm_compute; reflexivity.
Qed.

Lemma counters_partition_products_witness :
  counted_imported (initialState one_session_store)
    (snd (processItem update_throws no_markup "draft" "demo.myshopify.com"
            "s1" 1 (shirt_priced "19.99") (initialState one_session_store)))
  /\ counted_failed (initialState one_session_store)
       (snd (processItem create_throws no_markup "draft" "demo.myshopify.com"
               "s1" 1 (shirt_priced "19.99") (initialState one_session_store)))
  /\ exists s,
       findSession "session-1" (db (snd two_products_run)) = Some s
       /\ (importedProducts s + failedProducts s = 2)%nat.
Proof.
  split; [ | split].
  - destruct (proj1 counters_partition_products update_throws no_markup
                "draft" "demo.myshopify.com" "s1" 1%nat (shirt_priced "19.99")
                (initialState one_session_store) eq_refl)
      as (_ & H).
    destruct (H eq_refl) as (_ & _ & Hprep).
    assert (P : exists p imgs,
               prepared no_markup "draft" (shirt_priced "19.99") p imgs).
    { eexists. eexists. eexists.
      split; [reflexivity | ]. split; [reflexivity | ].
      vm_compute. reflexivity. }
    destruct P as (p & imgs & P).
    destruct (Hprep p imgs P) as (_ & Hcreate & _).
    refine (proj2 (Hcreate _ _ eq_refl _)).
    + right. eexists. reflexivity.
    + destruct P as (marked & H1 & H2 & H3).
      vm_compute in H1. injection H1 as <-.
      vm_compute in H2. injection H2 as <-.
      vm_compute in H3. injection H3 as <-.
      split; [now left | right; split; reflexivity].
  - destruct (proj1 counters_partition_products create_throws no_markup
                "draft" "demo.myshopify.com" "s1" 1%nat (shirt_priced "19.99")
                (initialState one_session_store) eq_refl)
      as (_ & H).
    destruct (H eq_refl) as (_ & Hthrow & _).
    apply (Hthrow "Network request failed"). reflexivity.
  - unfold two_products_run.
    destruct (bulkCreateProducts quiet_world "demo.myshopify.com"
                two_products_payload empty_store)
      as [[sid imp fl tot ents | m] st] eqn:E.
    + pose proof (proj2 counters_partition_products _ _ _ _ _ _ _ _ _ _ E)
        as (_ & _ & _ & _ & s & Hs & _ & _ & _ & _ & Hsum).
      vm_compute in E. injection E as <- <- <- <- _ _.
      exists s. split; [exact Hs | exact Hsum].
    + vm_compute in E. discriminate.
Defined.

(** The create call of the first product throws, and so does the session
    update in the per-item handler. *)
Definition handler_write_throws (i : nat) : ItemWorld :=
  match i with
  | O =>
      {| headUpdate := Normal tt;
         existingProduct := None;
         updateProduct := Normal "";
         createProduct := Throw "Network request failed";
         createMedia := Normal tt;
         createVariants := Normal tt;
         progressUpdate := Normal tt;
         saveRecord := Normal tt;
         failureUpdate := Throw "Database is locked" |}
  | S _ => all_calls_succeed "gid://shopify/Product/9"
  end.

Definition locked_world : World :=
  {| createSession := Normal "session-1";
     fetched := FetchThrows;
     item := handler_write_throws;
     finalUpdate := Normal tt;
     now := 1700000000%Z |}.

(** The store answers until the loop has ended, and then refuses the final
    session update. *)
Definition final_write_throws : World :=
  {| createSession := Normal "session-1";
     fetched := FetchThrows;
     item := fun i =>
       all_calls_succeed ("gid://shopify/Product/" ++ decimal (Z.of_nat i));
     finalUpdate := Throw "Database is locked";
     now := 1700000000%Z |}.

(** C4, counterexample: the loop runs to its end and the final session
    update throws, or the session update in the per-item handler throws;
    either way the run ends with the error response and the session is
    never finalized: no write sets [completed], the row stays
    [processing] with no [completedAt]. *)
Lemma store_error_leaves_session_unfinalized :
  (let run := bulkCreateProducts final_write_throws "demo.myshopify.com"
                two_products_payload empty_store in
   fst run = ImportFailure "Database is locked"
   /\ importedCount (snd run) = 2%nat
   /\ finalizations (history (snd run)) = 0%nat
   /\ option_map (fun s => (status s, completedAt s))
        (findSession "session-1" (db (snd run)))
      = Some ("processing", None))
  /\ (let run := bulkCreateProducts locked_world "demo.myshopify.com"
                   two_products_payload empty_store in
      fst run = ImportFailure "Database is locked"
      /\ finalizations (history (snd run)) = 0%nat
      /\ option_map (fun s => (status s, completedAt s))
           (findSession "session-1" (db (snd run)))
         = Some ("processing", None)).
Proof. repeat split; vm_compute; reflexivity. Qed.

Lemma session_writes_monotone_witness :
  exists sessionId imported failed entries,
    fst (bulkCreateProducts quiet_world "demo.myshopify.com"
           two_products_payload empty_store)
    = ImportSummary sessionId imported failed
        (List.length (resolveProducts quiet_world two_products_payload))
        entries.
Proof.
  apply (session_writes_monotone quiet_world "demo.myshopify.com"
           two_products_payload empty_store).
  split; [now exists "session-1" | ].
  split; [intros k; split; reflexivity | reflexivity].
Defined.

(** The session update in the per-item handler is not guarded: when it
    throws, the import ends with the error response, the second product is
    never processed, no result is kept and the session stays [processing]. *)
Example unguarded_handler_write_ends_import :
  fst (bulkCreateProducts locked_world "demo.myshopify.com"
         two_products_payload empty_store)
  = ImportFailure "Database is locked"
  /\ (let st := snd (bulkCreateProducts locked_world "demo.myshopify.com"
                       two_products_payload empty_store) in
      failedCount st = 1%nat
      /\ results st = []
      /\ option_map status (findSession "session-1" (db st))
         = Some "processing").
Proof. repeat split; vm_compute; reflexivity. Qed.

(** The API source with 300 selector tokens: the tags are cut to 250. *)
Example api_tags_cut_at_250 :
  map (fun p => List.length (tags_of p))
    (fetchApiData (FetchDone true lamp_body)
       {| selectedValues := numbered_tokens "color" 300 |} [])
  = [250%nat].
Proof. vm_compute. reflexivity. Qed.

(** * Further properties *)

(** ** Conditions *)







(** The condition [c] with another operator, and with another value. *)
Definition with_operator (op : string) (c : Condition) : Condition :=
  {| field := field c; attribute := attribute c; operator := op;
     value := value c; markupType := markupType c;
     markupValue := markupValue c |}.

Definition with_value (v : string) (c : Condition) : Condition :=
  {| field := field c; attribute := attribute c; operator := operator c;
     value := v; markupType := markupType c; markupValue := markupValue c |}.

Lemma condition_field_with_operator op c :
  condition_field (with_operator op c) = condition_field c.
Proof. reflexivity. Qed.

Lemma condition_field_with_value v c :
  condition_field (with_value v c) = condition_field c.
Proof. reflexivity. Qed.

Lemma checkCondition_evaluate product c productValue :
  nullish product = false ->
  resolve_field product (condition_field c) = Normal productValue ->
  checkCondition product c
  = Normal (evaluate (condition_field c) productValue (operator c) (value c)).
Proof.
  intros Hp Hr. unfold checkCondition, get_strict. rewrite Hp. cbn [bind].
  now rewrite Hr.
Qed.

(** The operator pairs of which the second negates the first. *)
Definition negations : list (string * string) :=
  [("eq", "neq"); ("eq", "not_equals"); ("equals", "neq");
   ("equals", "not_equals"); ("contains", "ncontains");
   ("contains", "not_contains")].

(** X2: on a value that is present, [neq] / [not_equals] answer the
    opposite of [eq] / [equals], and [ncontains] / [not_contains] the
    opposite of [contains], for plain values and for tag arrays alike. *)
Theorem negated_operator_is_complement product c productValue op nop :
  nullish product = false ->
  resolve_field product (condition_field c) = Normal productValue ->
  nullish productValue = false ->
  In (op, nop) negations ->
  exists b,
    checkCondition product (with_operator op c) = Normal b
    /\ checkCondition product (with_operator nop c) = Normal (negb b).
Proof.
  intros Hp Hr Hn Hin.
  rewrite !(checkCondition_evaluate _ _ productValue) by assumption.
  eexists. split; [reflexivity | ]. f_equal.
  rewrite !condition_field_with_operator. cbn [with_operator operator value].
  unfold evaluate. rewrite Hn.
  unfold negations in Hin. cbn [In] in Hin.
  assert (Hv : compare_value productValue nop (value c)
               = negb (compare_value productValue op (value c))).
  { repeat (destruct Hin as [Hin | Hin];
            [injection Hin as <- <-; reflexivity | ]).
    destruct Hin. }
  assert (Ht : forall tags, compare_tags tags nop (value c)
                            = negb (compare_tags tags op (value c))).
  { intros tags.
    repeat (destruct Hin as [Hin | Hin];
            [injection Hin as <- <-; reflexivity | ]).
    destruct Hin. }
  destruct productValue; try exact Hv.
  destruct (field_is _ _); [apply Ht | exact Hv].
Qed.

Definition summer_shirt : jsval :=
  JObj [("title", JStr "Shirt");
        ("tags", JArr [JStr "Summer"; JStr "sale"]);
        ("variants", JArr [JObj [("price", JStr "19.99"); ("sku", JStr "SH-1")]])].

Definition tagged_winter : Condition :=
  {| field := "tags"; attribute := None; operator := "eq"; value := "winter";
     markupType := "percent"; markupValue := JNum 10 |}.

Lemma negated_operator_is_complement_witness :
  exists b,
    checkCondition summer_shirt (with_operator "contains" tagged_winter)
    = Normal b
    /\ checkCondition summer_shirt (with_operator "ncontains" tagged_winter)
       = Normal (negb b).
Proof.
  apply (negated_operator_is_complement summer_shirt tagged_winter
           (JArr [JStr "Summer"; JStr "sale"]) "contains" "ncontains");
    try reflexivity.
  do 4 right. left. reflexivity.
Defined.

(** The operators [checkCondition] knows. *)
Definition known_operator (op : string) : bool :=
  op_is op ["eq"; "equals"; "neq"; "not_equals"; "starts"; "starts_with";
            "ends"; "ends_with"; "contains"; "ncontains"; "not_contains";
            "between"].

(** X3: an operator outside the twelve [checkCondition] knows (such as
    [gt] or [lt]) never makes a condition true. *)
Theorem unsupported_operator_never_matches product c :
  known_operator (operator c) = false ->
  checkCondition product c <> Normal true.
Proof.
  intros Hk. unfold known_operator, op_is in Hk. cbn [existsb] in Hk.
  repeat (apply orb_false_iff in Hk; destruct Hk as [? Hk]).
  assert (Hv : forall pv, compare_value pv (operator c) (value c) = false).
  { intros pv. unfold compare_value, op_is. cbn [existsb].
    repeat match goal with
           | H : String.eqb (operator c) _ = false |- _ => rewrite H; clear H
           end.
    reflexivity. }
  assert (Ht : forall tags, compare_tags tags (operator c) (value c) = false).
  { intros tags. unfold compare_tags, op_is. cbn [existsb].
    repeat match goal with
           | H : String.eqb (operator c) _ = false |- _ => rewrite H
           end.
    reflexivity. }
  unfold checkCondition.
  destruct (get_strict product "title"); [ | discriminate]. cbn [bind].
  destruct (resolve_field product (condition_field c)) as [pv | m];
    [ | discriminate].
  cbn [bind]. unfold evaluate.
  destruct (nullish pv); [discriminate | ].
  destruct pv; rewrite ?Hv; try discriminate.
  destruct (field_is _ _); rewrite ?Ht, ?Hv; discriminate.
Qed.

Definition price_above_ten : Condition :=
  {| field := "price"; attribute := None; operator := "gt"; value := "10";
     markupType := "percent"; markupValue := JNum 10 |}.

Lemma unsupported_operator_never_matches_witness :
  checkCondition summer_shirt price_above_ten <> Normal true.
Proof.
  apply (unsupported_operator_never_matches summer_shirt price_above_ten).
  reflexivity.
Defined.

Lemma startsWith_refl s : startsWith s s = true.
Proof.
  induction s as [ | c s IH]; [reflexivity | ].
  simpl. now rewrite Ascii.eqb_refl.
Qed.

Lemma includes_refl s : includes s s = true.
Proof. destruct s; simpl; [reflexivity | ]. now rewrite Ascii.eqb_refl, startsWith_refl. Qed.

Lemma endsWith_refl s : endsWith s s = true.
Proof. apply startsWith_refl. Qed.

Lemma existsb_impl {A} (p q : A -> bool) l :
  (forall x, p x = true -> q x = true) ->
  existsb p l = true -> existsb q l = true.
Proof.
  intros H. rewrite !existsb_exists. intros (x & Hx & Hp). exists x. auto.
Qed.

(** The operators that hold whenever [eq] does. *)
Definition weaker_than_eq : list string :=
  ["equals"; "starts"; "starts_with"; "ends"; "ends_with"; "contains"].

Lemma compare_value_weaker pv v op :
  In op weaker_than_eq ->
  compare_value pv "eq" v = true -> compare_value pv op v = true.
Proof.
  intros Hin. unfold compare_value.
  cbn [op_is existsb String.eqb Ascii.eqb Bool.eqb orb].
  intros E. apply String.eqb_eq in E.
  unfold weaker_than_eq in Hin. cbn [In] in Hin.
  repeat (destruct Hin as [<- | Hin];
          [cbn [op_is existsb String.eqb Ascii.eqb Bool.eqb orb]; rewrite E;
           first [apply String.eqb_refl | apply startsWith_refl
                 | apply endsWith_refl | apply includes_refl] | ]).
  destruct Hin.
Qed.

Lemma compare_tags_weaker tags v op :
  In op weaker_than_eq ->
  compare_tags tags "eq" v = true -> compare_tags tags op v = true.
Proof.
  intros Hin. unfold compare_tags.
  cbn [op_is existsb String.eqb Ascii.eqb Bool.eqb orb].
  unfold weaker_than_eq in Hin. cbn [In] in Hin.
  repeat (destruct Hin as [<- | Hin];
          [cbn [op_is existsb String.eqb Ascii.eqb Bool.eqb orb];
           apply existsb_impl; intros tag E; apply String.eqb_eq in E;
           rewrite E;
           first [apply String.eqb_refl | apply startsWith_refl
                 | apply endsWith_refl | apply includes_refl] | ]).
  destruct Hin.
Qed.

(** X4: a condition that holds with [eq] also holds with [equals],
    [starts], [starts_with], [ends], [ends_with] and [contains]. *)
Theorem equal_value_matches_partially product c op :
  checkCondition product (with_operator "eq" c) = Normal true ->
  In op weaker_than_eq ->
  checkCondition product (with_operator op c) = Normal true.
Proof.
  unfold checkCondition. rewrite !condition_field_with_operator.
  destruct (get_strict product "title"); [ | discriminate]. cbn [bind].
  cbn [with_operator operator value].
  destruct (resolve_field product (condition_field c)) as [pv | m];
    [ | discriminate].
  cbn [bind]. intros H Hin. injection H as H. f_equal.
  unfold evaluate in *. destruct (nullish pv); [discriminate | ].
  destruct pv; try (now apply compare_value_weaker).
  destruct (field_is _ _);
    [now apply compare_tags_weaker | now apply compare_value_weaker].
Qed.

Definition tagged_sale : Condition :=
  {| field := "tags"; attribute := None; operator := "eq"; value := " SALE ";
     markupType := "percent"; markupValue := JNum 10 |}.

Lemma equal_value_matches_partially_witness :
  checkCondition summer_shirt (with_operator "ends_with" tagged_sale)
  = Normal true.
Proof.
  apply (equal_value_matches_partially summer_shirt tagged_sale "ends_with").
  - reflexivity.
  - do 4 right. left. reflexivity.
Defined.

(** X5: the condition value is compared trimmed and without regard to
    case: two values that agree after [trim] and [toLowerCase] give the same
    answer (for [between], whose bounds are read from the trimmed value as
    it is, two values that agree after [trim]). *)
Theorem condition_value_is_normalised product c v :
  toLowerCase (trim v) = toLowerCase (trim (value c)) ->
  (operator c = "between" -> trim v = trim (value c)) ->
  checkCondition product (with_value v c) = checkCondition product c.
Proof.
  intros Hl Hb. unfold checkCondition. rewrite condition_field_with_value.
  cbn [with_value operator value].
  destruct (get_strict product "title"); [ | reflexivity]. cbn [bind].
  destruct (resolve_field product (condition_field c)) as [pv | m];
    [ | reflexivity].
  cbn [bind]. f_equal. unfold evaluate.
  assert (Hv : compare_value pv (operator c) v
               = compare_value pv (operator c) (value c)).
  { unfold compare_value. rewrite Hl.
    repeat match goal with
           | |- (if ?b then _ else _) = (if ?b then _ else _) =>
               destruct b eqn:?; [reflexivity | ]
           end.
    destruct (op_is (operator c) ["between"]) eqn:E; [ | reflexivity].
    rewrite Hb; [reflexivity | ].
    unfold op_is in E. cbn [existsb] in E. rewrite orb_false_r in E.
    now apply String.eqb_eq. }
  assert (Ht : forall tags, compare_tags tags (operator c) v
                            = compare_tags tags (operator c) (value c)).
  { intros tags. unfold compare_tags. now rewrite Hl. }
  destruct (nullish pv); [reflexivity | ].
  destruct pv; try exact Hv.
  destruct (field_is _ _); [apply Ht | exact Hv].
Qed.

Lemma condition_value_is_normalised_witness :
  checkCondition summer_shirt (with_value "sale" tagged_sale)
  = checkCondition summer_shirt tagged_sale.
Proof.
  apply (condition_value_is_normalised summer_shirt tagged_sale "sale").
  - reflexivity.
  - discriminate.
Defined.

(** ** What a markup application changes *)

Lemma array_index_zero key : array_index key = Some 0%nat -> key = "0".
Proof.
  unfold array_index.
  destruct (scan_digits 0 0 key) as [[n cnt] rest].
  destruct cnt; [discriminate | ]. destruct rest; [ | discriminate].
  destruct (String.eqb (decimal n) key) eqn:E; [ | discriminate].
  intros H. injection H as H. apply String.eqb_eq in E. subst key.
  unfold decimal. destruct n; try reflexivity.
  exfalso. pose proof (Pos2Nat.is_pos p). simpl in H. lia.
Qed.

Lemma get_update_other key key' x fs :
  key' <> key -> get (JObj (update key' x fs)) key = get (JObj fs) key.
Proof.
  intros H. unfold get. rewrite lookup_update_other; [reflexivity | ].
  now apply String.eqb_neq.
Qed.

Lemma get_update_same key x fs : get (JObj (update key x fs)) key = x.
Proof. unfold get. now rewrite lookup_update_same. Qed.

(** What the assignments of a markup application leave as it was. *)
Definition price_only_changed (product r : jsval) : Prop :=
  (forall k, ~ In k ["variants"; "markupApplied"; "markupType"; "markupValue"] ->
             get r k = get product k)
  /\ (forall i, i <> "0" ->
                get (get r "variants") i = get (get product "variants") i)
  /\ (forall k, k <> "price" ->
                get (get (get r "variants") "0") k
                = get (get (get product "variants") "0") k).

Lemma write_markup_frame fs markupType markupValue newPrice r :
  write_markup (JObj fs) markupType markupValue newPrice = Normal r ->
  price_only_changed (JObj fs) r /\ get r "markupApplied" = JBool true.
Proof.
  unfold write_markup.
  set (variants := get (JObj fs) "variants").
  unfold get_strict. destruct (nullish variants) eqn:Hn; [discriminate | ].
  cbn [bind].
  destruct (get variants "0") as [ | | | | | | v] eqn:Hv0; try discriminate.
  cbn [set bind].
  set (v0 := JObj (update "price" _ v)).
  assert (Hset : forall variants',
             set variants "0" v0 = Normal variants' ->
             (forall i, i <> "0" -> get variants' i = get variants i)
             /\ get variants' "0" = v0).
  { intros variants' H. destruct variants as [ | | | | | l | fv];
      try discriminate.
    - cbn in H. destruct l as [ | x l]; [discriminate | ].
      injection H as <-. split; [ | reflexivity].
      intros i Hi. unfold get.
      destruct (String.eqb i "length"); [reflexivity | ].
      destruct (array_index i) as [[ | n] | ] eqn:E; try reflexivity.
      apply array_index_zero in E. contradiction.
    - cbn in H. injection H as <-. split.
      + intros i Hi. now apply get_update_other.
      + apply get_update_same. }
  destruct (set variants "0" v0) as [variants' | m] eqn:Es; [ | discriminate].
  destruct (Hset _ eq_refl) as [Hother Hzero].
  cbn [set bind]. intros H. injection H as <-.
  split; [split; [ | split] | ].
  - intros k Hk. cbn [In] in Hk.
    rewrite !get_update_other; [reflexivity | | | | ];
      intros <-; apply Hk; auto 6.
  - intros i Hi.
    rewrite !get_update_other by discriminate. rewrite get_update_same.
    now apply Hother.
  - intros k Hk.
    rewrite !get_update_other by discriminate. rewrite get_update_same.
    rewrite Hzero. fold variants. rewrite Hv0. unfold v0.
    apply get_update_other. congruence.
  - rewrite !get_update_other by discriminate. apply get_update_same.
Qed.

Lemma price_only_changed_refl product : price_only_changed product product.
Proof. repeat split. Qed.

Lemma apply_first_frame fs cs r :
  apply_first (JObj fs) cs = Normal r ->
  price_only_changed (JObj fs) r
  /\ (r = JObj fs \/ get r "markupApplied" = JBool true).
Proof.
  induction cs as [ | c cs IH]; cbn [apply_first].
  - intros H. injection H as <-. split; [apply price_only_changed_refl | now left].
  - destruct (checkCondition (JObj fs) c) as [[ | ] | m]; cbn [bind];
      try discriminate; [ | exact IH].
    destruct (marked_up _ _ _) as [newPrice | ]; [ | exact IH].
    destruct (negb _); [ | exact IH].
    intros H. apply write_markup_frame in H. destruct H as [H1 H2].
    split; [exact H1 | now right].
Qed.

(** X6: a markup application writes the price of the first variant and
    the three markup properties, and nothing else: every other property of
    the product, every other variant and every other property of the first
    variant is as before; and the product is returned unchanged or with
    [markupApplied] set. *)
Theorem markup_changes_price_only fs markupConfig r :
  applyMarkupRules (JObj fs) markupConfig = Normal r ->
  price_only_changed (JObj fs) r
  /\ (r = JObj fs \/ get r "markupApplied" = JBool true).
Proof.
  unfold applyMarkupRules. cbn [get_strict nullish bind].
  destruct (conditions markupConfig) as [ | c cs] eqn:Ec.
  - intros H. injection H as <-. split; [apply price_only_changed_refl | now left].
  - destruct (conditions_match _ _) as [[ | ] | m]; cbn [bind];
      try discriminate.
    + apply apply_first_frame.
    + intros H. injection H as <-.
      split; [apply price_only_changed_refl | now left].
Qed.

Lemma markup_changes_price_only_witness :
  exists r,
    applyMarkupRules (shirt_priced "19.99") ten_percent_only = Normal r
    /\ price_only_changed (shirt_priced "19.99") r.
Proof.
  assert (H : exists r, applyMarkupRules (shirt_priced "19.99")
                          ten_percent_only = Normal r)
    by (eexists; vm_compute; reflexivity).
  destruct H as [r H]. exists r. split; [exact H | ].
  exact (proj1 (markup_changes_price_only _ _ _ H)).
Defined.

(** The shape both source transformers give a product: an object whose
    [variants] is an array of one object. *)
Definition single_variant (p : jsval) : Prop :=
  exists fs v, p = JObj fs /\ lookup "variants" fs = Some (JArr [JObj v]).
















(** ** Selector tokens that do not parse *)

Lemma select_indices_malformed tokens rs acc :
  (forall token, In token tokens -> parse_token token = None) ->
  select_indices tokens rs acc = acc.
Proof.
  revert acc. induction tokens as [ | t r IH]; intros acc H; [reflexivity | ].
  cbn [select_indices]. rewrite (H t (or_introl eq_refl)).
  apply IH. intros token Ht. apply H. now right.
Qed.

Lemma item_selected_malformed tokens item :
  (forall token, In token tokens -> parse_token token = None) ->
  item_selected tokens item = false.
Proof.
  induction tokens as [ | t r IH]; intros H; [reflexivity | ].
  cbn [item_selected]. rewrite (H t (or_introl eq_refl)).
  apply IH. intros token Ht. apply H. now right.
Qed.

Lemma filter_none {A} (f : A -> bool) l :
  (forall x, f x = false) -> filter f l = [].
Proof.
  intros H. induction l as [ | a l IH]; [reflexivity | ].
  simpl. now rewrite H.
Qed.

(** X8: a non-empty selection whose tokens all fail the [key::value]
    guard selects no record, from a CSV and from an API alike. *)
Theorem malformed_tokens_select_nothing
    csvData response importFilters keyMappings :
  selectedValues importFilters <> [] ->
  (forall token, In token (selectedValues importFilters) ->
                 parse_token token = None) ->
  processCsvData csvData importFilters = []
  /\ fetchApiData response importFilters keyMappings = [].
Proof.
  intros Hne Hbad. split.
  - unfold processCsvData, filtered_rows.
    destruct (selectedValues importFilters) as [ | t r] eqn:E; [congruence | ].
    now rewrite select_indices_malformed.
  - unfold fetchApiData. destruct response as [ | [ | ] body]; try reflexivity.
    destruct (existsb nullish (extract_items body)); [reflexivity | ].
    destruct (selectedValues importFilters) as [ | t r] eqn:E; [congruence | ].
    rewrite filter_none; [reflexivity | ].
    intros item. now apply item_selected_malformed.
Qed.

Definition unkeyed_selection : ImportFilters :=
  {| selectedValues := ["Sports"; "::Garden"; "category::"] |}.

Lemma malformed_tokens_select_nothing_witness :
  processCsvData two_rows unkeyed_selection = []
  /\ fetchApiData (FetchDone true lamp_body) unkeyed_selection [] = [].
Proof.
  apply (malformed_tokens_select_nothing two_rows (FetchDone true lamp_body)
           unkeyed_selection []).
  - discriminate.
  - intros token [<- | [<- | [<- | []]]]; reflexivity.
Defined.

(** ** Shape of the products built from a CSV *)

(** A non-empty string value. *)
Definition filled (v : jsval) : Prop := exists s, v = JStr s /\ s <> "".

Lemma or3_row_filled row a b d :
  d <> "" -> filled (or3 (row_prop row a) (row_prop row b) (JStr d)).
Proof.
  intros Hd.
  assert (H : forall key rest,
             filled rest -> filled (or_else (row_prop row key) rest)).
  { intros key rest Hr. unfold or_else, row_prop.
    destruct (row_lookup key row) as [x | ]; cbn [truthy]; [ | exact Hr].
    destruct (String.eqb x "") eqn:Ex; cbn [negb]; [exact Hr | ].
    exists x. split; [reflexivity | now apply String.eqb_neq]. }
  unfold or3. apply H, H. now exists d.
Qed.

(** What every product built from a CSV row carries. *)
Definition complete_product (p : jsval) : Prop :=
  filled (get p "title")
  /\ filled (get p "vendor")
  /\ filled (get p "productType")
  /\ get p "status" = JStr "DRAFT"
  /\ (exists tags, get p "tags" = JArr tags)
  /\ (exists variant,
        get p "variants" = JArr [variant]
        /\ filled (get variant "price")
        /\ filled (get variant "sku")).

(** X9: every product built from a CSV row has a non-empty title, vendor
    and product type, the status [DRAFT], a tags array, and exactly one
    variant with a non-empty price and SKU, whatever the row holds. *)
Theorem csv_products_are_complete csvData importFilters product :
  In product (processCsvData csvData importFilters) ->
  complete_product product.
Proof.
  intros H. apply in_map_indexed in H. destruct H as (row & i & _ & ->).
  unfold complete_product, csv_product.
  split; [apply or3_row_filled; discriminate | ].
  split; [apply or3_row_filled; discriminate | ].
  split; [apply or3_row_filled; discriminate | ].
  split; [reflexivity | ].
  split; [eexists; reflexivity | ].
  eexists. split; [reflexivity | ].
  split; apply or3_row_filled; discriminate.
Qed.

Definition bare_rows : CsvData :=
  {| headers := ["colour"]; rows := [[("colour", "red")]; [("colour", "")]] |}.

Lemma csv_products_are_complete_witness :
  complete_product (csv_product {| selectedValues := [] |} [("colour", "")] 1).
Proof.
  apply (csv_products_are_complete bare_rows {| selectedValues := [] |}).
  vm_compute. right. left. reflexivity.
Defined.

(** ** Selector values as tags *)








(** ** The two sources select the same records *)









(** ** Key mappings *)



Lemma find_app {A} (f : A -> bool) l1 l2 :
  find f (l1 ++ l2)%list
  = match find f l1 with
    | Some x => Some x
    | None => find f l2
    end.
Proof.
  induction l1 as [ | a l1 IH]; [reflexivity | ].
  simpl. destruct (f a); [reflexivity | exact IH].
Qed.



(** ** The products of a run *)




(** X13: the batch loop never runs on an empty list, and every product
    it is given is an object: when the chosen source yields no product, the
    run is made on the one demo product. *)
Theorem import_always_has_a_product world payload :
  resolveProducts world payload <> []
  /\ Forall is_object (resolveProducts world payload)
  /\ (forall csv,
        Payload.dataSource payload = "csv" ->
        Payload.csvData payload = Some csv ->
        processCsvData csv (Payload.importFilters payload) = [] ->
        resolveProducts world payload
        = [demoProduct (Payload.importConfig payload)])
  /\ (Payload.dataSource payload = "api" ->
      Payload.apiCredentials payload = true ->
      fetchApiData (fetched world) (Payload.importFilters payload)
        (Payload.keyMappings payload) = [] ->
      resolveProducts world payload
      = [demoProduct (Payload.importConfig payload)]).
Proof.
  split; [apply resolveProducts_nonempty | ].
  split; [apply resolveProducts_objects | ].
  split.
  - intros csv Hs Hc He. unfold resolveProducts.
    now rewrite Hc, Hs, He.
  - intros Hs Hc He. unfold resolveProducts. rewrite Hs, Hc, He.
    now destruct (Payload.csvData payload).
Qed.

(** ** Batch loop: the result entries *)

(** The entries tally with the counters: as many successes as
    [importedCount], as many failures as [failedCount]. *)
Definition tallied (st : LoopState) : Prop :=
  List.length (filter success (results st)) = importedCount st
  /\ List.length (filter (fun e => negb (success e)) (results st))
     = failedCount st.

Lemma tallied_processItem w markupConfig importConfig shopName sessionId
    total pd st st' :
  processItem w markupConfig importConfig shopName sessionId total pd st
  = (Normal tt, st') ->
  tallied st -> tallied st'.
Proof.
  intros E [H1 H2].
  pose proof (processItem_outcome w markupConfig importConfig shopName
                sessionId total pd st) as H.
  rewrite E in H. destruct H as (entry & Hr & Ht & Hf).
  unfold tallied. rewrite Hr, !filter_app, !length_app. cbn [filter].
  destruct (success entry); cbn [negb List.length].
  - destruct (Ht eq_refl) as [-> ->]. lia.
  - destruct (Hf eq_refl) as [-> ->]. lia.
Qed.

Lemma tallied_batchLoop world markupConfig importConfig shopName sessionId
    total products i st st' :
  batchLoop world markupConfig importConfig shopName sessionId total
    products i st = (Normal tt, st') ->
  tallied st -> tallied st'.
Proof.
  revert i st. induction products as [ | pd r IH]; intros i st E Ht.
  - cbn in E. now injection E as <-.
  - cbn [batchLoop] in E. unfold seq in E.
    destruct (processItem _ _ _ _ _ _ _ st) as [[[] | m] st1] eqn:E1;
      [ | discriminate].
    apply (IH _ _ E). exact (tallied_processItem _ _ _ _ _ _ _ _ _ E1 Ht).
Qed.

(** X14: in the summary of a run, [imported] is the number of success
    entries of [results] and [failed] the number of failure entries. *)
Theorem result_entries_tally_with_counters
    world shopName payload store sessionId imported failed total entries st :
  bulkCreateProducts world shopName payload store
  = (ImportSummary sessionId imported failed total entries, st) ->
  List.length (filter success entries) = imported
  /\ List.length (filter (fun e => negb (success e)) entries) = failed.
Proof.
  unfold bulkCreateProducts.
  destruct (createSession world) as [sid | m]; [ | discriminate].
  unfold runImport, seq.
  destruct (batchLoop _ _ _ _ _ _ _ _ _) as [[[] | m] st1] eqn:Eloop;
    [ | discriminate].
  apply tallied_batchLoop in Eloop; [ | split; reflexivity].
  unfold sessionUpdate. destruct (finalUpdate world) as [[] | m];
    [ | discriminate].
  intros E. injection E as <- <- <- <- <- <-. exact Eloop.
Qed.

Lemma result_entries_tally_with_counters_witness :
  exists entries,
    fst two_products_run = ImportSummary "session-1" 2 0 2 entries
    /\ List.length (filter success entries) = 2%nat
    /\ List.length (filter (fun e => negb (success e)) entries) = 0%nat.
Proof.
  unfold two_products_run.
  destruct (bulkCreateProducts quiet_world "demo.myshopify.com"
              two_products_payload empty_store)
    as [[sid imp fl tot ents | m] st] eqn:E.
  - pose proof (result_entries_tally_with_counters quiet_world
                  "demo.myshopify.com" two_products_payload empty_store
                  _ _ _ _ _ _ E) as (H1 & H2).
    vm_compute in E. injection E as <- <- <- <- _ _.
    exists ents. split; [reflexivity | split; assumption].
  - vm_compute in E. discriminate.
Defined.

(** ** The progress query after an import *)









(** ** What a run leaves in the store *)

Lemma findSession_updateSession_other sessionId sid d store :
  sid <> sessionId ->
  findSession sid (updateSession sessionId d store) = findSession sid store.
Proof.
  intros Hne. unfold findSession, updateSession. cbn [sessions].
  induction (sessions store) as [ | s l IH]; [reflexivity | ].
  cbn [map find]. destruct (String.eqb (id s) sessionId) eqn:E.
  - cbn [apply_data id]. apply String.eqb_eq in E.
    destruct (String.eqb (id s) sid) eqn:E'; [ | exact IH].
    apply String.eqb_eq in E'. congruence.
  - destruct (String.eqb (id s) sid); [reflexivity | exact IH].
Qed.

Lemma findSession_records sid store records :
  findSession sid {| sessions := sessions store; importedProduct := records |}
  = findSession sid store.
Proof. reflexivity. Qed.

(** The other sessions are as they were in [store]; the product records
    are those of [store] followed by records of this shop and session, at
    most one per imported product. *)
Definition own_writes_only (shopName sessionId : string) (store : Db)
    (st : LoopState) : Prop :=
  (forall sid, sid <> sessionId ->
               findSession sid (db st) = findSession sid store)
  /\ exists added,
       importedProduct (db st) = (importedProduct store ++ added)%list
       /\ Forall (fun r => shop r = shopName /\ importSessionId r = sessionId)
            added
       /\ (List.length added <= importedCount st)%nat.

Section OwnWrites.

Variables (shopName sessionId : string) (store : Db).

Let I := own_writes_only shopName sessionId store.

Lemma own_writes_incrFailed : preserves I incrFailed.
Proof. intros st H. exact H. Qed.

Lemma own_writes_incrImported : preserves I incrImported.
Proof.
  intros st (H1 & added & H2 & H3 & H4). split; [exact H1 | ].
  exists added. cbn. auto.
Qed.

Lemma own_writes_pushResult entry : preserves I (pushResult entry).
Proof. intros st H. exact H. Qed.

Lemma own_writes_sessionUpdate outcome newStatus t completed :
  preserves I (sessionUpdate outcome sessionId newStatus t completed).
Proof.
  intros st (H1 & H2). unfold sessionUpdate.
  destruct outcome as [[] | m]; [ | now split].
  split; [ | exact H2].
  intros sid Hsid. cbn [snd db].
  rewrite findSession_updateSession_other by exact Hsid. now apply H1.
Qed.

Lemma own_writes_recordSuccess w productId p entry :
  preserves I (recordSuccess w shopName sessionId productId p entry).
Proof.
  unfold recordSuccess. intros st (H1 & added & H2 & H3 & H4).
  unfold I, own_writes_only, seq, incrImported, try_catch, sessionUpdate, createRecord,
    pushResult, ret, modify.
  destruct (progressUpdate w) as [[] | m1], (saveRecord w) as [[] | m2];
    cbn [fst snd db importedProduct sessions importedCount];
    (split;
     [intros sid Hsid;
      rewrite ?findSession_records;
      rewrite ?findSession_updateSession_other by exact Hsid; now apply H1 | ]).
  - exists (added ++ [record_of shopName sessionId productId p])%list.
    unfold updateSession. cbn [importedProduct]. rewrite H2, app_assoc.
    split; [reflexivity | ]. split.
    + apply Forall_app. split; [exact H3 | ].
      repeat constructor.
    + rewrite length_app. simpl. lia.
  - exists added. unfold updateSession. cbn [importedProduct].
    split; [exact H2 | ]. split; [exact H3 | lia].
  - exists (added ++ [record_of shopName sessionId productId p])%list.
    rewrite H2, app_assoc.
    split; [reflexivity | ]. split.
    + apply Forall_app. split; [exact H3 | ].
      repeat constructor.
    + rewrite length_app. simpl. lia.
  - exists added. split; [exact H2 | ]. split; [exact H3 | lia].
Qed.

Lemma own_writes_batchLoop world markupConfig importConfig total products i :
  preserves I
    (batchLoop world markupConfig importConfig shopName sessionId total
       products i).
Proof.
  apply invariant_batchLoop.
  - apply own_writes_incrFailed.
  - apply own_writes_pushResult.
  - intros outcome t _. apply own_writes_sessionUpdate.
  - apply own_writes_recordSuccess.
Qed.

End OwnWrites.

(** X16: whatever its outcome, a run changes no session but its own,
    keeps every product record that was there, and adds only records of its
    own shop and session, at most one per product counted as imported. *)
Theorem import_writes_only_its_own_rows
    world shopName payload store sessionId :
  createSession world = Normal sessionId ->
  own_writes_only shopName sessionId store
    (snd (bulkCreateProducts world shopName payload store)).
Proof.
  intros Hc. unfold bulkCreateProducts. rewrite Hc.
  set (store' := {| sessions := _; importedProduct := _ |}).
  assert (H0 : own_writes_only shopName sessionId store (initialState store')).
  { split.
    - intros sid Hsid. unfold findSession. cbn [initialState db store' sessions].
      rewrite find_app.
      destruct (find _ (sessions store)); [reflexivity | ].
      cbn. destruct (String.eqb sessionId sid) eqn:E; [ | reflexivity].
      apply String.eqb_eq in E. congruence.
    - exists []. cbn. rewrite app_nil_r. auto. }
  unfold runImport.
  pose proof (preserves_seq _ _ _
                (own_writes_batchLoop shopName sessionId store (item world)
                   (Payload.markupConfig payload) (Payload.importConfig payload)
                   (List.length (resolveProducts world payload))
                   (resolveProducts world payload) 0)
                (fun _ => own_writes_sessionUpdate shopName sessionId store
                            (finalUpdate world) "completed" None
                            (Some (now world)))
                _ H0) as H.
  match goal with
  | H : own_writes_only _ _ _ (snd ?run) |- context [match ?run' with _ => _ end] =>
      change run' with run; destruct run as [[[] | m] st]
  end; exact H.
Qed.

Lemma import_writes_only_its_own_rows_witness :
  own_writes_only "demo.myshopify.com" "session-1" empty_store
    (snd two_products_run).
Proof.
  apply (import_writes_only_its_own_rows quiet_world "demo.myshopify.com"
           two_products_payload empty_store "session-1").
  reflexivity.
Defined.

(** ** A run in which every call succeeds *)


Lemma single_variant_has_variants p :
  single_variant p -> has_variants p = true.
Proof.
  intros (fs & v & -> & Hv). unfold has_variants, get. rewrite Hv.
  reflexivity.
Qed.








(** ** Update of an existing product *)

(** The properties of a product that [updateShopifyProduct] reads and the
    markup application does not write. *)
Lemma applyMarkupRules_keeps fs markupConfig r key :
  applyMarkupRules (JObj fs) markupConfig = Normal r ->
  ~ In key ["variants"; "markupApplied"; "markupType"; "markupValue"] ->
  get r key = get (JObj fs) key.
Proof.
  intros H Hk.
  assert (Hf : price_only_changed (JObj fs) r).
  { revert H. unfold applyMarkupRules. cbn [get_strict nullish bind].
    destruct (conditions markupConfig) as [ | c cs] eqn:Ec.
    - intros H. injection H as <-. apply price_only_changed_refl.
    - destruct (conditions_match _ _) as [[ | ] | m]; cbn [bind];
        try discriminate.
      + intros H. now apply apply_first_frame in H.
      + intros H. injection H as <-. apply price_only_changed_refl. }
  now apply Hf.
Qed.

Lemma prepared_keeps markupConfig importConfig fs p imgs key :
  prepared markupConfig importConfig (JObj fs) p imgs ->
  ~ In key ["variants"; "markupApplied"; "markupType"; "markupValue";
            "status"] ->
  get p key = get (JObj fs) key.
Proof.
  intros (marked & Hm & Hs & _) Hk.
  assert (Hk' : ~ In key ["variants"; "markupApplied"; "markupType";
                          "markupValue"]).
  { intros H. apply Hk. cbn in *. tauto. }
  rewrite <- (applyMarkupRules_keeps _ _ _ _ Hm Hk').
  destruct marked as [ | | b | x | s | l | fm]; try discriminate.
  injection Hs as <-. apply get_update_other.
  intros <-. apply Hk. cbn. tauto.
Qed.

Lemma prepared_status markupConfig importConfig pd p imgs :
  prepared markupConfig importConfig pd p imgs ->
  get p "status"
  = JStr (if String.eqb importConfig "published" then "ACTIVE" else "DRAFT").
Proof.
  intros (marked & _ & Hs & _).
  destruct marked as [ | | b | x | s | l | fm]; try discriminate.
  injection Hs as <-. apply get_update_same.
Qed.

(** A product of one of the two sources: the row or item it was built
    from. *)
Definition source_product (importFilters : ImportFilters)
    (keyMappings : list (string * string)) (product : jsval) : Prop :=
  (exists row index, product = csv_product importFilters row index)
  \/ (exists item, product = api_product importFilters keyMappings item).

Lemma source_product_In csvData response importFilters keyMappings product :
  In product (processCsvData csvData importFilters)
  \/ In product (fetchApiData response importFilters keyMappings) ->
  source_product importFilters keyMappings product.
Proof.
  intros [H | H].
  - apply in_map_indexed in H. destruct H as (row & i & _ & ->).
    left. now exists row, i.
  - right. unfold fetchApiData in H.
    destruct response as [ | ok body]; [destruct H | ].
    destruct ok; [ | destruct H].
    destruct (existsb nullish (extract_items body)); [destruct H | ].
    apply in_map_iff in H. destruct H as (item & <- & _). now exists item.
Qed.

Definition shirt_rows : CsvData :=
  {| headers := ["Title"; "Variant Price"];
     rows := [[("Title", "Shirt"); ("Variant Price", "19.99")]] |}.

Definition demo_row_product : jsval :=
  csv_product {| selectedValues := [] |}
    [("Title", "Shirt"); ("Variant Price", "19.99")] 0.

(** X18: on the update path no variant data is sent for a product of the
    two sources: the product carries its price, SKU and barcode in its first
    variant, where [updateShopifyProduct] does not look, so the variant
    input is the id alone, with or without a markup; the product input
    carries the status chosen by the import configuration. *)
Theorem update_sends_no_variant_data
    csvData response importFilters keyMappings markupConfig importConfig
    product processedProduct productImages existingVariantId productId :
  In product (processCsvData csvData importFilters)
  \/ In product (fetchApiData response importFilters keyMappings) ->
  prepared markupConfig importConfig product processedProduct productImages ->
  variantInput existingVariantId processedProduct
  = JObj [("id", existingVariantId)]
  /\ get (productInput productId processedProduct) "status"
     = JStr (if String.eqb importConfig "published" then "ACTIVE"
             else "DRAFT")
  /\ get (productInput productId processedProduct) "id" = JStr productId.
Proof.
  intros Hin Hprep. apply source_product_In in Hin.
  assert (Hk : exists fs,
             product = JObj fs
             /\ get (JObj fs) "price" = JUndef
             /\ get (JObj fs) "supplier_sku_code" = JUndef
             /\ get (JObj fs) "barcode" = JUndef).
  { destruct Hin as [(row & i & ->) | (item & ->)];
      eexists; (split; [reflexivity | ]); repeat split. }
  destruct Hk as (fs & -> & Hprice & Hsku & Hbar).
  split; [ | split; [ | reflexivity]].
  - unfold variantInput.
    rewrite !(prepared_keeps _ _ _ _ _ _ Hprep)
      by (cbn; intuition discriminate).
    rewrite Hprice, Hsku, Hbar. reflexivity.
  - unfold productInput, get at 1. cbn [lookup String.eqb Ascii.eqb Bool.eqb].
    rewrite (prepared_status _ _ _ _ _ Hprep).
    unfold or_else. now destruct (String.eqb importConfig "published").
Qed.

Lemma update_sends_no_variant_data_witness :
  exists processedProduct productImages,
    prepared ten_percent_only "published" (demo_row_product) processedProduct
      productImages
    /\ first_price processedProduct = JStr "21.99"
    /\ variantInput (JStr "gid://shopify/ProductVariant/1") processedProduct
       = JObj [("id", JStr "gid://shopify/ProductVariant/1")].
Proof.
  assert (P : exists p imgs,
             prepared ten_percent_only "published" demo_row_product p imgs
             /\ first_price p = JStr "21.99").
  { eexists. eexists. split.
    - eexists. split; [vm_compute; reflexivity | ].
      split; [reflexivity | ]. vm_compute. reflexivity.
    - vm_compute. reflexivity. }
  destruct P as (p & imgs & P & Hprice). exists p, imgs.
  split; [exact P | ]. split; [exact Hprice | ].
  refine (proj1 (update_sends_no_variant_data shirt_rows FetchThrows
                   {| selectedValues := [] |} [] ten_percent_only "published"
                   _ p imgs (JStr "gid://shopify/ProductVariant/1") "" _ P)).
  left. vm_compute. left. reflexivity.
Defined.

(** ** Lookup of an imported product *)

(** [findFirst] answers from the rows of [table]: a row it returns is in
    the table and satisfies the filter, and it returns [null] only when no
    row does.  Which of several matching rows it returns is left open. *)
Definition answers_from (table : list ImportedProduct)
    (findFirst : (ImportedProduct -> bool) -> completion (option ImportedProduct))
  : Prop :=
  forall p,
    match findFirst p with
    | Normal (Some r) => In r table /\ p r = true
    | Normal None => forall r, In r table -> p r = false
    | Throw _ => True
    end.

(** The store answers every query. *)
Definition never_throws
    (findFirst : (ImportedProduct -> bool) -> completion (option ImportedProduct))
  : Prop :=
  forall p, exists found, findFirst p = Normal found.

(** [findFirst] on a table read in creation order. *)
Definition first_created (table : list ImportedProduct)
    (p : ImportedProduct -> bool) : completion (option ImportedProduct) :=
  Normal (find p table).

Lemma first_created_answers table : answers_from table (first_created table).
Proof.
  intros p. unfold first_created. destruct (find p table) as [r | ] eqn:E.
  - now apply find_some in E.
  - intros r Hr. exact (find_none _ _ E r Hr).
Qed.

Lemma first_created_never_throws table : never_throws (first_created table).
Proof. intros p. eexists. reflexivity. Qed.

Lemma by_sku_true shopName skuCode r :
  by_sku shopName skuCode r = true <-> shop r = shopName /\ sku r = skuCode.
Proof.
  unfold by_sku. now rewrite andb_true_iff, !String.eqb_eq.
Qed.

Lemma by_title_true shopName productTitle r :
  by_title shopName productTitle r = true
  <-> shop r = shopName /\ title r = productTitle.
Proof.
  unfold by_title. now rewrite andb_true_iff, !String.eqb_eq.
Qed.

Lemma lookup_matching table findFirst shopName skuCode productTitle r :
  answers_from table findFirst ->
  checkProductInDatabase findFirst shopName skuCode productTitle = Some r ->
  In r table
  /\ shop r = shopName
  /\ ((skuCode <> "" /\ sku r = skuCode)
      \/ (productTitle <> "" /\ title r = productTitle)).
Proof.
  intros Ha. unfold checkProductInDatabase.
  destruct (String.eqb skuCode "") eqn:Es; cbn [negb bind].
  - destruct (String.eqb productTitle "") eqn:Et; cbn [negb bind];
      [discriminate | ].
    pose proof (Ha (by_title shopName productTitle)) as H.
    destruct (findFirst (by_title shopName productTitle)) as [[r' | ] | m];
      cbn [bind]; try discriminate.
    intros E. injection E as ->. destruct H as [Hin Hp].
    apply by_title_true in Hp. apply String.eqb_neq in Et.
    split; [exact Hin | ]. split; [apply Hp | right; split; [exact Et | apply Hp]].
  - pose proof (Ha (by_sku shopName skuCode)) as H.
    destruct (findFirst (by_sku shopName skuCode)) as [[r' | ] | m];
      cbn [bind]; try discriminate.
    + intros E. injection E as ->. destruct H as [Hin Hp].
      apply by_sku_true in Hp. apply String.eqb_neq in Es.
      split; [exact Hin | ]. split; [apply Hp | left; split; [exact Es | apply Hp]].
    + destruct (String.eqb productTitle "") eqn:Et; cbn [negb bind];
        [discriminate | ].
      pose proof (Ha (by_title shopName productTitle)) as H'.
      destruct (findFirst (by_title shopName productTitle)) as [[r' | ] | m];
        cbn [bind]; try discriminate.
      intros E. injection E as ->. destruct H' as [Hin Hp].
      apply by_title_true in Hp. apply String.eqb_neq in Et.
      split; [exact Hin | ].
      split; [apply Hp | right; split; [exact Et | apply Hp]].
Qed.

Lemma lookup_missing table findFirst shopName skuCode productTitle :
  answers_from table findFirst ->
  never_throws findFirst ->
  checkProductInDatabase findFirst shopName skuCode productTitle = None ->
  forall r, In r table -> shop r = shopName ->
            (skuCode <> "" -> sku r <> skuCode)
            /\ (productTitle <> "" -> title r <> productTitle).
Proof.
  intros Ha Hn. unfold checkProductInDatabase.
  pose proof (Ha (by_sku shopName skuCode)) as Hs.
  pose proof (Ha (by_title shopName productTitle)) as Ht.
  destruct (Hn (by_sku shopName skuCode)) as [fs Efs].
  destruct (Hn (by_title shopName productTitle)) as [ft Eft].
  rewrite Efs in Hs. rewrite Eft in Ht. rewrite Efs, Eft.
  intros Hnone r Hin Hshop. split.
  - intros Hsku E. apply String.eqb_neq in Hsku. rewrite Hsku in Hnone.
    cbn [negb bind] in Hnone.
    destruct fs as [r' | ]; [discriminate | ].
    specialize (Hs r Hin).
    assert (by_sku shopName skuCode r = true) by now apply by_sku_true.
    congruence.
  - intros Htitle E. apply String.eqb_neq in Htitle.
    rewrite Htitle in Hnone.
    destruct (negb (String.eqb skuCode "")); cbn [negb bind] in Hnone.
    + destruct fs as [r' | ]; [discriminate | ]. cbn [bind] in Hnone.
      destruct ft as [r' | ]; [discriminate | ].
      specialize (Ht r Hin).
      assert (by_title shopName productTitle r = true)
        by now apply by_title_true.
      congruence.
    + destruct ft as [r' | ]; [discriminate | ].
      specialize (Ht r Hin).
      assert (by_title shopName productTitle r = true)
        by now apply by_title_true.
      congruence.
Qed.

Lemma lookup_by_sku table findFirst shopName skuCode productTitle r :
  answers_from table findFirst ->
  never_throws findFirst ->
  In r table -> shop r = shopName -> skuCode <> "" -> sku r = skuCode ->
  exists found,
    checkProductInDatabase findFirst shopName skuCode productTitle = Some found
    /\ sku found = skuCode.
Proof.
  intros Ha Hn Hin Hshop Hsku E. unfold checkProductInDatabase.
  pose proof (Ha (by_sku shopName skuCode)) as Hs.
  destruct (Hn (by_sku shopName skuCode)) as [fs Efs].
  rewrite Efs in Hs. rewrite Efs.
  apply String.eqb_neq in Hsku. rewrite Hsku. cbn [negb bind].
  destruct fs as [found | ].
  - exists found. split; [reflexivity | ].
    destruct Hs as [_ Hp]. now apply by_sku_true in Hp.
  - specialize (Hs r Hin).
    assert (by_sku shopName skuCode r = true) by now apply by_sku_true.
    congruence.
Qed.

(** X19: a row found by [checkProductInDatabase] belongs to the shop asked
    for and carries the SKU asked for, when one was given, or else the title
    asked for: a row of another shop is never returned.  While the store
    answers, the lookup misses only when no row of the shop carries the SKU
    or the title asked for, and a row with the SKU is preferred to a row
    with the title. *)
Theorem lookup_matches_shop_and_key
    table findFirst shopName skuCode productTitle :
  answers_from table findFirst ->
  (forall r,
     checkProductInDatabase findFirst shopName skuCode productTitle = Some r ->
     In r table
     /\ shop r = shopName
     /\ ((skuCode <> "" /\ sku r = skuCode)
         \/ (productTitle <> "" /\ title r = productTitle)))
  /\ (never_throws findFirst ->
      (checkProductInDatabase findFirst shopName skuCode productTitle = None ->
       forall r, In r table -> shop r = shopName ->
                 (skuCode <> "" -> sku r <> skuCode)
                 /\ (productTitle <> "" -> title r <> productTitle))
      /\ (forall r, In r table -> shop r = shopName -> skuCode <> "" ->
                    sku r = skuCode ->
                    exists found,
                      checkProductInDatabase findFirst shopName skuCode
                        productTitle = Some found
                      /\ sku found = skuCode)).
Proof.
  intros Ha. split; [ | intros Hn; split].
  - intros r. now apply lookup_matching.
  - now apply lookup_missing.
  - intros r. now apply lookup_by_sku.
Qed.

Definition three_records : list ImportedProduct :=
  [{| shop := "other.myshopify.com"; importSessionId := "s0";
      shopifyProductId := "gid://shopify/Product/1"; title := "Shirt";
      sku := "SH-1" |};
   {| shop := "demo.myshopify.com"; importSessionId := "s1";
      shopifyProductId := "gid://shopify/Product/2"; title := "Shirt";
      sku := "SH-9" |};
   {| shop := "demo.myshopify.com"; importSessionId := "s1";
      shopifyProductId := "gid://shopify/Product/3"; title := "Lamp";
      sku := "SH-1" |}].

(** The title asked for is that of a row of the shop, the SKU that of
    another: the row with the SKU is found. *)
Lemma lookup_matches_shop_and_key_witness :
  exists found,
    checkProductInDatabase (first_created three_records) "demo.myshopify.com"
      "SH-9" "Lamp" = Some found
    /\ sku found = "SH-9".
Proof.
  destruct (lookup_matches_shop_and_key three_records
              (first_created three_records) "demo.myshopify.com" "SH-9" "Lamp"
              (first_created_answers three_records))
    as [_ H].
  destruct (H (first_created_never_throws three_records)) as [_ Hsku].
  refine (Hsku {| shop := "demo.myshopify.com"; importSessionId := "s1";
                  shopifyProductId := "gid://shopify/Product/2";
                  title := "Shirt"; sku := "SH-9" |} _ eq_refl _ eq_refl).
  - right. left. reflexivity.
  - discriminate.
Defined.

(** ** An imported product is found again *)

Lemma recordSuccess_saves w shopName sessionId productId p entry st :
  saveRecord w = Normal tt ->
  In (record_of shopName sessionId productId p)
    (importedProduct
       (db (snd (recordSuccess w shopName sessionId productId p entry st)))).
Proof.
  intros Hs. unfold recordSuccess, seq, incrImported, try_catch, sessionUpdate,
    createRecord, pushResult, ret, modify.
  rewrite Hs. destruct (progressUpdate w) as [[] | m];
    cbn [fst snd db importedProduct]; apply in_or_app; right; now left.
Qed.

(** X20: once the record of an imported product is saved, the lookup made
    for the same product (same shop, SKU and title) finds a row of the shop
    with that SKU or that title, so the next import of the product can take
    the update path. *)
Theorem imported_product_is_found_again
    findFirst w shopName sessionId productId p entry st skuCode productTitle :
  get p "title" = JStr productTitle ->
  get_opt (get_opt (get p "variants") "0") "sku" = JStr skuCode ->
  skuCode <> "" \/ productTitle <> "" ->
  saveRecord w = Normal tt ->
  answers_from
    (importedProduct
       (db (snd (recordSuccess w shopName sessionId productId p entry st))))
    findFirst ->
  never_throws findFirst ->
  exists found,
    checkProductInDatabase findFirst shopName skuCode productTitle = Some found
    /\ shop found = shopName
    /\ (sku found = skuCode \/ title found = productTitle).
Proof.
  intros Ht Hs Hne Hsave Ha Hn.
  pose proof (recordSuccess_saves w shopName sessionId productId p entry st
                Hsave) as Hin.
  set (table := importedProduct _) in *.
  set (r := record_of shopName sessionId productId p) in *.
  assert (Hr : shop r = shopName /\ sku r = skuCode /\ title r = productTitle).
  { unfold r, record_of. cbn [shop sku title]. rewrite Ht, Hs.
    unfold or_else. cbn [truthy].
    split; [reflexivity | ].
    split; [destruct (String.eqb skuCode "") eqn:E |
            destruct (String.eqb productTitle "") eqn:E];
      cbn [negb to_string]; try reflexivity;
      apply String.eqb_eq in E; now rewrite E. }
  destruct Hr as (Hshop & Hsku & Htitle).
  destruct (checkProductInDatabase findFirst shopName skuCode productTitle)
    as [found | ] eqn:E.
  - exists found. split; [reflexivity | ].
    destruct (lookup_matching _ _ _ _ _ _ Ha E) as (_ & H1 & H2).
    split; [exact H1 | ]. destruct H2 as [[_ H2] | [_ H2]]; auto.
  - exfalso.
    destruct (lookup_missing _ _ _ _ _ Ha Hn E r Hin Hshop) as [H1 H2].
    destruct Hne as [Hne | Hne]; [now apply H1 | now apply H2].
Qed.

Definition saved_shirt : LoopState :=
  snd (recordSuccess (all_calls_succeed "gid://shopify/Product/8")
         "demo.myshopify.com" "s1" "gid://shopify/Product/8"
         (shirt_priced "19.99")
         {| success := true; product := JNull; error := None |}
         (initialState one_session_store)).

Lemma imported_product_is_found_again_witness :
  exists found,
    checkProductInDatabase
      (first_created (importedProduct (db saved_shirt)))
      "demo.myshopify.com" "SH-1" "Shirt" = Some found
    /\ shop found = "demo.myshopify.com"
    /\ (sku found = "SH-1" \/ title found = "Shirt").
Proof.
  apply (imported_product_is_found_again
           (first_created (importedProduct (db saved_shirt)))
           (all_calls_succeed "gid://shopify/Product/8")
           "demo.myshopify.com" "s1" "gid://shopify/Product/8"
           (shirt_priced "19.99")
           {| success := true; product := JNull; error := None |}
           (initialState one_session_store) "SH-1" "Shirt").
  - reflexivity.
  - reflexivity.
  - left. discriminate.
  - reflexivity.
  - apply first_created_answers.
  - apply first_created_never_throws.
Defined.
